(** * Machine deployment orchestrator (internal/command/deploy/machines.go)

    A shallow embedding of the lease layer, the machine set, the release
    command runner and the rollout loop of [deploy/machines.go], together
    with the properties stated about them.

    Conventions of the embedding.
    - The control-plane client ([flaps.Client]), the wall clock, the state of
      the caller's context and the Go scheduler are external: they are
      gathered in a record [World] of oracles which may answer as a
      function of everything that happened so far (the trace).  Every
      theorem quantifies over the world.
    - Go methods with a pointer receiver take the receiver and return its
      new value.  A Go [error] result is an [option error] ([None] is
      [nil]); a [(T, error)] result is a sum.
    - A run either returns, panics (nil dereference, write to a nil map,
      index out of range) or is cut by the fuel of a polling loop.  No call
      made while a deferred function is pending can panic, so a deferred
      call is sequenced after the body it guards. *)

From Stdlib Require Import ZArith Lia.
From stdpp Require Import base option list strings pretty gmap.

Local Open Scope string_scope.
Local Open Scope Z_scope.
Local Open Scope list_scope.

(** ** Go values *)

(** [time.Duration]: a signed 64-bit count of nanoseconds. *)
Definition Duration := Z.

Definition Nanosecond : Duration := 1.
Definition Millisecond : Duration := 1000000.
Definition Second : Duration := 1000000000.
Definition Minute : Duration := 60 * Second.

Definition maxInt64 : Z := 2 ^ 63 - 1.
Definition minInt64 : Z := - 2 ^ 63.

(** Wrap-around of int64 arithmetic. *)
Definition wrap64 (z : Z) : Z := (z + 2 ^ 63) mod 2 ^ 64 - 2 ^ 63.

(** [time.Time], as nanoseconds since the Unix epoch.  The zero value
    [time.Time{}] is January 1 of year 1, far before the epoch. *)
Definition Time := Z.

Definition time_zero : Time := -62135596800 * Second.

(** [time.Unix(sec, 0)].  A [time.Time] keeps the seconds since January 1
    of year 1 in an int64; [time.Unix] gets them by adding the offset of the
    Unix epoch to [sec], and that sum wraps around: a [sec] within
    62135596800 of the largest int64 gives a time far in the past. *)
Definition unixToInternal : Z := 62135596800.

Definition time_Unix (sec : Z) : Time :=
  (wrap64 (sec + unixToInternal) - unixToInternal) * Second.

(** [t.After(u)]. *)
Definition time_After (t u : Time) : bool := bool_decide (u < t).

(** [t.Sub(u)]: the difference, saturated to the range of a Duration. *)
Definition time_Sub (t u : Time) : Duration :=
  let d := t - u in
  if bool_decide (maxInt64 < d) then maxInt64
  else if bool_decide (d < minInt64) then minInt64
  else d.

(** ** float64, as far as [Duration.Seconds] needs it

    A finite float64 is [significand * 2 ^ exponent], the significand of at
    most 53 bits.  [round_float64 n d] is the float64 nearest to the
    rational [n / d] (for [0 < d]), a tie going to the even significand, as
    every operation of IEEE 754 arithmetic rounds its exact result.  The
    range of the exponent is not modelled: the quotients and sums of
    [Duration.Seconds] stay far from overflow and from the subnormal
    numbers. *)
Record float64 := {
  significand : Z;
  exponent : Z
}.

Definition float64_zero : float64 := {| significand := 0; exponent := 0 |}.

Definition float64_neg (x : float64) : float64 :=
  {| significand := - significand x; exponent := exponent x |}.

(** The rounding of a positive rational: the exponent is chosen so that the
    scaled quotient lies between 2^52 and 2^53, and the scaled quotient is
    rounded to the nearest integer. *)
Definition round_pos (n d : Z) : float64 :=
  let k := Z.log2 n - Z.log2 d in
  let above :=
    if bool_decide (0 ≤ k) then bool_decide (d * 2 ^ k ≤ n)
    else bool_decide (d ≤ n * 2 ^ (- k)) in
  let e := if above then k - 52 else k - 53 in
  let num := if bool_decide (0 ≤ e) then n else n * 2 ^ (- e) in
  let den := if bool_decide (0 ≤ e) then d * 2 ^ e else d in
  let q := num / den in
  let r := num mod den in
  let m :=
    if bool_decide (2 * r < den) then q
    else if bool_decide (den < 2 * r) then q + 1
    else if Z.even q then q else q + 1 in
  {| significand := m; exponent := e |}.

Definition round_float64 (n d : Z) : float64 :=
  if bool_decide (n = 0) then float64_zero
  else if bool_decide (0 < n) then round_pos n d
  else float64_neg (round_pos (- n) d).

(** The value of a float64 as a fraction with a positive denominator. *)
Definition float64_num (x : float64) : Z :=
  if bool_decide (0 ≤ exponent x) then significand x * 2 ^ exponent x else significand x.

Definition float64_den (x : float64) : Z :=
  if bool_decide (0 ≤ exponent x) then 1 else 2 ^ (- exponent x).

(** [float64(z)] for an integer [z]. *)
Definition float64_of_int (z : Z) : float64 := round_float64 z 1.

(** [x + y] and [x / y] (for [y] not zero) on float64. *)
Definition float64_add (x y : float64) : float64 :=
  round_float64 (float64_num x * float64_den y + float64_num y * float64_den x)
                (float64_den x * float64_den y).

Definition float64_div (x y : float64) : float64 :=
  let n := float64_num x * float64_den y in
  let d := float64_den x * float64_num y in
  if bool_decide (d < 0) then round_float64 (- n) (- d) else round_float64 n d.

(** [int(x)]: the integer part, towards zero. *)
Definition float64_to_int (x : float64) : Z := Z.quot (float64_num x) (float64_den x).

(** [d.Seconds()] of the time package:
    [sec := d / Second; nsec := d % Second;
     return float64(sec) + float64(nsec)/1e9]. *)
Definition Duration_Seconds (d : Duration) : float64 :=
  let sec := Z.quot d Second in
  let nsec := Z.rem d Second in
  float64_add (float64_of_int sec)
              (float64_div (float64_of_int nsec) (float64_of_int 1000000000)).

(** ** Errors

    [fmt.Errorf] with a [%w] verb wraps its argument; [errors.Is] walks the
    chain of wrapped errors.  The two context sentinels are the only errors
    the deployment code tells apart.  An error of the control-plane client
    carries whether the request could succeed if repeated; nothing in
    [deploy/machines.go] looks at that. *)
Inductive error : Type :=
| context_Canceled
| context_DeadlineExceeded
| FlapsError (retryable : bool) (msg : string)
| Errorf (msg : string)
| Errorf_w (msg : string) (wrapped : error).

Fixpoint errors_Is (err target : error) : bool :=
  match err, target with
  | context_Canceled, context_Canceled => true
  | context_DeadlineExceeded, context_DeadlineExceeded => true
  | FlapsError r m, FlapsError r' m' => bool_decide (r = r') && bool_decide (m = m')
  | Errorf m, Errorf m' => bool_decide (m = m')
  | Errorf_w _ e, _ => errors_Is e target
  | _, _ => false
  end.

(** [errors.Is(err, target)] on a possibly nil [err]. *)
Definition errors_Is_opt (err : option error) (target : error) : bool :=
  match err with
  | None => false
  | Some e => errors_Is e target
  end.

(** ** The api package: the fields [deploy/machines.go] reads and writes *)

Record MachineCheck := {
  chkType : string;
  chkInterval : Duration
}.

Record MachineService := {
  svcProtocol : string;
  svcInternalPort : Z
}.

Record MachineMount := {
  Volume : string;
  Path : string;
  mntName : string
}.

Record MachineGuest := {
  CPUKind : string;
  CPUs : Z;
  MemoryMB : Z
}.

Record MachineMetrics := {
  metPort : Z;
  metPath : string
}.

Inductive MachineRestartPolicy :=
| MachineRestartPolicyUnset
| MachineRestartPolicyNo
| MachineRestartPolicyOnFailure
| MachineRestartPolicyAlways.

(** [api.MachineConfig].  A nil slice or map is [None]; the code tests
    [Checks] and [Mounts] against nil and assigns nil to others. *)
Record MachineConfig := {
  Env : option (gmap string string);
  Init_Cmd : option (list string);
  Image : string;
  Metadata : option (gmap string string);
  Mounts : option (list MachineMount);
  Restart : MachineRestartPolicy;
  Services : option (list MachineService);
  Checks : option (gmap string MachineCheck);
  Metrics : option MachineMetrics;
  Guest : option MachineGuest
}.

(** [&api.MachineConfig{}]. *)
Definition MachineConfig_zero : MachineConfig :=
  {| Env := None; Init_Cmd := None; Image := ""; Metadata := None;
     Mounts := None; Restart := MachineRestartPolicyUnset; Services := None;
     Checks := None; Metrics := None; Guest := None |}.

Inductive CheckStatus := Passing | Warning | Critical.

#[global] Instance CheckStatus_eq_dec : EqDecision CheckStatus.
Proof. solve_decision. Defined.

Record MachineCheckStatus := {
  csName : string;
  csStatus : CheckStatus
}.

(** An event of the machine's history.  [evExitCode] is what
    [Request.GetExitCode()] finds: [None] when the request carries no exit
    event. *)
Record MachineEvent := {
  evType : string;
  evTimestamp : Z;
  evExitCode : option Z
}.

(** [api.Machine]: the local snapshot of a VM.  The control plane always
    sends a configuration, so [Config] is not a nullable pointer here. *)
Record Machine := {
  ID : string;
  Region : string;
  State : string;
  Config : MachineConfig;
  mChecks : list MachineCheckStatus;
  Events : list MachineEvent
}.

Record LaunchMachineInput := {
  liID : string;
  liAppID : string;
  liOrgSlug : string;
  liRegion : string;
  liConfig : MachineConfig
}.

(** The data of a successful lease response. *)
Record MachineLeaseData := {
  Nonce : string;
  ExpiresAt : Z
}.

Record MachineLease := {
  lsStatus : string;
  lsCode : string;
  lsMessage : string;
  lsData : option MachineLeaseData
}.

(** Modelled from the spec: the values of [api.MachineProcessGroupApp],
    [api.MachineProcessGroupReleaseCommand], [api.MachineStateStarted] and
    [api.MachineStateStopped] are declared in the api package, which is not
    among the sources; the spec names the process groups "app" and
    "release_command" and the states "started" and "stopped". *)
Definition MachineProcessGroupApp : string := "app".
Definition MachineProcessGroupReleaseCommand : string := "release_command".
Definition MachineStateStarted : string := "started".
Definition MachineStateStopped : string := "stopped".

(** Modelled from the spec: [Machine.HealthCheckStatus().AllPassing()] is
    declared in the api package; "all checks report passing", the passing
    checks counted as [passingChecks] of the render package counts them. *)
Definition passingChecks (checks : list MachineCheckStatus) : nat :=
  length (filter (fun c => csStatus c = Passing) checks).

Record HealthCheckStatus := {
  hcTotal : nat;
  hcPassing : nat
}.

Definition Machine_HealthCheckStatus (m : Machine) : HealthCheckStatus :=
  {| hcTotal := length (mChecks m); hcPassing := passingChecks (mChecks m) |}.

Definition AllPassing (s : HealthCheckStatus) : bool :=
  bool_decide (hcPassing s = hcTotal s).

(** Modelled from the spec: [Machine.GetLatestEventOfTypeAfterType] is
    declared in the api package; "an event of type1 that occurs after the
    most recent event of type2".  [Events] is newest first: the events
    before the first [type2] are the ones after the most recent [type2]. *)
Fixpoint GetLatestEventOfTypeAfterType_go (evs : list MachineEvent)
    (type1 type2 : string) (found : option MachineEvent) : option MachineEvent :=
  match evs with
  | [] => None
  | e :: rest =>
      if bool_decide (evType e = type2) then found
      else if bool_decide (evType e = type1) then
        GetLatestEventOfTypeAfterType_go rest type1 type2
          (match found with Some f => Some f | None => Some e end)
      else GetLatestEventOfTypeAfterType_go rest type1 type2 found
  end.

Definition GetLatestEventOfTypeAfterType (m : Machine) (type1 type2 : string)
    : option MachineEvent :=
  GetLatestEventOfTypeAfterType_go (Events m) type1 type2 None.

(** Modelled from the spec: [MachineRequest.GetExitCode] is declared in the
    api package; it "extracts the exit code" of an exit event and fails when
    the request has none. *)
Definition GetExitCode (e : MachineEvent) : error + Z :=
  match evExitCode e with
  | Some c => inr c
  | None => inl (Errorf "no exit code in this machine request")
  end.

(** ** The outside world *)

(** [context.Context]: the caller's context, a child with a timeout, or
    [context.TODO()]. *)
Inductive Ctx :=
| ctx_caller
| ctx_WithTimeout (parent : Ctx) (timeout : Duration)
| ctx_TODO.

(** [backoff.Backoff] of jpillora/backoff: the configuration the code sets. *)
Record Backoff := {
  Min : Duration;
  Max : Duration;
  Factor : Z;
  Jitter : bool
}.

(** The requests of [flaps.Client]. *)
Inductive Call :=
| Call_Update (ctx : Ctx) (input : LaunchMachineInput) (nonce : string)
| Call_Launch (ctx : Ctx) (input : LaunchMachineInput)
| Call_Get (ctx : Ctx) (id : string)
| Call_Wait (ctx : Ctx) (m : Machine) (state : string) (timeout : Duration)
| Call_AcquireLease (ctx : Ctx) (id : string) (seconds : Z)
| Call_ReleaseLease (ctx : Ctx) (id : string) (nonce : string).

Inductive LogLevel := Warn | Info | Stdout | Stderr.

(** What a run does that can be seen from outside, in order: requests to the
    control plane, readings of the clock and of the context, sleeps (the
    [attempt]-th duration of a backoff; the library draws it, with jitter),
    and the lines written for the operator (format and error argument;
    status lines that are redrawn in place are rendering and left out). *)
Inductive Event :=
| Ev_Call (c : Call)
| Ev_Now (t : Time)
| Ev_CtxErr (ctx : Ctx) (err : option error)
| Ev_Sleep (b : Backoff) (attempt : nat)
| Ev_Log (level : LogLevel) (format : string) (err : option error).

Definition Trace := list Event.

(** The oracles.  Each answers from the trace so far, so an answer may depend
    on every earlier request; [sched tr n] picks which of [n] goroutines
    that are ready runs next. *)
Record World := {
  flaps_Update : Trace -> Ctx -> LaunchMachineInput -> string -> error + Machine;
  flaps_Launch : Trace -> Ctx -> LaunchMachineInput -> error + Machine;
  flaps_Get : Trace -> Ctx -> string -> error + Machine;
  flaps_Wait : Trace -> Ctx -> Machine -> string -> Duration -> option error;
  flaps_AcquireLease : Trace -> Ctx -> string -> Z -> error + MachineLease;
  flaps_ReleaseLease : Trace -> Ctx -> string -> string -> option error;
  time_Now : Trace -> Time;
  ctx_Err : Trace -> Ctx -> option error;
  sched : Trace -> nat -> nat
}.

(** ** Runs *)

Inductive Res (A : Type) :=
| Done (a : A)
| Panicked (msg : string)
| Unfinished.
Arguments Done {A} a.
Arguments Panicked {A} msg.
Arguments Unfinished {A}.

Definition M (A : Type) : Type := Trace -> Res A * Trace.

Definition ret {A} (a : A) : M A := fun tr => (Done a, tr).

Definition bind {A B} (m : M A) (k : A -> M B) : M B :=
  fun tr =>
    match m tr with
    | (Done a, tr') => k a tr'
    | (Panicked msg, tr') => (Panicked msg, tr')
    | (Unfinished, tr') => (Unfinished, tr')
    end.

Definition panic {A} (msg : string) : M A := fun tr => (Panicked msg, tr).

Definition emit (e : Event) : M unit := fun tr => (Done tt, tr ++ [e]).

Notation "x <- c ;; k" := (bind c (fun x => k))
  (at level 100, c at next level, right associativity).
Notation "c ;;; k" := (bind c (fun _ => k))
  (at level 100, right associativity).

(** The requests a trace contains. *)
Definition calls (tr : Trace) : list Call :=
  omap (fun e => match e with Ev_Call c => Some c | _ => None end) tr.

(** ** leasableMachine *)

Record leasableMachine := {
  machine : Machine;
  leaseNonce : string;
  leaseExpiration : Time
}.

Definition NewLeasableMachine (m : Machine) : leasableMachine :=
  {| machine := m; leaseNonce := ""; leaseExpiration := time_zero |}.

Definition resetLease (lm : leasableMachine) : leasableMachine :=
  {| machine := machine lm; leaseNonce := ""; leaseExpiration := time_zero |}.

(** The assignment [lm.machine = m]. *)
Definition set_machine (m : Machine) (lm : leasableMachine) : leasableMachine :=
  {| machine := m; leaseNonce := leaseNonce lm; leaseExpiration := leaseExpiration lm |}.

Section Deploy.

Variable world : World.

Definition now : M Time :=
  fun tr => let t := time_Now world tr in (Done t, tr ++ [Ev_Now t]).

Definition Update_call (ctx : Ctx) (input : LaunchMachineInput) (nonce : string)
    : M (error + Machine) :=
  fun tr => (Done (flaps_Update world tr ctx input nonce),
             tr ++ [Ev_Call (Call_Update ctx input nonce)]).

Definition Launch_call (ctx : Ctx) (input : LaunchMachineInput) : M (error + Machine) :=
  fun tr => (Done (flaps_Launch world tr ctx input), tr ++ [Ev_Call (Call_Launch ctx input)]).

Definition Get_call (ctx : Ctx) (id : string) : M (error + Machine) :=
  fun tr => (Done (flaps_Get world tr ctx id), tr ++ [Ev_Call (Call_Get ctx id)]).

Definition Wait_call (ctx : Ctx) (m : Machine) (state : string) (timeout : Duration)
    : M (option error) :=
  fun tr => (Done (flaps_Wait world tr ctx m state timeout),
             tr ++ [Ev_Call (Call_Wait ctx m state timeout)]).

Definition AcquireLease_call (ctx : Ctx) (id : string) (seconds : Z)
    : M (error + MachineLease) :=
  fun tr => (Done (flaps_AcquireLease world tr ctx id seconds),
             tr ++ [Ev_Call (Call_AcquireLease ctx id seconds)]).

Definition ReleaseLease_call (ctx : Ctx) (id : string) (nonce : string)
    : M (option error) :=
  fun tr => (Done (flaps_ReleaseLease world tr ctx id nonce),
             tr ++ [Ev_Call (Call_ReleaseLease ctx id nonce)]).

Definition Err_of (ctx : Ctx) : M (option error) :=
  fun tr => let e := ctx_Err world tr ctx in (Done e, tr ++ [Ev_CtxErr ctx e]).

Definition log (level : LogLevel) (format : string) (err : option error) : M unit :=
  emit (Ev_Log level format err).

(** [lm.HasLease()]: the clock is read only when the nonce is not empty. *)
Definition HasLease (lm : leasableMachine) : M bool :=
  if bool_decide (leaseNonce lm ≠ "") then
    t <- now ;;
    ret (time_After (leaseExpiration lm) t)
  else ret false.

(** [lm.Update(ctx, input)]. *)
Definition Update (lm : leasableMachine) (ctx : Ctx) (input : LaunchMachineInput)
    : M (option error * leasableMachine) :=
  has <- HasLease lm ;;
  if negb has then
    ret (Some (Errorf ("no current lease for machine " +:+ ID (machine lm))), lm)
  else
    r <- Update_call ctx input (leaseNonce lm) ;;
    match r with
    | inl err => ret (Some err, lm)
    | inr updateMachine => ret (None, set_machine updateMachine lm)
    end.

(** [lm.AcquireLease(ctx, duration)].  The seconds asked for are
    [int(duration.Seconds())]: the duration goes through float64, so from
    2^24 seconds on a duration just short of a whole second is rounded up
    to it. *)
Definition AcquireLease (lm : leasableMachine) (ctx : Ctx) (duration : Duration)
    : M (option error * leasableMachine) :=
  has <- HasLease lm ;;
  if has then ret (None, lm)
  else
    let seconds := float64_to_int (Duration_Seconds duration) in
    r <- AcquireLease_call ctx (ID (machine lm)) seconds ;;
    match r with
    | inl err => ret (Some err, lm)
    | inr lease =>
        if bool_decide (lsStatus lease ≠ "success") then
          ret (Some (Errorf ("did not acquire lease for machine " +:+ ID (machine lm)
                             +:+ " status: " +:+ lsStatus lease
                             +:+ " code: " +:+ lsCode lease
                             +:+ " message: " +:+ lsMessage lease)), lm)
        else
          match lsData lease with
          | None =>
              ret (Some (Errorf ("missing data from lease response for machine "
                                 +:+ ID (machine lm)
                                 +:+ ", assuming not successful")), lm)
          | Some data =>
              ret (None, {| machine := machine lm;
                            leaseNonce := Nonce data;
                            leaseExpiration := time_Unix (ExpiresAt data) |})
          end
    end.

(** [lm.ReleaseLease(ctx)].  [time.Since] reads the clock a second time. *)
Definition ReleaseLease (lm : leasableMachine) (ctx : Ctx)
    : M (option error * leasableMachine) :=
  has <- HasLease lm ;;
  if negb has then ret (None, resetLease lm)
  else
    t <- now ;;
    if bool_decide (5 * Second < time_Sub t (leaseExpiration lm)) then
      ret (None, resetLease lm)
    else
      err <- ReleaseLease_call ctx (ID (machine lm)) (leaseNonce lm) ;;
      match err with
      | Some e =>
          log Warn "failed to release lease for machine %s (expires at %s): %v" (Some e) ;;;
          ret (Some e, resetLease lm)
      | None => ret (None, resetLease lm)
      end.

(** ** machineSet *)

Record machineSet := {
  machines : list leasableMachine
}.

Definition NewMachineSet (ms : list Machine) : machineSet :=
  {| machines := NewLeasableMachine <$> ms |}.

Definition IsEmpty (ms : machineSet) : bool :=
  bool_decide (length (machines ms) = 0%nat).

Definition GetMachines (ms : machineSet) : list leasableMachine := machines ms.

(** The scheduler's choice among [n] ready goroutines. *)
Definition pick (n : nat) : M nat :=
  fun tr => (Done (sched world tr n mod n)%nat, tr).

(** The fan-out of [AcquireLeases] and [ReleaseLeases]: one goroutine per
    member runs the method [f] on it and sends the result on the channel.
    The goroutines run in the order the scheduler picks; each touches only
    its own member.  [pending] are the members whose goroutine has not run,
    [results] what the channel holds.  The collecting loop ends when the
    channel is closed, that is after every goroutine has finished.  A
    goroutine runs here in one piece: the oracles answer from the whole
    trace, so the answers that interleaved goroutines could get are the
    answers of some world. *)
Fixpoint fanout (f : leasableMachine -> M (option error * leasableMachine))
    (n : nat) (pending : list nat) (ms : list leasableMachine)
    (results : list (option error))
    : M (list (option error) * list leasableMachine) :=
  match n with
  | O => ret (results, ms)
  | S n' =>
      k <- pick (length pending) ;;
      match pending !! k with
      | None => ret (results, ms)
      | Some i =>
          match ms !! i with
          | None => ret (results, ms)
          | Some m =>
              r <- f m ;;
              fanout f n' (delete k pending) (<[i := r.2]> ms) (results ++ [r.1])
          end
      end
  end.

Definition fanout_all (f : leasableMachine -> M (option error * leasableMachine))
    (ms : list leasableMachine) : M (list (option error) * list leasableMachine) :=
  fanout f (length ms) (seq 0 (length ms)) ms [].

(** The collecting loop of [AcquireLeases]. *)
Fixpoint acquireResults (results : list (option error)) (hadError : bool) : M bool :=
  match results with
  | [] => ret hadError
  | None :: rest => acquireResults rest hadError
  | Some e :: rest =>
      log Warn "failed to acquire lease: %v" (Some e) ;;;
      acquireResults rest true
  end.

(** The collecting loop of [ReleaseLeases]. *)
Fixpoint releaseResults (contextWasAlreadyCanceled : bool)
    (results : list (option error)) (hadError : bool) : M bool :=
  match results with
  | [] => ret hadError
  | err :: rest =>
      let contextTimedOutOrCanceled :=
        errors_Is_opt err context_DeadlineExceeded
        || errors_Is_opt err context_Canceled in
      if bool_decide (err ≠ None)
         && (negb contextWasAlreadyCanceled || negb contextTimedOutOrCanceled)
      then
        log Warn "failed to release lease: %v" err ;;;
        releaseResults contextWasAlreadyCanceled rest true
      else releaseResults contextWasAlreadyCanceled rest hadError
  end.

(** [ms.ReleaseLeases(ctx)]. *)
Definition ReleaseLeases (ms : machineSet) (ctx : Ctx) : M (option error * machineSet) :=
  cerr <- Err_of ctx ;;
  let contextWasAlreadyCanceled := errors_Is_opt cerr context_Canceled in
  ctx' <- (if contextWasAlreadyCanceled then
             let cancelTimeout := 500 * Millisecond in
             log Info "detected canceled context and allowing %s to release machine leases" None ;;;
             ret (ctx_WithTimeout ctx_TODO cancelTimeout)
           else ret ctx) ;;
  r <- fanout_all (fun m => ReleaseLease m ctx') (machines ms) ;;
  hadError <- releaseResults contextWasAlreadyCanceled r.1 false ;;
  if hadError then
    ret (Some (Errorf "error releasing leases on machines"), {| machines := r.2 |})
  else ret (None, {| machines := r.2 |}).

(** [ms.AcquireLeases(ctx, duration)]. *)
Definition AcquireLeases (ms : machineSet) (ctx : Ctx) (duration : Duration)
    : M (option error * machineSet) :=
  r <- fanout_all (fun m => AcquireLease m ctx duration) (machines ms) ;;
  hadError <- acquireResults r.1 false ;;
  if hadError then
    rel <- ReleaseLeases {| machines := r.2 |} ctx ;;
    match rel.1 with
     | Some e => log Warn "error releasing machine leases: %v" (Some e)
     | None => ret tt
     end ;;;
    ret (Some (Errorf "error acquiring leases on all machines"), rel.2)
  else ret (None, {| machines := r.2 |}).

(** ** Polling *)

Definition out_of_fuel {A} : M A := fun tr => (Unfinished, tr).

(** [time.Sleep(b.Duration())]: the backoff counts its attempts. *)
Definition sleep (b : Backoff) (attempt : nat) : M unit := emit (Ev_Sleep b attempt).

(** The loop of [WaitForState]; [fuel] bounds the number of polls. *)
Fixpoint WaitForState_loop (fuel : nat) (lm : leasableMachine) (waitCtx : Ctx)
    (desiredState : string) (timeout : Duration) (b : Backoff) (attempt : nat)
    : M (option error) :=
  match fuel with
  | O => out_of_fuel
  | S fuel' =>
      err <- Wait_call waitCtx (machine lm) desiredState timeout ;;
      match err with
      | Some e =>
          if errors_Is e context_Canceled then ret (Some e)
          else if errors_Is e context_DeadlineExceeded then
            ret (Some (Errorf_w ("timeout reached waiting for machine to "
                                 +:+ desiredState +:+ " ") e))
          else
            sleep b attempt ;;;
            WaitForState_loop fuel' lm waitCtx desiredState timeout b (S attempt)
      | None => ret None
      end
  end.

(** [lm.WaitForState(ctx, desiredState, timeout)]. *)
Definition WaitForState (fuel : nat) (lm : leasableMachine) (ctx : Ctx)
    (desiredState : string) (timeout : Duration) : M (option error) :=
  let waitCtx := ctx_WithTimeout ctx timeout in
  let b := {| Min := 500 * Millisecond; Max := 2 * Second; Factor := 2; Jitter := true |} in
  WaitForState_loop fuel lm waitCtx desiredState timeout b 0.

(** The shortest interval among the checks, starting from 120 seconds. *)
Definition shortestInterval (checks : gmap string MachineCheck) : Duration :=
  map_fold (fun _ c shortest =>
              let ci := chkInterval c in
              if bool_decide (ci < shortest) then ci else shortest)
           (120 * Second) checks.

(** The backoff of [WaitForHealthchecksToPass]. *)
Definition healthcheckBackoff (checks : gmap string MachineCheck) : Backoff :=
  {| Min := Z.quot (shortestInterval checks) 2;
     Max := wrap64 (2 * shortestInterval checks);
     Factor := 2;
     Jitter := true |}.

(** The loop of [WaitForHealthchecksToPass]. *)
Fixpoint WaitForHealthchecksToPass_loop (fuel : nat) (lm : leasableMachine)
    (waitCtx : Ctx) (b : Backoff) (attempt : nat) : M (option error) :=
  match fuel with
  | O => out_of_fuel
  | S fuel' =>
      r <- Get_call waitCtx (ID (machine lm)) ;;
      match r with
      | inl e =>
          if errors_Is e context_Canceled then ret (Some e)
          else if errors_Is e context_DeadlineExceeded then
            ret (Some (Errorf_w ("timeout reached waiting for healthchecks to pass for machine "
                                 +:+ ID (machine lm) +:+ " ") e))
          else
            ret (Some (Errorf_w ("error getting machine " +:+ ID (machine lm)
                                 +:+ " from api: ") e))
      | inr updateMachine =>
          if negb (AllPassing (Machine_HealthCheckStatus updateMachine)) then
            sleep b attempt ;;;
            WaitForHealthchecksToPass_loop fuel' lm waitCtx b (S attempt)
          else ret None
      end
  end.

(** [lm.WaitForHealthchecksToPass(ctx, timeout)]. *)
Definition WaitForHealthchecksToPass (fuel : nat) (lm : leasableMachine) (ctx : Ctx)
    (timeout : Duration) : M (option error) :=
  match Checks (Config (machine lm)) with
  | None => ret None
  | Some checks =>
      let waitCtx := ctx_WithTimeout ctx timeout in
      WaitForHealthchecksToPass_loop fuel lm waitCtx (healthcheckBackoff checks) 0
  end.

(** The loop of [WaitForEventTypeAfterType]. *)
Fixpoint WaitForEventTypeAfterType_loop (fuel : nat) (lm : leasableMachine)
    (waitCtx : Ctx) (eventType1 eventType2 : string) (b : Backoff) (attempt : nat)
    : M (error + MachineEvent) :=
  match fuel with
  | O => out_of_fuel
  | S fuel' =>
      r <- Get_call waitCtx (ID (machine lm)) ;;
      match r with
      | inl e =>
          if errors_Is e context_Canceled then ret (inl e)
          else if errors_Is e context_DeadlineExceeded then
            ret (inl (Errorf_w ("timeout reached waiting for healthchecks to pass for machine "
                                +:+ ID (machine lm) +:+ " ") e))
          else
            ret (inl (Errorf_w ("error getting machine " +:+ ID (machine lm)
                                +:+ " from api: ") e))
      | inr updateMachine =>
          match GetLatestEventOfTypeAfterType updateMachine eventType1 eventType2 with
          | Some exitEvent => ret (inr exitEvent)
          | None =>
              sleep b attempt ;;;
              WaitForEventTypeAfterType_loop fuel' lm waitCtx eventType1 eventType2 b
                (S attempt)
          end
      end
  end.

(** [lm.WaitForEventTypeAfterType(ctx, eventType1, eventType2, timeout)]. *)
Definition WaitForEventTypeAfterType (fuel : nat) (lm : leasableMachine) (ctx : Ctx)
    (eventType1 eventType2 : string) (timeout : Duration) : M (error + MachineEvent) :=
  let waitCtx := ctx_WithTimeout ctx timeout in
  let b := {| Min := 500 * Millisecond; Max := 2 * Second; Factor := 2; Jitter := true |} in
  WaitForEventTypeAfterType_loop fuel lm waitCtx eventType1 eventType2 b 0.

(** ** machineDeployment *)

(** The constants of the api package whose values the sources do not show. *)
Record ApiConstants := {
  MachineConfigMetadataKeyFlyPlatformVersion : string;
  MachineConfigMetadataKeyFlyReleaseId : string;
  MachineConfigMetadataKeyFlyReleaseVersion : string;
  MachineConfigMetadataKeyProcessGroup : string;
  MachineConfigMetadataKeyFlyManagedPostgres : string;
  MachineFlyPlatformVersion2 : string
}.

(** [api.AppCompact], [app.Config] and [imgsrc.DeploymentImage]: what the
    deployment reads of them. *)
Record AppCompact := {
  Name : string;
  Organization_ID : string;
  IsPostgresApp : bool
}.

Record AppConfig := {
  AppName : string;
  PrimaryRegion : string;
  cfgEnv : option (gmap string string);
  cfgMetrics : option MachineMetrics
}.

Record DeploymentImage := {
  Tag : string
}.

(** [machineDeployment].  [NewMachineDeployment] refuses a deployment that is
    not restart-only and has no image, and the image is read only when the
    deployment is not restart-only: [img] is not a nullable pointer here. *)
Record machineDeployment := {
  app : AppCompact;
  appConfig : AppConfig;
  img : DeploymentImage;
  machineSet_ : machineSet;
  releaseCommandMachine : machineSet;
  releaseCommand : string;
  volumeName : string;
  volumeDestination : string;
  appChecksForMachines : option (gmap string MachineCheck);
  appServicesForMachines : option (list MachineService);
  strategy : string;
  releaseId : string;
  releaseVersion : Z;
  skipHealthChecks : bool;
  restartOnly : bool;
  waitTimeout : Duration;
  leaseTimeout : Duration
}.

Definition with_machineSet (md : machineDeployment) (ms : machineSet) : machineDeployment :=
  {| app := app md; appConfig := appConfig md; img := img md;
     machineSet_ := ms; releaseCommandMachine := releaseCommandMachine md;
     releaseCommand := releaseCommand md; volumeName := volumeName md;
     volumeDestination := volumeDestination md;
     appChecksForMachines := appChecksForMachines md;
     appServicesForMachines := appServicesForMachines md;
     strategy := strategy md; releaseId := releaseId md;
     releaseVersion := releaseVersion md; skipHealthChecks := skipHealthChecks md;
     restartOnly := restartOnly md; waitTimeout := waitTimeout md;
     leaseTimeout := leaseTimeout md |}.

Definition with_releaseCommandMachine (md : machineDeployment) (ms : machineSet)
    : machineDeployment :=
  {| app := app md; appConfig := appConfig md; img := img md;
     machineSet_ := machineSet_ md; releaseCommandMachine := ms;
     releaseCommand := releaseCommand md; volumeName := volumeName md;
     volumeDestination := volumeDestination md;
     appChecksForMachines := appChecksForMachines md;
     appServicesForMachines := appServicesForMachines md;
     strategy := strategy md; releaseId := releaseId md;
     releaseVersion := releaseVersion md; skipHealthChecks := skipHealthChecks md;
     restartOnly := restartOnly md; waitTimeout := waitTimeout md;
     leaseTimeout := leaseTimeout md |}.

(** A write to the map [md.appConfig.Env]. *)
Definition with_appEnv (md : machineDeployment) (e : gmap string string)
    : machineDeployment :=
  {| app := app md;
     appConfig := {| AppName := AppName (appConfig md);
                     PrimaryRegion := PrimaryRegion (appConfig md);
                     cfgEnv := Some e;
                     cfgMetrics := cfgMetrics (appConfig md) |};
     img := img md;
     machineSet_ := machineSet_ md; releaseCommandMachine := releaseCommandMachine md;
     releaseCommand := releaseCommand md; volumeName := volumeName md;
     volumeDestination := volumeDestination md;
     appChecksForMachines := appChecksForMachines md;
     appServicesForMachines := appServicesForMachines md;
     strategy := strategy md; releaseId := releaseId md;
     releaseVersion := releaseVersion md; skipHealthChecks := skipHealthChecks md;
     restartOnly := restartOnly md; waitTimeout := waitTimeout md;
     leaseTimeout := leaseTimeout md |}.

(** Field updates of a [MachineConfig]. *)
Definition set_Metadata (v : option (gmap string string)) (c : MachineConfig) : MachineConfig :=
  {| Env := Env c; Init_Cmd := Init_Cmd c; Image := Image c; Metadata := v;
     Mounts := Mounts c; Restart := Restart c; Services := Services c;
     Checks := Checks c; Metrics := Metrics c; Guest := Guest c |}.

Definition set_Env (v : option (gmap string string)) (c : MachineConfig) : MachineConfig :=
  {| Env := v; Init_Cmd := Init_Cmd c; Image := Image c; Metadata := Metadata c;
     Mounts := Mounts c; Restart := Restart c; Services := Services c;
     Checks := Checks c; Metrics := Metrics c; Guest := Guest c |}.

Definition set_Init_Cmd (v : option (list string)) (c : MachineConfig) : MachineConfig :=
  {| Env := Env c; Init_Cmd := v; Image := Image c; Metadata := Metadata c;
     Mounts := Mounts c; Restart := Restart c; Services := Services c;
     Checks := Checks c; Metrics := Metrics c; Guest := Guest c |}.

Definition set_Image (v : string) (c : MachineConfig) : MachineConfig :=
  {| Env := Env c; Init_Cmd := Init_Cmd c; Image := v; Metadata := Metadata c;
     Mounts := Mounts c; Restart := Restart c; Services := Services c;
     Checks := Checks c; Metrics := Metrics c; Guest := Guest c |}.

Definition set_Mounts (v : option (list MachineMount)) (c : MachineConfig) : MachineConfig :=
  {| Env := Env c; Init_Cmd := Init_Cmd c; Image := Image c; Metadata := Metadata c;
     Mounts := v; Restart := Restart c; Services := Services c;
     Checks := Checks c; Metrics := Metrics c; Guest := Guest c |}.

Definition set_Restart (v : MachineRestartPolicy) (c : MachineConfig) : MachineConfig :=
  {| Env := Env c; Init_Cmd := Init_Cmd c; Image := Image c; Metadata := Metadata c;
     Mounts := Mounts c; Restart := v; Services := Services c;
     Checks := Checks c; Metrics := Metrics c; Guest := Guest c |}.

Definition set_Services (v : option (list MachineService)) (c : MachineConfig) : MachineConfig :=
  {| Env := Env c; Init_Cmd := Init_Cmd c; Image := Image c; Metadata := Metadata c;
     Mounts := Mounts c; Restart := Restart c; Services := v;
     Checks := Checks c; Metrics := Metrics c; Guest := Guest c |}.

Definition set_Checks (v : option (gmap string MachineCheck)) (c : MachineConfig) : MachineConfig :=
  {| Env := Env c; Init_Cmd := Init_Cmd c; Image := Image c; Metadata := Metadata c;
     Mounts := Mounts c; Restart := Restart c; Services := Services c;
     Checks := v; Metrics := Metrics c; Guest := Guest c |}.

Definition set_Metrics (v : option MachineMetrics) (c : MachineConfig) : MachineConfig :=
  {| Env := Env c; Init_Cmd := Init_Cmd c; Image := Image c; Metadata := Metadata c;
     Mounts := Mounts c; Restart := Restart c; Services := Services c;
     Checks := Checks c; Metrics := v; Guest := Guest c |}.

Definition set_Guest (v : option MachineGuest) (c : MachineConfig) : MachineConfig :=
  {| Env := Env c; Init_Cmd := Init_Cmd c; Image := Image c; Metadata := Metadata c;
     Mounts := Mounts c; Restart := Restart c; Services := Services c;
     Checks := Checks c; Metrics := Metrics c; Guest := v |}.

Definition set_Config (c : MachineConfig) (m : Machine) : Machine :=
  {| ID := ID m; Region := Region m; State := State m; Config := c;
     mChecks := mChecks m; Events := Events m |}.

(** Reading a key of a Go map of strings: the empty string when the map is
    nil or has no such key. *)
Definition map_get (m : option (gmap string string)) (k : string) : string :=
  default "" (default ∅ m !! k).

(** [strings.Split(s, " ")]. *)
Fixpoint strings_Split_go (s : string) (cur : string) : list string :=
  match s with
  | EmptyString => [cur]
  | String c s' =>
      if bool_decide (String c "" = " ") then cur :: strings_Split_go s' ""
      else strings_Split_go s' (cur +:+ String c "")
  end.

Definition strings_Split_space (s : string) : list string := strings_Split_go s "".

Variable K : ApiConstants.

Definition isFlyAppsPlatformMetadata (key : string) : bool :=
  bool_decide (key = MachineConfigMetadataKeyFlyPlatformVersion K)
  || bool_decide (key = MachineConfigMetadataKeyFlyReleaseId K)
  || bool_decide (key = MachineConfigMetadataKeyFlyReleaseVersion K)
  || bool_decide (key = MachineConfigMetadataKeyProcessGroup K)
  || bool_decide (key = MachineConfigMetadataKeyFlyManagedPostgres K).

(** [md.defaultMachineMetadata(processGroup)]; [strconv.Itoa] is [pretty]. *)
Definition defaultMachineMetadata (md : machineDeployment) (processGroup : string)
    : gmap string string :=
  let res : gmap string string :=
    <[MachineConfigMetadataKeyProcessGroup K := processGroup]>
    (<[MachineConfigMetadataKeyFlyReleaseVersion K := pretty (releaseVersion md)]>
    (<[MachineConfigMetadataKeyFlyReleaseId K := releaseId md]>
    (<[MachineConfigMetadataKeyFlyPlatformVersion K := MachineFlyPlatformVersion2 K]> ∅))) in
  if IsPostgresApp (app md) then
    <[MachineConfigMetadataKeyFlyManagedPostgres K := "true"]> res
  else res.

(** Inside [resolveUpdatedMachineConfig] two configuration objects exist:
    the fresh [&api.MachineConfig{}] and the one [origMachineRaw.Config]
    points to; [machineConf] points to one of them. *)
Inductive ConfPtr := ptr_fresh | ptr_orig.

Record ConfStore := {
  at_fresh : MachineConfig;
  at_orig : MachineConfig
}.

Definition load (p : ConfPtr) (st : ConfStore) : MachineConfig :=
  match p with ptr_fresh => at_fresh st | ptr_orig => at_orig st end.

Definition store (p : ConfPtr) (f : MachineConfig -> MachineConfig) (st : ConfStore)
    : ConfStore :=
  match p with
  | ptr_fresh => {| at_fresh := f (at_fresh st); at_orig := at_orig st |}
  | ptr_orig => {| at_fresh := at_fresh st; at_orig := f (at_orig st) |}
  end.

(** The loop copying the entries of [src] that are not platform metadata
    into [dst]. *)
Definition copyUserMetadata (src dst : gmap string string) : gmap string string :=
  filter (fun kv => isFlyAppsPlatformMetadata kv.1 = false) src ∪ dst.

(** What [resolveUpdatedMachineConfig] returns and leaves behind: the launch
    input as it reads at return, whether its [Config] is the machine's own
    configuration object and whether its [Config.Env] is the map
    [md.appConfig.Env], and the deployment and the machine after the call
    (both can be written through what they share with the input). *)
Record resolved := {
  launchInput : LaunchMachineInput;
  config_is_orig : bool;
  env_is_app : bool;
  res_md : machineDeployment;
  res_orig : Machine
}.

(** [md.resolveUpdatedMachineConfig(processGroup, origMachineRaw)].  When
    the path of the single mount is rewritten the slice is the machine's own
    (the fresh configuration has none), so the machine sees the new path. *)
Definition resolveUpdatedMachineConfig (md : machineDeployment) (processGroup : string)
    (origMachineRaw : option Machine) : M resolved :=
  match origMachineRaw with
  | None => panic "invalid memory address or nil pointer dereference"
  | Some orig =>
      let machineConf := if restartOnly md then ptr_orig else ptr_fresh in
      let st0 := {| at_fresh := MachineConfig_zero; at_orig := Config orig |} in
      let input (c : MachineConfig) :=
        {| liID := ID orig; liAppID := Name (app md);
           liOrgSlug := Organization_ID (app md);
           liRegion := Region orig; liConfig := c |} in
      let st1 :=
        store machineConf (set_Metadata (Some (defaultMachineMetadata md processGroup))) st0 in
      let st2 :=
        store machineConf
          (fun c => set_Metadata
                      (Some (copyUserMetadata (default ∅ (Metadata (at_orig st1)))
                                              (default ∅ (Metadata c)))) c) st1 in
      if restartOnly md then
        ret {| launchInput := input (load machineConf st2);
               config_is_orig := true; env_is_app := false;
               res_md := md; res_orig := set_Config (at_orig st2) orig |}
      else
        let c := load machineConf st2 in
        let oc := at_orig st2 in
        let c := set_Image (Tag (img md)) c in
        let c := set_Init_Cmd None c in
        let c := set_Checks (appChecksForMachines md) c in
        let c := set_Services (appServicesForMachines md) c in
        let c := set_Metrics (cfgMetrics (appConfig md)) c in
        let shared_env := bool_decide (cfgEnv (appConfig md) ≠ None) in
        let e := default ∅ (cfgEnv (appConfig md)) in
        let e :=
          if bool_decide (map_get (Some e) "PRIMARY_REGION" = "")
             && bool_decide (map_get (Env oc) "PRIMARY_REGION" ≠ "")
          then <["PRIMARY_REGION" := map_get (Env oc) "PRIMARY_REGION"]> e
          else e in
        let c := set_Env (Some e) c in
        let md' := if shared_env then with_appEnv md e else md in
        let c := match Mounts oc with
                 | Some ms => set_Mounts (Some ms) c
                 | None => c
                 end in
        let rewrite :=
          match Mounts c with
          | Some [currentMount] => bool_decide (Path currentMount ≠ volumeDestination md)
          | _ => false
          end in
        (if rewrite then
           log Warn "Updating the mount path for volume %s on machine %s from %s to %s due to fly.toml [mounts] destination value" None
         else ret tt) ;;;
        let mounts' :=
          if rewrite then
            fmap (M := list)
                 (fun m => {| Volume := Volume m; Path := volumeDestination md;
                              mntName := mntName m |}) <$> Mounts c
          else Mounts c in
        let c := set_Mounts mounts' c in
        let oc := if rewrite then set_Mounts mounts' oc else oc in
        let c := match Guest oc with
                 | Some g => set_Guest (Some g) c
                 | None => c
                 end in
        ret {| launchInput := input c;
               config_is_orig := false; env_is_app := shared_env;
               res_md := md'; res_orig := set_Config oc orig |}
  end.

(** [md.configureLaunchInputForReleaseCommand(launchInput)].  The writes go
    through the pointers of the input: to the machine's configuration when
    the input shares it, to [md.appConfig.Env] when the input shares that
    map.  Writing a key of a nil map panics. *)
Definition configureLaunchInputForReleaseCommand (r : resolved) : M resolved :=
  let md := res_md r in
  let c := liConfig (launchInput r) in
  let c := set_Init_Cmd (Some (strings_Split_space (releaseCommand md))) c in
  let c := set_Services None c in
  let c := set_Checks None c in
  let c := set_Restart MachineRestartPolicyNo c in
  let region :=
    if bool_decide (PrimaryRegion (appConfig md) ≠ "") then PrimaryRegion (appConfig md)
    else liRegion (launchInput r) in
  e <- match default ∅ (Env c) !! "RELEASE_COMMAND" with
       | Some _ => ret (Env c)
       | None =>
           match Env c with
           | None => panic "assignment to entry in nil map"
           | Some e => ret (Some (<["RELEASE_COMMAND" := "1"]> e))
           end
       end ;;
  let c := set_Env e c in
  ret {| launchInput := {| liID := liID (launchInput r);
                           liAppID := liAppID (launchInput r);
                           liOrgSlug := liOrgSlug (launchInput r);
                           liRegion := region;
                           liConfig := c |};
         config_is_orig := config_is_orig r;
         env_is_app := env_is_app r;
         res_md := if env_is_app r then with_appEnv md (default ∅ e) else md;
         res_orig := if config_is_orig r then set_Config c (res_orig r)
                     else res_orig r |}.

(** [md.createReleaseCommandMachine(ctx)]. *)
Definition createReleaseCommandMachine (md : machineDeployment) (ctx : Ctx)
    : M (option error * machineDeployment) :=
  if bool_decide (releaseCommand md = "") || negb (IsEmpty (releaseCommandMachine md)) then
    ret (None, md)
  else
    launchInput0 <- resolveUpdatedMachineConfig md MachineProcessGroupReleaseCommand None ;;
    launchInput1 <- configureLaunchInputForReleaseCommand launchInput0 ;;
    r <- Launch_call ctx (launchInput launchInput1) ;;
    match r with
    | inl err =>
        ret (Some (Errorf_w "error creating a release_command machine: " err),
             res_md launchInput1)
    | inr releaseCmdMachine =>
        ret (None,
             with_releaseCommandMachine (res_md launchInput1)
               (NewMachineSet [releaseCmdMachine]))
    end.

(** [md.updateReleaseCommandMachine(ctx)].  [releaseCmdMachine] is the first
    member of the set; the set's methods and the later [Update] act on that
    same object.  The deferred release runs after the body. *)
Definition updateReleaseCommandMachine (fuel : nat) (md : machineDeployment) (ctx : Ctx)
    : M (option error * machineDeployment) :=
  if bool_decide (releaseCommand md = "") then ret (None, md)
  else if IsEmpty (releaseCommandMachine md) then
    ret (Some (Errorf "expected release_command machine to exist already, but it does not :-("),
         md)
  else
    match GetMachines (releaseCommandMachine md) with
    | [] => panic "index out of range [0] with length 0"
    | releaseCmdMachine :: others =>
        log Stderr "  Updating release_command machine %s" None ;;;
        err <- WaitForState fuel releaseCmdMachine ctx MachineStateStopped (waitTimeout md) ;;
        match err with
        | Some e => ret (Some e, md)
        | None =>
            updatedConfig0 <- resolveUpdatedMachineConfig md
                                MachineProcessGroupReleaseCommand
                                (Some (machine releaseCmdMachine)) ;;
            updatedConfig <- configureLaunchInputForReleaseCommand updatedConfig0 ;;
            let md := with_releaseCommandMachine (res_md updatedConfig)
                        {| machines := set_machine (res_orig updatedConfig) releaseCmdMachine
                                       :: others |} in
            a <- AcquireLeases (releaseCommandMachine md) ctx (leaseTimeout md) ;;
            let md := with_releaseCommandMachine md a.2 in
            body <- match a.1 with
                    | Some e => ret (Some e, md)
                    | None =>
                        match GetMachines (releaseCommandMachine md) with
                        | [] => panic "index out of range [0] with length 0"
                        | releaseCmdMachine :: others =>
                            u <- Update releaseCmdMachine ctx (launchInput updatedConfig) ;;
                            let md := with_releaseCommandMachine md
                                        {| machines := u.2 :: others |} in
                            match u.1 with
                            | Some e =>
                                ret (Some (Errorf_w "error updating release_command machine: " e),
                                     md)
                            | None => ret (None, md)
                            end
                        end
                    end ;;
            rel <- ReleaseLeases (releaseCommandMachine body.2) ctx ;;
            ret (body.1, with_releaseCommandMachine body.2 rel.2)
        end
    end.

(** [md.createOrUpdateReleaseCmdMachine(ctx)]. *)
Definition createOrUpdateReleaseCmdMachine (fuel : nat) (md : machineDeployment) (ctx : Ctx)
    : M (option error * machineDeployment) :=
  if IsEmpty (releaseCommandMachine md) then createReleaseCommandMachine md ctx
  else updateReleaseCommandMachine fuel md ctx.

(** The error of a release command that exited with a non-zero status. *)
Definition nonZeroExit (id : string) (exitCode : Z) : error :=
  Errorf ("error release_command machine " +:+ id
          +:+ " exited with non-zero status of " +:+ pretty exitCode).

(** [md.runReleaseCommand(ctx)]. *)
Definition runReleaseCommand (fuel : nat) (md : machineDeployment) (ctx : Ctx)
    : M (option error * machineDeployment) :=
  if bool_decide (releaseCommand md = "")
     || IsEmpty (releaseCommandMachine md)
     || restartOnly md
  then ret (None, md)
  else
    log Stderr "Running %s release_command: %s" None ;;;
    r <- createOrUpdateReleaseCmdMachine fuel md ctx ;;
    let md := r.2 in
    match r.1 with
    | Some e => ret (Some (Errorf_w "error running release_command machine: " e), md)
    | None =>
        match GetMachines (releaseCommandMachine md) with
        | [] => panic "index out of range [0] with length 0"
        | releaseCmdMachine :: _ =>
            let id := ID (machine releaseCmdMachine) in
            err <- WaitForState fuel releaseCmdMachine ctx MachineStateStarted (waitTimeout md) ;;
            match err with
            | Some e =>
                ret (Some (Errorf_w ("error waiting for release_command machine " +:+ id
                                     +:+ " to start: ") e), md)
            | None =>
            err <- WaitForState fuel releaseCmdMachine ctx MachineStateStopped (waitTimeout md) ;;
            match err with
            | Some e =>
                ret (Some (Errorf_w ("error waiting for release_command machine " +:+ id
                                     +:+ " to finish running: ") e), md)
            | None =>
            ev <- WaitForEventTypeAfterType fuel releaseCmdMachine ctx "exit" "start"
                    (waitTimeout md) ;;
            match ev with
            | inl e =>
                ret (Some (Errorf_w ("error finding the release_command machine " +:+ id
                                     +:+ " exit event: ") e), md)
            | inr lastExitEvent =>
            match GetExitCode lastExitEvent with
            | inl e =>
                ret (Some (Errorf_w ("error get release_command machine " +:+ id
                                     +:+ " exit code: ") e), md)
            | inr exitCode =>
                if bool_decide (exitCode ≠ 0) then
                  log Stderr "Error release_command failed running on machine %s with exit code %s. Check the logs at: https://fly.io/apps/%s/monitoring" None ;;;
                  ret (Some (nonZeroExit id exitCode), md)
                else
                  log Stderr "  release_command %s completed successfully" None ;;;
                  ret (None, md)
            end end end end
        end
    end.

(** The waits after a machine was updated or launched. *)
Definition waitForMachine (fuel : nat) (md : machineDeployment) (ctx : Ctx)
    (m : leasableMachine) : M (option error) :=
  err <- (if bool_decide (strategy md ≠ "immediate") then
            WaitForState fuel m ctx MachineStateStarted (waitTimeout md)
          else ret None) ;;
  match err with
  | Some e => ret (Some e)
  | None =>
      if bool_decide (strategy md ≠ "immediate") && negb (skipHealthChecks md) then
        WaitForHealthchecksToPass fuel m ctx (waitTimeout md)
      else ret None
  end.

(** [md.createOneMachine(ctx)]. *)
Definition createOneMachine (fuel : nat) (md : machineDeployment) (ctx : Ctx)
    : M (option error * machineDeployment) :=
  log Stdout "No machines in %s app, launching one new machine" None ;;;
  launchInput0 <- resolveUpdatedMachineConfig md MachineProcessGroupReleaseCommand None ;;
  let md := res_md launchInput0 in
  r <- Launch_call ctx (launchInput launchInput0) ;;
  match r with
  | inl err => ret (Some (Errorf_w "error creating a new machine machine: " err), md)
  | inr newMachineRaw =>
      let newMachine := NewLeasableMachine newMachineRaw in
      log Stderr "No machines in %s app, launching one new machine" None ;;;
      err <- waitForMachine fuel md ctx newMachine ;;
      match err with
      | Some e => ret (Some e, md)
      | None =>
          log Stderr "  Finished deploying" None ;;;
          ret (None, md)
      end
  end.

(** One iteration of the loop of [DeployMachinesApp] over the machines. *)
Definition updateMachine (fuel : nat) (md : machineDeployment) (ctx : Ctx)
    (m : leasableMachine) : M (option error * machineDeployment * leasableMachine) :=
  launchInput0 <- resolveUpdatedMachineConfig md MachineProcessGroupApp (Some (machine m)) ;;
  let md := res_md launchInput0 in
  let m := set_machine (res_orig launchInput0) m in
  log Stderr "  Updating %s" None ;;;
  u <- Update m ctx (launchInput launchInput0) ;;
  let m := u.2 in
  match u.1 with
  | Some e =>
      if bool_decide (strategy md ≠ "immediate") then ret (Some e, md, m)
      else
        log Stdout "Continuing after error: %s" (Some e) ;;;
        err <- waitForMachine fuel md ctx m ;;
        ret (err, md, m)
  | None =>
      err <- waitForMachine fuel md ctx m ;;
      ret (err, md, m)
  end.

(** The loop over [md.machineSet.GetMachines()], in the order of the slice. *)
Fixpoint updateMachines (fuel : nat) (md : machineDeployment) (ctx : Ctx)
    (todo : list leasableMachine)
    : M (option error * machineDeployment * list leasableMachine) :=
  match todo with
  | [] => ret (None, md, [])
  | m :: rest =>
      r <- updateMachine fuel md ctx m ;;
      match r.1.1 with
      | Some e => ret (Some e, r.1.2, r.2 :: rest)
      | None =>
          r' <- updateMachines fuel r.1.2 ctx rest ;;
          ret (r'.1.1, r'.1.2, r.2 :: r'.2)
      end
  end.

(** [md.DeployMachinesApp(ctx)].  The deferred [ReleaseLeases] runs after the
    body, on the machine set as the body left it. *)
Definition DeployMachinesApp (fuel : nat) (md : machineDeployment) (ctx : Ctx)
    : M (option error * machineDeployment) :=
  r <- runReleaseCommand fuel md ctx ;;
  let md := r.2 in
  match r.1 with
  | Some e =>
      ret (Some (Errorf_w "release command failed - aborting deployment. " e), md)
  | None =>
      if IsEmpty (machineSet_ md) then createOneMachine fuel md ctx
      else
        a <- AcquireLeases (machineSet_ md) ctx (leaseTimeout md) ;;
        let md := with_machineSet md a.2 in
        body <- match a.1 with
                | Some e => ret (Some e, md)
                | None =>
                    log Stdout "Deploying %s app with %s strategy" None ;;;
                    l <- updateMachines fuel md ctx (GetMachines (machineSet_ md)) ;;
                    let md := with_machineSet l.1.2 {| machines := l.2 |} in
                    match l.1.1 with
                    | Some e => ret (Some e, md)
                    | None =>
                        log Stderr "  Finished deploying" None ;;;
                        ret (None, md)
                    end
                end ;;
        rel <- ReleaseLeases (machineSet_ body.2) ctx ;;
        match rel.1 with
         | Some e => log Warn "error releasing leases on machines: %v" (Some e)
         | None => ret tt
         end ;;;
        ret (body.1, with_machineSet body.2 rel.2)
  end.

End Deploy.

(** ** Notions used in the statements *)

(** The trace after [n] more polls of a machine that each found it not ready
    and slept, the backoff being at its [attempt]-th duration. *)
Fixpoint polled (waitCtx : Ctx) (id : string) (b : Backoff) (attempt n : nat)
    (tr : Trace) : Trace :=
  match n with
  | O => tr
  | S n' =>
      polled waitCtx id b (S attempt) n'
        (tr ++ [Ev_Call (Call_Get waitCtx id); Ev_Sleep b attempt])
  end.

(** Whether a request changes the machine [id] or takes its lease. *)
Definition mutates (id : string) (c : Call) : Prop :=
  match c with
  | Call_Update _ input _ => liID input = id
  | Call_AcquireLease _ id' _ => id' = id
  | _ => False
  end.

(** The identifiers of the machines of a set. *)
Definition machine_ids (ms : machineSet) : list string :=
  (fun m => ID (machine m)) <$> machines ms.

(** [issues Q R m]: whatever the trace before, the run [m] only appends to
    it, every request it issues satisfies [Q], and a value it returns
    satisfies [R]. *)
Definition call_ok (Q : Call -> Prop) (e : Event) : Prop :=
  match e with
  | Ev_Call c => Q c
  | _ => True
  end.

Definition issues {A} (Q : Call -> Prop) (R : A -> Prop) (m : M A) : Prop :=
  forall tr : Trace,
    exists new : Trace,
      (m tr).2 = tr ++ new /\ Forall (call_ok Q) new
      /\ forall a, (m tr).1 = Done a -> R a.

(** What the release-command phase may ask of the control plane: no launch,
    updates of the machine [id0] only, leases on the machines [ids] only. *)
Definition release_phase_call (id0 : string) (ids : list string) (c : Call) : Prop :=
  match c with
  | Call_Update _ input _ => liID input = id0
  | Call_AcquireLease _ id _ => id ∈ ids
  | Call_Launch _ _ => False
  | _ => True
  end.

(** The value a run returned, [d] when it did not return. *)
Definition returned {A} (d : A) (r : Res A * Trace) : A :=
  match r.1 with
  | Done a => a
  | _ => d
  end.

(** The machines the update requests of a trace address, in order. *)
Definition updated_ids (tr : Trace) : list string :=
  omap (fun c => match c with
                 | Call_Update _ input _ => Some (liID input)
                 | _ => None
                 end) (calls tr).

(** ** Sample worlds and deployments *)

Definition sample_config : MachineConfig :=
  {| Env := Some {[ "PRIMARY_REGION" := "ams" ]};
     Init_Cmd := Some ["/bin/server"];
     Image := "registry.fly.io/sample:1";
     Metadata := Some {[ "team" := "web" ]};
     Mounts := None;
     Restart := MachineRestartPolicyAlways;
     Services := Some [ {| svcProtocol := "tcp"; svcInternalPort := 8080 |} ];
     Checks := Some {[ "alive" := {| chkType := "tcp"; chkInterval := 10 * Second |} ]};
     Metrics := None;
     Guest := Some {| CPUKind := "shared"; CPUs := 1; MemoryMB := 256 |} |}.

Definition sample_machine (id : string) : Machine :=
  {| ID := id; Region := "ams"; State := "started"; Config := sample_config;
     mChecks := [ {| csName := "alive"; csStatus := Passing |} ];
     Events := [] |}.

(** A machine whose map of checks is there but empty: no check is
    configured. *)
Definition unchecked_machine (id : string) : Machine :=
  {| ID := id; Region := "ams"; State := "started";
     Config := set_Checks (Some ∅) sample_config;
     mChecks := []; Events := [] |}.

(** A machine whose check is still failing. *)
Definition unhealthy_machine (id : string) : Machine :=
  {| ID := id; Region := "ams"; State := "started"; Config := sample_config;
     mChecks := [ {| csName := "alive"; csStatus := Critical |} ];
     Events := [] |}.

(** A release-command machine that ran and exited with the given code. *)
Definition exited_machine (id : string) (code : Z) : Machine :=
  {| ID := id; Region := "ams"; State := "stopped"; Config := sample_config;
     mChecks := [];
     Events := [ {| evType := "exit"; evTimestamp := 30; evExitCode := Some code |};
                 {| evType := "start"; evTimestamp := 20; evExitCode := None |};
                 {| evType := "launch"; evTimestamp := 10; evExitCode := None |} ] |}.

Definition granted (id : string) : MachineLease :=
  {| lsStatus := "success"; lsCode := ""; lsMessage := "";
     lsData := Some {| Nonce := "nonce-" +:+ id; ExpiresAt := 2000 |} |}.

(** The clock shows second 1000 and every request succeeds: leases are
    granted until second 2000, updates return the machine unchanged. *)
Definition calm : World :=
  {| flaps_Update := fun _ _ input _ => inr (sample_machine (liID input));
     flaps_Launch := fun _ _ input => inr (sample_machine "fresh");
     flaps_Get := fun _ _ id => inr (sample_machine id);
     flaps_Wait := fun _ _ _ _ _ => None;
     flaps_AcquireLease := fun _ _ id _ => inr (granted id);
     flaps_ReleaseLease := fun _ _ _ _ => None;
     time_Now := fun _ => time_Unix 1000;
     ctx_Err := fun _ _ => None;
     sched := fun _ _ => 0%nat |}.

(** As [calm], but releasing a lease fails. *)
Definition release_fails : World :=
  {| flaps_Update := flaps_Update calm;
     flaps_Launch := flaps_Launch calm;
     flaps_Get := flaps_Get calm;
     flaps_Wait := flaps_Wait calm;
     flaps_AcquireLease := flaps_AcquireLease calm;
     flaps_ReleaseLease := fun _ _ _ _ => Some (FlapsError false "lease not found");
     time_Now := time_Now calm;
     ctx_Err := ctx_Err calm;
     sched := sched calm |}.

Definition leased (id : string) : leasableMachine :=
  {| machine := sample_machine id;
     leaseNonce := "nonce-" +:+ id;
     leaseExpiration := time_Unix 2000 |}.

(** A lease that ran out at second 900, a hundred seconds before [calm]'s
    clock. *)
Definition stale (id : string) : leasableMachine :=
  {| machine := sample_machine id;
     leaseNonce := "nonce-" +:+ id;
     leaseExpiration := time_Unix 900 |}.

Definition sample_input (id : string) : LaunchMachineInput :=
  {| liID := id; liAppID := "sample"; liOrgSlug := "personal"; liRegion := "ams";
     liConfig := sample_config |}.

(** As [calm], but the first fetch of a machine fails with an error the
    client marks as worth retrying; every later fetch finds the machine with
    its check passing. *)
Definition first_get_fails : World :=
  {| flaps_Update := flaps_Update calm;
     flaps_Launch := flaps_Launch calm;
     flaps_Get := fun tr _ id =>
       match calls tr with
       | [] => inl (FlapsError true "503 Service Unavailable")
       | _ => inr (sample_machine id)
       end;
     flaps_Wait := flaps_Wait calm;
     flaps_AcquireLease := flaps_AcquireLease calm;
     flaps_ReleaseLease := flaps_ReleaseLease calm;
     time_Now := time_Now calm;
     ctx_Err := ctx_Err calm;
     sched := sched calm |}.

(** The same failure of the first [Get], the machine being one with an empty
    map of checks. *)
Definition unchecked_get_fails : World :=
  {| flaps_Update := flaps_Update calm;
     flaps_Launch := flaps_Launch calm;
     flaps_Get := fun tr _ id =>
       match calls tr with
       | [] => inl (FlapsError true "503 Service Unavailable")
       | _ => inr (unchecked_machine id)
       end;
     flaps_Wait := flaps_Wait calm;
     flaps_AcquireLease := flaps_AcquireLease calm;
     flaps_ReleaseLease := flaps_ReleaseLease calm;
     time_Now := time_Now calm;
     ctx_Err := ctx_Err calm;
     sched := sched calm |}.

(** As [calm], but the first two fetches find the check failing. *)
Definition slow_start : World :=
  {| flaps_Update := flaps_Update calm;
     flaps_Launch := flaps_Launch calm;
     flaps_Get := fun tr _ id =>
       if bool_decide (length (calls tr) < 2)%nat then inr (unhealthy_machine id)
       else inr (sample_machine id);
     flaps_Wait := flaps_Wait calm;
     flaps_AcquireLease := flaps_AcquireLease calm;
     flaps_ReleaseLease := flaps_ReleaseLease calm;
     time_Now := time_Now calm;
     ctx_Err := ctx_Err calm;
     sched := sched calm |}.

Definition sample_keys : ApiConstants :=
  {| MachineConfigMetadataKeyFlyPlatformVersion := "fly_platform_version";
     MachineConfigMetadataKeyFlyReleaseId := "fly_release_id";
     MachineConfigMetadataKeyFlyReleaseVersion := "fly_release_version";
     MachineConfigMetadataKeyProcessGroup := "fly_process_group";
     MachineConfigMetadataKeyFlyManagedPostgres := "fly-managed-postgres";
     MachineFlyPlatformVersion2 := "v2" |}.

(** A deployment of three machines with a release command and its machine. *)
Definition sample_deployment (strat : string) : machineDeployment :=
  {| app := {| Name := "sample"; Organization_ID := "personal"; IsPostgresApp := false |};
     appConfig := {| AppName := "sample"; PrimaryRegion := "ams";
                     cfgEnv := Some ∅; cfgMetrics := None |};
     img := {| Tag := "registry.fly.io/sample:2" |};
     machineSet_ := NewMachineSet [sample_machine "m1"; sample_machine "m2";
                                   sample_machine "m3"];
     releaseCommandMachine := NewMachineSet [sample_machine "rc"];
     releaseCommand := "bin/rails db:migrate";
     volumeName := ""; volumeDestination := "";
     appChecksForMachines := Some ∅;
     appServicesForMachines := Some [];
     strategy := strat;
     releaseId := "rel-1"; releaseVersion := 2;
     skipHealthChecks := false; restartOnly := false;
     waitTimeout := 120 * Second; leaseTimeout := 30 * Minute |}.

(** The same in restart-only mode. *)
Definition restart_deployment : machineDeployment :=
  {| app := app (sample_deployment "rolling");
     appConfig := appConfig (sample_deployment "rolling");
     img := {| Tag := "" |};
     machineSet_ := machineSet_ (sample_deployment "rolling");
     releaseCommandMachine := releaseCommandMachine (sample_deployment "rolling");
     releaseCommand := releaseCommand (sample_deployment "rolling");
     volumeName := ""; volumeDestination := "";
     appChecksForMachines := Some ∅;
     appServicesForMachines := Some [];
     strategy := "rolling";
     releaseId := "rel-1"; releaseVersion := 2;
     skipHealthChecks := false; restartOnly := true;
     waitTimeout := 120 * Second; leaseTimeout := 30 * Minute |}.

(** A first deployment: a release command is configured, no machine exists. *)
Definition first_deployment : machineDeployment :=
  with_releaseCommandMachine
    (with_machineSet (sample_deployment "rolling") (NewMachineSet []))
    (NewMachineSet []).

(** A first deployment without a release command. *)
Definition bare_deployment : machineDeployment :=
  {| app := app first_deployment; appConfig := appConfig first_deployment;
     img := img first_deployment;
     machineSet_ := NewMachineSet []; releaseCommandMachine := NewMachineSet [];
     releaseCommand := "";
     volumeName := ""; volumeDestination := "";
     appChecksForMachines := Some ∅;
     appServicesForMachines := Some [];
     strategy := "rolling";
     releaseId := "rel-1"; releaseVersion := 2;
     skipHealthChecks := false; restartOnly := false;
     waitTimeout := 120 * Second; leaseTimeout := 30 * Minute |}.

(** As [calm], but the release-command machine is found exited with
    status 7. *)
Definition release_exits_7 : World :=
  {| flaps_Update := flaps_Update calm;
     flaps_Launch := flaps_Launch calm;
     flaps_Get := fun _ _ id => inr (exited_machine id 7);
     flaps_Wait := flaps_Wait calm;
     flaps_AcquireLease := flaps_AcquireLease calm;
     flaps_ReleaseLease := flaps_ReleaseLease calm;
     time_Now := time_Now calm;
     ctx_Err := ctx_Err calm;
     sched := sched calm |}.

(** As [calm], but the update of machine ["m2"] is refused. *)
Definition update_m2_fails : World :=
  {| flaps_Update := fun _ _ input _ =>
       if bool_decide (liID input = "m2") then inl (FlapsError false "422 invalid config")
       else inr (sample_machine (liID input));
     flaps_Launch := flaps_Launch calm;
     flaps_Get := flaps_Get calm;
     flaps_Wait := flaps_Wait calm;
     flaps_AcquireLease := flaps_AcquireLease calm;
     flaps_ReleaseLease := flaps_ReleaseLease calm;
     time_Now := time_Now calm;
     ctx_Err := ctx_Err calm;
     sched := sched calm |}.

(** As [calm], but the lease on machine ["m2"] is held by someone else, and
    the scheduler runs the last ready goroutine first. *)
Definition lease_m2_taken : World :=
  {| flaps_Update := flaps_Update calm;
     flaps_Launch := flaps_Launch calm;
     flaps_Get := flaps_Get calm;
     flaps_Wait := flaps_Wait calm;
     flaps_AcquireLease := fun _ _ id _ =>
       if bool_decide (id = "m2") then
         inr {| lsStatus := "error"; lsCode := "lease_held"; lsMessage := "held by another";
                lsData := None |}
       else inr (granted id);
     flaps_ReleaseLease := flaps_ReleaseLease calm;
     time_Now := time_Now calm;
     ctx_Err := ctx_Err calm;
     sched := fun _ n => (n - 1)%nat |}.

(** The sample deployment without a release command. *)
Definition plain_deployment (strat : string) : machineDeployment :=
  {| app := app (sample_deployment strat);
     appConfig := appConfig (sample_deployment strat);
     img := img (sample_deployment strat);
     machineSet_ := machineSet_ (sample_deployment strat);
     releaseCommandMachine := NewMachineSet [];
     releaseCommand := "";
     volumeName := ""; volumeDestination := "";
     appChecksForMachines := Some ∅;
     appServicesForMachines := Some [];
     strategy := strat;
     releaseId := "rel-1"; releaseVersion := 2;
     skipHealthChecks := false; restartOnly := false;
     waitTimeout := 120 * Second; leaseTimeout := 30 * Minute |}.


(** ** The volume check of a deployment *)

(** The body of the loop of [validateVolumeConfig] for one machine; the
    length of a nil slice is zero. *)
Definition validateMachineVolume (md : machineDeployment) (m : leasableMachine)
    : option error :=
  let mid := ID (machine m) in
  let mountsConfig := default [] (Mounts (Config (machine m))) in
  if bool_decide (1 < length mountsConfig)%nat then
    Some (Errorf ("error machine " +:+ mid +:+ " has " +:+ pretty (length mountsConfig)
                  +:+ " mounts and expected 1"))
  else if bool_decide (volumeName md = "") then
    if bool_decide (length mountsConfig ≠ 0%nat) then
      Some (Errorf ("error machine " +:+ mid +:+ " has a volume mounted and app config does not specify a volume; remove the volume from the machine or add a [mounts] configuration to fly.toml"))
    else None
  else
    match mountsConfig with
    | [] =>
        Some (Errorf ("error machine " +:+ mid +:+ " does not have a volume configured and fly.toml expects one with name " +:+ volumeName md +:+ "; remove the [mounts] configuration in fly.toml or use the machines API to add a volume to this machine"))
    | mount0 :: _ =>
        let mVolName := mntName mount0 in
        if bool_decide (volumeName md ≠ mVolName) then
          Some (Errorf ("error machine " +:+ mid +:+ " has volume with name " +:+ mVolName
                        +:+ " and fly.toml has [mounts] source set to " +:+ volumeName md
                        +:+ "; update the source to " +:+ mVolName
                        +:+ " or use the machines API to attach a volume with name "
                        +:+ volumeName md +:+ " to this machine"))
        else None
    end.

Fixpoint validateVolumeConfig_loop (md : machineDeployment) (ms : list leasableMachine)
    : option error :=
  match ms with
  | [] => None
  | m :: rest =>
      match validateMachineVolume md m with
      | Some e => Some e
      | None => validateVolumeConfig_loop md rest
      end
  end.

(** [md.validateVolumeConfig()]. *)
Definition validateVolumeConfig (md : machineDeployment) : option error :=
  if IsEmpty (machineSet_ md) then None
  else validateVolumeConfig_loop md (GetMachines (machineSet_ md)).

(** ** More notions used in the statements *)

(** What fly.toml says of volumes holds of a machine: no mount when no
    volume is named, else exactly one mount, of a volume with that name. *)
Definition volume_ok (md : machineDeployment) (m : leasableMachine) : Prop :=
  match default [] (Mounts (Config (machine m))) with
  | [] => volumeName md = ""
  | [mount] => volumeName md ≠ "" /\ mntName mount = volumeName md
  | _ => False
  end.

(** A machine without a lease, as [resetLease] leaves it. *)
Definition no_lease (lm : leasableMachine) : Prop :=
  leaseNonce lm = "" /\ leaseExpiration lm = time_zero.

(** [strings.Join(words, " ")]. *)
Fixpoint strings_Join_space (words : list string) : string :=
  match words with
  | [] => ""
  | w :: rest =>
      match rest with
      | [] => w
      | _ => w +:+ " " +:+ strings_Join_space rest
      end
  end.

(** Whether a string has no space in it. *)
Fixpoint no_space (s : string) : bool :=
  match s with
  | EmptyString => true
  | String c s' => negb (bool_decide (String c "" = " ")) && no_space s'
  end.

(** The trace after [n] more calls of the wait primitive that each failed
    and were followed by a sleep. *)
Fixpoint waited (waitCtx : Ctx) (m : Machine) (state : string) (timeout : Duration)
    (b : Backoff) (attempt n : nat) (tr : Trace) : Trace :=
  match n with
  | O => tr
  | S n' =>
      waited waitCtx m state timeout b (S attempt) n'
        (tr ++ [Ev_Call (Call_Wait waitCtx m state timeout); Ev_Sleep b attempt])
  end.

(** The backoff of [WaitForState] and [WaitForEventTypeAfterType]. *)
Definition stateBackoff : Backoff :=
  {| Min := 500 * Millisecond; Max := 2 * Second; Factor := 2; Jitter := true |}.

(** An update request. *)
Definition is_Update (c : Call) : Prop :=
  match c with Call_Update _ _ _ => True | _ => False end.

(** What the loop over the machines may ask of the control plane, for a
    deployment with the strategy [strat] and the health checks skipped or
    not: updates of the machines [ids] under the caller's context, waits
    unless the strategy is immediate, fetches unless it is immediate or the
    health checks are skipped; no launch and no lease request. *)
Definition rollout_call (strat : string) (skip : bool) (ctx : Ctx) (ids : list string)
    (c : Call) : Prop :=
  match c with
  | Call_Update ctx' input _ => ctx' = ctx /\ liID input ∈ ids
  | Call_Wait _ _ _ _ => strat ≠ "immediate"
  | Call_Get _ _ => strat ≠ "immediate" /\ skip = false
  | _ => False
  end.

(** What a whole deployment may ask: no launch; updates and lease requests
    only for machines of its two sets. *)
Definition deploy_call (md : machineDeployment) (c : Call) : Prop :=
  match c with
  | Call_Launch _ _ => False
  | Call_Update _ input _ =>
      liID input ∈ machine_ids (releaseCommandMachine md) ++ machine_ids (machineSet_ md)
  | Call_AcquireLease _ id _ =>
      id ∈ machine_ids (releaseCommandMachine md) ++ machine_ids (machineSet_ md)
  | _ => True
  end.

(** What the release-command phase may ask: no launch, and an update only
    with the configuration of a release-command machine: the image of the
    deployment, the release command as the init command, no services, no
    checks, no restart, and RELEASE_COMMAND in the environment. *)
Definition release_update_call (md : machineDeployment) (c : Call) : Prop :=
  match c with
  | Call_Launch _ _ => False
  | Call_Update _ input _ =>
      Image (liConfig input) = Tag (img md)
      /\ Init_Cmd (liConfig input) = Some (strings_Split_space (releaseCommand md))
      /\ Services (liConfig input) = None
      /\ Checks (liConfig input) = None
      /\ Restart (liConfig input) = MachineRestartPolicyNo
      /\ is_Some (default ∅ (Env (liConfig input)) !! "RELEASE_COMMAND")
  | _ => True
  end.


(** ** More sample worlds *)

(** A machine with one volume mounted. *)
Definition mounted_machine (id vol name path : string) : Machine :=
  {| ID := id; Region := "ams"; State := "started";
     Config := set_Mounts (Some [ {| Volume := vol; Path := path; mntName := name |} ])
                 sample_config;
     mChecks := []; Events := [] |}.

(** A deployment of two machines that each mount a volume named "data",
    to be mounted at /data. *)
Definition volume_deployment : machineDeployment :=
  {| app := app (sample_deployment "rolling");
     appConfig := {| AppName := "sample"; PrimaryRegion := "";
                     cfgEnv := Some {[ "RAILS_ENV" := "production" ]};
                     cfgMetrics := None |};
     img := img (sample_deployment "rolling");
     machineSet_ := NewMachineSet [mounted_machine "m1" "vol_1" "data" "/old";
                                   mounted_machine "m2" "vol_2" "data" "/data"];
     releaseCommandMachine := NewMachineSet [];
     releaseCommand := "";
     volumeName := "data"; volumeDestination := "/data";
     appChecksForMachines := Some ∅;
     appServicesForMachines := Some [];
     strategy := "rolling";
     releaseId := "rel-1"; releaseVersion := 2;
     skipHealthChecks := false; restartOnly := false;
     waitTimeout := 120 * Second; leaseTimeout := 30 * Minute |}.

(** A machine that records the region it runs in as its primary region. *)
Definition regional_machine (id region : string) : Machine :=
  {| ID := id; Region := region; State := "started";
     Config := set_Env (Some {[ "PRIMARY_REGION" := region ]}) sample_config;
     mChecks := []; Events := [] |}.

(** As [calm], but the wait primitive fails twice before it succeeds. *)
Definition wait_fails_twice : World :=
  {| flaps_Update := flaps_Update calm;
     flaps_Launch := flaps_Launch calm;
     flaps_Get := flaps_Get calm;
     flaps_Wait := fun tr _ _ _ _ =>
       if bool_decide (length (calls tr) < 2)%nat then Some (FlapsError true "408 timeout")
       else None;
     flaps_AcquireLease := flaps_AcquireLease calm;
     flaps_ReleaseLease := flaps_ReleaseLease calm;
     time_Now := time_Now calm;
     ctx_Err := ctx_Err calm;
     sched := sched calm |}.

(** As [calm], but the caller's context is canceled, and releasing a lease
    under the caller's context would fail for that reason. *)
Definition canceled : World :=
  {| flaps_Update := flaps_Update calm;
     flaps_Launch := flaps_Launch calm;
     flaps_Get := flaps_Get calm;
     flaps_Wait := flaps_Wait calm;
     flaps_AcquireLease := flaps_AcquireLease calm;
     flaps_ReleaseLease := fun _ ctx _ _ =>
       match ctx with
       | ctx_caller => Some context_Canceled
       | _ => Some (Errorf_w "request failed: " context_DeadlineExceeded)
       end;
     time_Now := time_Now calm;
     ctx_Err := fun _ ctx => match ctx with ctx_caller => Some context_Canceled | _ => None end;
     sched := sched calm |}.

(** As [calm], but the wait primitive reports that the deadline passed. *)
Definition deadline : World :=
  {| flaps_Update := flaps_Update calm;
     flaps_Launch := flaps_Launch calm;
     flaps_Get := flaps_Get calm;
     flaps_Wait := fun _ _ _ _ _ => Some context_DeadlineExceeded;
     flaps_AcquireLease := flaps_AcquireLease calm;
     flaps_ReleaseLease := flaps_ReleaseLease calm;
     time_Now := time_Now calm;
     ctx_Err := ctx_Err calm;
     sched := sched calm |}.

(** * Properties *)

(** ** The lease of one machine *)

Section LeaseFacts.

Variable world : World.

Lemma calls_app (tr tr' : Trace) : calls (tr ++ tr') = calls tr ++ calls tr'.
Proof. unfold calls. apply omap_app. Qed.

Lemma HasLease_resetLease (lm : leasableMachine) (tr : Trace) :
  HasLease world (resetLease lm) tr = (Done false, tr).
Proof. reflexivity. Qed.

(** [HasLease] reads the clock once, and only when a nonce is recorded. *)
Lemma HasLease_run (lm : leasableMachine) (tr : Trace) :
  HasLease world lm tr =
    if bool_decide (leaseNonce lm ≠ "") then
      (Done (time_After (leaseExpiration lm) (time_Now world tr)),
       tr ++ [Ev_Now (time_Now world tr)])
    else (Done false, tr).
Proof. unfold HasLease. case_bool_decide; reflexivity. Qed.

Lemma HasLease_calls (lm : leasableMachine) (tr : Trace) :
  calls (HasLease world lm tr).2 = calls tr.
Proof.
  rewrite HasLease_run. case_bool_decide; simpl; [|done].
  rewrite calls_app. simpl. by rewrite app_nil_r.
Qed.

Lemma HasLease_true (lm : leasableMachine) (tr tr1 : Trace) :
  HasLease world lm tr = (Done true, tr1) →
  leaseNonce lm ≠ "" ∧ time_Now world tr < leaseExpiration lm
  ∧ tr1 = tr ++ [Ev_Now (time_Now world tr)].
Proof.
  rewrite HasLease_run. case_bool_decide as Hn; [|done].
  intros [= Ht <-]. split; [done|]. split; [|done].
  unfold time_After in Ht. by apply bool_decide_eq_true in Ht.
Qed.

(** The saturation of [Sub] does not change a comparison with five seconds. *)
Lemma time_Sub_gt_5s (t u : Time) : 5 * Second < time_Sub t u ↔ 5 * Second < t - u.
Proof.
  unfold time_Sub, maxInt64, minInt64, Second. cbv zeta.
  repeat case_bool_decide; lia.
Qed.

End LeaseFacts.

(** [ReleaseLease] always returns, and what it leaves is [resetLease]. *)
Lemma ReleaseLease_returns_reset (world : World) (lm : leasableMachine) (ctx : Ctx)
    (tr : Trace) :
  ∃ r tr', ReleaseLease world lm ctx tr = (Done (r, resetLease lm), tr').
Proof.
  unfold ReleaseLease, bind. rewrite HasLease_run.
  case_bool_decide; simpl; [|eauto].
  destruct (time_After _ _); simpl; [|eauto].
  unfold now, ret. case_bool_decide; simpl; [eauto|].
  unfold ReleaseLease_call, log, emit.
  destruct (flaps_ReleaseLease _ _ _ _ _); simpl; eauto.
Qed.

(** C10: whatever branch [ReleaseLease] takes, it returns, and the machine
    it leaves behind has an empty nonce and the zero expiration, so
    [HasLease] is false in every world at every later moment; when the
    release request was issued and failed, the error is returned and the
    lease is cleared all the same. *)
Theorem ReleaseLease_clears_lease (world : World) (lm : leasableMachine) (ctx : Ctx)
    (tr : Trace) :
  ∃ (r : option error) (lm' : leasableMachine) (tr' : Trace),
    ReleaseLease world lm ctx tr = (Done (r, lm'), tr')
    ∧ lm' = resetLease lm
    ∧ leaseNonce lm' = "" ∧ leaseExpiration lm' = time_zero
    ∧ (∀ (w : World) (t : Trace), HasLease w lm' t = (Done false, t))
    ∧ (∀ e, r = Some e →
         ∃ t, flaps_ReleaseLease world t ctx (ID (machine lm)) (leaseNonce lm) = Some e
              ∧ tr' = t ++ [Ev_Call (Call_ReleaseLease ctx (ID (machine lm)) (leaseNonce lm));
                            Ev_Log Warn "failed to release lease for machine %s (expires at %s): %v" (Some e)]).
Proof.
  unfold ReleaseLease, bind. rewrite HasLease_run.
  case_bool_decide as Hn; simpl.
  - destruct (time_After _ _); simpl.
    + unfold now, ret. case_bool_decide; simpl.
      * eexists _, _, _. repeat split; try reflexivity. intros e [=].
      * unfold ReleaseLease_call, log, emit.
        destruct (flaps_ReleaseLease _ _ _ _ _) as [e|] eqn:He; simpl.
        -- eexists _, _, _. repeat split; try reflexivity.
           intros e' [= <-]. eexists. split; [exact He|].
           by rewrite <- !app_assoc.
        -- eexists _, _, _. repeat split; try reflexivity. intros e [=].
    + eexists _, _, _. repeat split; try reflexivity. intros e [=].
  - eexists _, _, _. repeat split; try reflexivity. intros e [=].
Qed.

(** C7: [ReleaseLease] returns success without a request, and clears the
    lease, when no lease is held, and when a clock reading of the call finds
    the recorded expiry more than five seconds in the past; when a nonce is
    recorded and both clock readings find the expiry in the future, it
    issues the release request for that nonce, and when the request fails it
    writes a warning and clears the lease all the same. *)
Theorem ReleaseLease_cases (world : World) (lm : leasableMachine) (ctx : Ctx) (tr : Trace) :
  let t1 := time_Now world tr in
  let t2 := time_Now world (tr ++ [Ev_Now t1]) in
  (∀ tr1, HasLease world lm tr = (Done false, tr1) →
     ReleaseLease world lm ctx tr = (Done (None, resetLease lm), tr1)
     ∧ calls tr1 = calls tr)
  ∧ (leaseExpiration lm + 5 * Second < t1 ∨ leaseExpiration lm + 5 * Second < t2 →
     ∃ tr1, ReleaseLease world lm ctx tr = (Done (None, resetLease lm), tr1)
            ∧ calls tr1 = calls tr)
  ∧ (leaseNonce lm ≠ "" → t1 < leaseExpiration lm → t2 < leaseExpiration lm →
     let tr2 := tr ++ [Ev_Now t1; Ev_Now t2] in
     let release := Ev_Call (Call_ReleaseLease ctx (ID (machine lm)) (leaseNonce lm)) in
     ReleaseLease world lm ctx tr =
       match flaps_ReleaseLease world tr2 ctx (ID (machine lm)) (leaseNonce lm) with
       | None => (Done (None, resetLease lm), tr2 ++ [release])
       | Some e =>
           (Done (Some e, resetLease lm),
            tr2 ++ [release;
                    Ev_Log Warn "failed to release lease for machine %s (expires at %s): %v"
                           (Some e)])
       end).
Proof.
  intros t1 t2. split; [|split].
  - intros tr1 H. unfold ReleaseLease, bind. rewrite H. simpl. split; [done|].
    rewrite <- (HasLease_calls world lm tr). by rewrite H.
  - intros Hexp. unfold ReleaseLease, bind. rewrite HasLease_run.
    case_bool_decide as Hn; simpl; [|eauto].
    unfold time_After. case_bool_decide as Hlt; simpl.
    + unfold now, ret. fold t1 t2. case_bool_decide as H5; simpl.
      * eexists. split; [done|]. rewrite !calls_app. simpl. by rewrite !app_nil_r.
      * exfalso. apply H5. apply time_Sub_gt_5s. fold t1 in Hlt.
        destruct Hexp; unfold Second in *; lia.
    + eexists. split; [done|]. rewrite calls_app. simpl. by rewrite app_nil_r.
  - intros Hn H1 H2. cbv zeta. unfold ReleaseLease, bind. rewrite HasLease_run.
    rewrite bool_decide_eq_true_2 by done. simpl.
    unfold time_After. rewrite bool_decide_eq_true_2 by done. simpl.
    unfold now, ret. fold t1 t2. rewrite bool_decide_eq_false_2.
    2:{ rewrite time_Sub_gt_5s. unfold Second. lia. }
    unfold ReleaseLease_call, log, emit. rewrite <- !app_assoc. simpl.
    destruct (flaps_ReleaseLease _ _ _ _ _); simpl; by rewrite <- ?app_assoc.
Qed.

(** In [calm] the lease of ["m1"] ran out a hundred seconds ago, and the
    lease held until second 2000 is released by a request. *)
Lemma ReleaseLease_cases_witness :
  (∃ tr1, ReleaseLease calm (stale "m1") ctx_caller [] = (Done (None, resetLease (stale "m1")), tr1)
          ∧ calls tr1 = calls [])
  ∧ (ReleaseLease calm (NewLeasableMachine (sample_machine "m1")) ctx_caller []
       = (Done (None, resetLease (NewLeasableMachine (sample_machine "m1"))), [])
     ∧ calls [] = calls [])
  ∧ calls (ReleaseLease release_fails (leased "m1") ctx_caller []).2
      = [Call_ReleaseLease ctx_caller "m1" "nonce-m1"].
Proof.
  split; [|split].
  - apply (ReleaseLease_cases calm (stale "m1") ctx_caller []).
    left. vm_compute. reflexivity.
  - apply (ReleaseLease_cases calm (NewLeasableMachine (sample_machine "m1")) ctx_caller []).
    reflexivity.
  - destruct (ReleaseLease_cases release_fails (leased "m1") ctx_caller []) as (_ & _ & H).
    rewrite H; [reflexivity | done | vm_compute; reflexivity | vm_compute; reflexivity].
Defined.



(** ** The machine set *)

Section Fanout.

Variable world : World.
Variable f : leasableMachine → M (option error * leasableMachine).
Variable P : leasableMachine → leasableMachine → Prop.

(** The method returns, and relates the member after the call to the member
    before it. *)
Hypothesis f_returns : ∀ m tr, ∃ r m' tr', f m tr = (Done (r, m'), tr') ∧ P m m'.

Lemma elem_of_delete_NoDup (k i j : nat) (pending : list nat) :
  NoDup pending → pending !! k = Some i →
  j ∈ delete k pending ↔ j ∈ pending ∧ j ≠ i.
Proof.
  intros Hnd Hk. rewrite delete_take_drop.
  pose proof (take_drop_middle pending k i Hk) as Hmid.
  remember (take k pending) as a eqn:Ha. remember (drop (S k) pending) as b eqn:Hb.
  clear Ha Hb Hk. subst pending.
  apply NoDup_app in Hnd as (_ & Hni & Hnd).
  apply NoDup_cons in Hnd as [Hni' _].
  rewrite !elem_of_app, elem_of_cons. split.
  - intros [H|H]; (split; [tauto|]); intros ->; [|done].
    apply (Hni i H). left.
  - intros [[H|[H|H]] Hne]; tauto.
Qed.

(** Each goroutine runs once, whatever order the scheduler picks: when the
    fan-out is over every member has gone through the method. *)
Lemma fanout_run (ms0 : list leasableMachine) (n : nat) :
  ∀ (pending : list nat) (ms : list leasableMachine) (results : list (option error))
    (tr : Trace),
    length pending = n → NoDup pending →
    (∀ i, i ∈ pending → (i < length ms0)%nat) →
    (∀ i m0, ms0 !! i = Some m0 →
       ∃ m, ms !! i = Some m ∧ if decide (i ∈ pending) then m = m0 else P m0 m) →
    length ms = length ms0 →
    ∃ results' ms' tr',
      fanout world f n pending ms results tr = (Done (results', ms'), tr')
      ∧ length ms' = length ms0
      ∧ (∀ i m0, ms0 !! i = Some m0 → ∃ m, ms' !! i = Some m ∧ P m0 m)
      ∧ length results' = (length results + n)%nat.
Proof.
  induction n as [|n IH]; intros pending ms results tr Hlen Hnd Hlt Hinv Hl.
  - apply nil_length_inv in Hlen. subst pending. simpl.
    eexists _, _, _. split; [reflexivity|]. split; [done|]. split; [|lia].
    intros i m0 Hi. destruct (Hinv i m0 Hi) as (m & Hm & HP).
    exists m. split; [done|]. case_decide as Hin; [by apply elem_of_nil in Hin | done].
  - simpl. unfold bind, pick. rewrite Hlen.
    set (k := (sched world tr (S n) mod S n)%nat).
    assert (Hk : (k < length pending)%nat) by (rewrite Hlen; apply Nat.mod_upper_bound; lia).
    destruct (lookup_lt_is_Some_2 pending k Hk) as [i Hi]. rewrite Hi.
    assert (Hin : i ∈ pending) by (eapply list_elem_of_lookup_2; eauto).
    destruct (lookup_lt_is_Some_2 ms0 i (Hlt i Hin)) as [m0 Hm0].
    destruct (Hinv i m0 Hm0) as (m & Hm & Hmeq). rewrite decide_True in Hmeq by done.
    subst m. rewrite Hm.
    destruct (f_returns m0 tr) as (r & m' & tr' & Hf & HP). rewrite Hf. simpl.
    destruct (IH (delete k pending) (<[i:=m']> ms) (results ++ [r]) tr')
      as (results' & ms' & tr'' & Hrun & Hl' & Hall & Hres).
    + rewrite length_delete by eauto. lia.
    + eapply sublist_NoDup; [exact Hnd | apply sublist_delete].
    + intros j Hj. apply Hlt. eapply (elem_of_delete_NoDup k i j pending); eauto.
    + intros j mj Hj. destruct (decide (j = i)) as [->|Hne].
      * exists m'. split.
        -- apply list_lookup_insert_eq. rewrite Hl. eapply lookup_lt_Some; eauto.
        -- rewrite decide_False.
           ++ congruence.
           ++ rewrite (elem_of_delete_NoDup k i i pending) by done. tauto.
      * destruct (Hinv j mj Hj) as (m & Hm' & Hc). exists m. split.
        -- by rewrite list_lookup_insert_ne.
        -- destruct (decide (j ∈ pending)) as [Hjp|Hjp].
           ++ rewrite decide_True; [done|].
              by rewrite (elem_of_delete_NoDup k i j pending).
           ++ rewrite decide_False; [done|].
              rewrite (elem_of_delete_NoDup k i j pending) by done. tauto.
    + by rewrite length_insert.
    + exists results', ms', tr''. split; [done|]. split; [done|]. split; [done|].
      rewrite Hres, length_app. simpl. lia.
Qed.

Lemma fanout_all_run (ms : list leasableMachine) (tr : Trace) :
  ∃ results ms' tr',
    fanout_all world f ms tr = (Done (results, ms'), tr')
    ∧ Forall2 P ms ms'
    ∧ length results = length ms.
Proof.
  destruct (fanout_run ms (length ms) (seq 0 (length ms)) ms [] tr)
    as (results & ms' & tr' & Hrun & Hl & Hall & Hres).
  - apply length_seq.
  - apply NoDup_seq.
  - intros i Hi. apply elem_of_seq in Hi. lia.
  - intros i m0 Hi. exists m0. split; [done|]. rewrite decide_True; [done|].
    apply elem_of_seq. apply lookup_lt_Some in Hi. lia.
  - done.
  - exists results, ms', tr'. split; [done|]. split; [|done].
    apply Forall2_same_length_lookup. split; [done|].
    intros i m0 m Hi Hm. destruct (Hall i m0 Hi) as (m1 & Hm1 & HP). congruence.
Qed.

End Fanout.

Section SetFacts.

Variable world : World.

Lemma ReleaseLease_returns (ctx : Ctx) (m : leasableMachine) (tr : Trace) :
  ∃ r m' tr', ReleaseLease world m ctx tr = (Done (r, m'), tr') ∧ m' = resetLease m.
Proof.
  destruct (ReleaseLease_returns_reset world m ctx tr) as (r & tr' & H). eauto.
Qed.

Lemma AcquireLease_returns (ctx : Ctx) (d : Duration) (m : leasableMachine) (tr : Trace) :
  ∃ r m' tr', AcquireLease world m ctx d tr = (Done (r, m'), tr') ∧ machine m' = machine m.
Proof.
  unfold AcquireLease, bind. rewrite HasLease_run.
  case_bool_decide; simpl.
  - destruct (time_After _ _); simpl; [eauto|].
    unfold AcquireLease_call. destruct (flaps_AcquireLease _ _ _ _ _) as [e|l]; simpl; [eauto|].
    case_bool_decide; simpl; [eauto|]. destruct (lsData l); simpl; eauto.
  - unfold AcquireLease_call. destruct (flaps_AcquireLease _ _ _ _ _) as [e|l]; simpl; [eauto|].
    case_bool_decide; simpl; [eauto|]. destruct (lsData l); simpl; eauto.
Qed.

(** The collecting loop of [AcquireLeases] sets [hadError] exactly when one
    result is an error. *)
Lemma acquireResults_run (results : list (option error)) :
  ∀ (had : bool) (tr : Trace),
    ∃ b tr', acquireResults results had tr = (Done b, tr')
             ∧ (b = true ↔ had = true ∨ ∃ e, Some e ∈ results).
Proof.
  induction results as [|[e|] rest IH]; intros had tr; simpl.
  - exists had, tr. split; [done|]. split; [tauto|].
    intros [?|[e He]]; [done|]. by apply elem_of_nil in He.
  - unfold bind, log, emit. simpl.
    destruct (IH true (tr ++ [Ev_Log Warn "failed to acquire lease: %v" (Some e)]))
      as (b & tr' & -> & Hb).
    exists b, tr'. split; [done|]. split.
    + intros _. right. exists e. left.
    + intros _. apply Hb. by left.
  - destruct (IH had tr) as (b & tr' & -> & Hb). exists b, tr'. split; [done|].
    rewrite Hb. split; (intros [?|[e He]]; [by left|right; exists e]).
    + by right.
    + by apply elem_of_cons in He as [|].
Qed.

Lemma releaseResults_run (was : bool) (results : list (option error)) :
  ∀ (had : bool) (tr : Trace), ∃ b tr', releaseResults was results had tr = (Done b, tr').
Proof.
  induction results as [|err rest IH]; intros had tr; simpl; [eauto|].
  destruct (_ && _); [|apply IH].
  unfold bind, log, emit. simpl. apply IH.
Qed.

(** [ReleaseLeases] returns, and leaves every member without a lease. *)
Lemma ReleaseLeases_run (ms : machineSet) (ctx : Ctx) (tr : Trace) :
  ∃ r ms' tr',
    ReleaseLeases world ms ctx tr = (Done (r, ms'), tr')
    ∧ Forall2 (fun m m' => m' = resetLease m) (machines ms) (machines ms').
Proof.
  assert (Hfan : ∀ ctx' was tr1, ∃ r ms' tr',
            (r0 <- fanout_all world (fun m => ReleaseLease world m ctx') (machines ms) ;;
             hadError <- releaseResults was r0.1 false ;;
             if hadError then
               ret (Some (Errorf "error releasing leases on machines"), {| machines := r0.2 |})
             else ret (None, {| machines := r0.2 |})) tr1 = (Done (r, ms'), tr')
            ∧ Forall2 (fun m m' => m' = resetLease m) (machines ms) (machines ms')).
  { intros ctx' was tr1. unfold bind.
    destruct (fanout_all_run world (fun m => ReleaseLease world m ctx')
                (fun m m' => m' = resetLease m) (ReleaseLease_returns ctx')
                (machines ms) tr1) as (results & ms' & tr2 & -> & Hall & _).
    simpl. destruct (releaseResults_run was results false tr2) as (b & tr3 & ->).
    destruct b; unfold ret; eauto. }
  unfold ReleaseLeases. unfold bind at 1. unfold Err_of.
  set (was := errors_Is_opt _ _). unfold bind at 1.
  destruct was; unfold bind at 1, log, emit, ret; apply Hfan.
Qed.

End SetFacts.

(** ** Waiting for the health checks *)

Section HealthFacts.

Variable world : World.

(** The shortest interval is at most 120 seconds and at most every check's
    interval, and is one of these. *)
Lemma shortestInterval_spec (checks : gmap string MachineCheck) :
  shortestInterval checks ≤ 120 * Second
  ∧ (∀ k c, checks !! k = Some c → shortestInterval checks ≤ chkInterval c)
  ∧ (shortestInterval checks = 120 * Second
     ∨ ∃ k c, checks !! k = Some c ∧ shortestInterval checks = chkInterval c).
Proof.
  unfold shortestInterval.
  apply (map_fold_weak_ind (fun r (m : gmap string MachineCheck) =>
    r ≤ 120 * Second
    ∧ (∀ k c, m !! k = Some c → r ≤ chkInterval c)
    ∧ (r = 120 * Second ∨ ∃ k c, m !! k = Some c ∧ r = chkInterval c))).
  - split; [lia|]. split; [|by left]. intros k c Hk. by rewrite lookup_empty in Hk.
  - intros i x m r Hi (Hle & Hall & Hex). cbv zeta. case_bool_decide as Hlt.
    + split; [lia|]. split.
      * intros k c Hk. destruct (decide (i = k)) as [->|Hne].
        -- rewrite lookup_insert_eq in Hk. by injection Hk as <-.
        -- rewrite lookup_insert_ne in Hk by done. specialize (Hall k c Hk). lia.
      * right. exists i, x. by rewrite lookup_insert_eq.
    + split; [done|]. split.
      * intros k c Hk. destruct (decide (i = k)) as [->|Hne].
        -- rewrite lookup_insert_eq in Hk. injection Hk as <-. lia.
        -- rewrite lookup_insert_ne in Hk by done. by apply (Hall k).
      * destruct Hex as [?|(k & c & Hk & ?)]; [by left|]. right. exists k, c.
        split; [|done]. rewrite lookup_insert_ne; [done|]. intros ->. congruence.
Qed.

Lemma wrap64_small (z : Z) : - 2 ^ 63 ≤ z < 2 ^ 63 → wrap64 z = z.
Proof. intros H. unfold wrap64. rewrite Z.mod_small; lia. Qed.

(** The polling loop, unrolled: after [n] fetches that found a check not
    passing, the next fetch decides. *)
Lemma WaitForHealthchecksToPass_loop_run (lm : leasableMachine) (waitCtx : Ctx)
    (b : Backoff) (n : nat) :
  ∀ (fuel attempt : nat) (tr : Trace),
    (n < fuel)%nat →
    (∀ i, (i < n)%nat →
       ∃ m, flaps_Get world (polled waitCtx (ID (machine lm)) b attempt i tr)
              waitCtx (ID (machine lm)) = inr m
            ∧ AllPassing (Machine_HealthCheckStatus m) = false) →
    let tr_n := polled waitCtx (ID (machine lm)) b attempt n tr in
    WaitForHealthchecksToPass_loop world fuel lm waitCtx b attempt tr =
      match flaps_Get world tr_n waitCtx (ID (machine lm)) with
      | inl e =>
          (Done (Some
             (if errors_Is e context_Canceled then e
              else if errors_Is e context_DeadlineExceeded then
                Errorf_w ("timeout reached waiting for healthchecks to pass for machine "
                          +:+ ID (machine lm) +:+ " ") e
              else Errorf_w ("error getting machine " +:+ ID (machine lm)
                             +:+ " from api: ") e)),
           tr_n ++ [Ev_Call (Call_Get waitCtx (ID (machine lm)))])
      | inr m =>
          if AllPassing (Machine_HealthCheckStatus m) then
            (Done None, tr_n ++ [Ev_Call (Call_Get waitCtx (ID (machine lm)))])
          else
            WaitForHealthchecksToPass_loop world (fuel - S n) lm waitCtx b
              (attempt + S n)
              (polled waitCtx (ID (machine lm)) b attempt (S n) tr)
      end.
Proof.
  induction n as [|n IH]; intros fuel attempt tr Hfuel Hpoll; cbv zeta.
  - destruct fuel as [|fuel]; [lia|]. simpl. unfold bind, Get_call.
    destruct (flaps_Get _ _ _ _) as [e|m]; simpl.
    + by repeat destruct (errors_Is _ _).
    + destruct (AllPassing _); simpl; [done|].
      unfold sleep, emit. simpl. rewrite <- app_assoc. simpl.
      by rewrite Nat.sub_0_r, Nat.add_1_r.
  - destruct fuel as [|fuel]; [lia|].
    destruct (Hpoll 0%nat) as (m0 & Hm0 & Hnot); [lia|]. simpl in Hm0.
    simpl. unfold bind at 1, Get_call. rewrite Hm0, Hnot. simpl.
    unfold bind at 1, sleep, emit. rewrite <- app_assoc. simpl.
    rewrite IH.
    + replace (S attempt + S n)%nat with (attempt + S (S n))%nat by lia. done.
    + lia.
    + intros i Hi. apply (Hpoll (S i)). lia.
Qed.

End HealthFacts.

(** C8, as stated, fails.  The machine [unchecked_machine] has no check
    configured, its map of checks being empty and not nil:
    [WaitForHealthchecksToPass] does not return success at once but fetches
    the machine, and in [unchecked_get_fails], where that first fetch fails
    with an error that is neither a cancellation nor a deadline and that the
    client marks as worth retrying, it fails after that single fetch, though
    the next fetch would have found every check passing.  The machine
    [leased] has one check configured, and in [first_get_fails] the run
    fails in the same way after a single fetch. *)
Lemma WaitForHealthchecksToPass_no_retry :
  (Checks (Config (unchecked_machine "m1")) = Some ∅
   ∧ WaitForHealthchecksToPass unchecked_get_fails 10
       (NewLeasableMachine (unchecked_machine "m1")) ctx_caller (120 * Second) []
     = (Done (Some (Errorf_w "error getting machine m1 from api: "
                             (FlapsError true "503 Service Unavailable"))),
        [Ev_Call (Call_Get (ctx_WithTimeout ctx_caller (120 * Second)) "m1")])
   ∧ ∃ m, flaps_Get unchecked_get_fails
            [Ev_Call (Call_Get (ctx_WithTimeout ctx_caller (120 * Second)) "m1")]
            (ctx_WithTimeout ctx_caller (120 * Second)) "m1" = inr m
          ∧ AllPassing (Machine_HealthCheckStatus m) = true)
  ∧ (Checks (Config (machine (leased "m1")))
       = Some {[ "alive" := {| chkType := "tcp"; chkInterval := 10 * Second |} ]}
     ∧ WaitForHealthchecksToPass first_get_fails 10 (leased "m1") ctx_caller (120 * Second) []
       = (Done (Some (Errorf_w "error getting machine m1 from api: "
                               (FlapsError true "503 Service Unavailable"))),
          [Ev_Call (Call_Get (ctx_WithTimeout ctx_caller (120 * Second)) "m1")])
     ∧ ∃ m, flaps_Get first_get_fails
              [Ev_Call (Call_Get (ctx_WithTimeout ctx_caller (120 * Second)) "m1")]
              (ctx_WithTimeout ctx_caller (120 * Second)) "m1" = inr m
            ∧ AllPassing (Machine_HealthCheckStatus m) = true)
  ∧ errors_Is (FlapsError true "503 Service Unavailable") context_Canceled = false
  ∧ errors_Is (FlapsError true "503 Service Unavailable") context_DeadlineExceeded = false.
Proof.
  split.
  { split; [reflexivity|]. split; [vm_compute; reflexivity|].
    eexists. split; reflexivity. }
  split.
  { split; [reflexivity|]. split; [vm_compute; reflexivity|].
    eexists. split; reflexivity. }
  split; reflexivity.
Qed.

(** C8, amended: [WaitForHealthchecksToPass] returns success at once, with
    no request, when the machine's map of checks is nil.  Otherwise, and
    also when the map is there but empty, it polls the machine with a
    backoff configured from the shortest interval, the least of 120 seconds
    and the configured intervals: jitter is on, the factor is 2, the [Min]
    field is half the shortest interval and the [Max] field is twice it
    (in 64 bits).  What the backoff sleeps given these fields is the
    library's matter and not stated.  It fetches the machine, sleeping after
    every fetch that finds a check not passing, and the first fetch that
    does not is final: success when every check passes, and failure on any
    fetch error, the cancellation as it is, the deadline and every other
    error wrapped.  No fetch error is retried. *)
Theorem WaitForHealthchecksToPass_polls (world : World) (fuel : nat) (lm : leasableMachine)
    (ctx : Ctx) (timeout : Duration) (tr : Trace) :
  match Checks (Config (machine lm)) with
  | None => WaitForHealthchecksToPass world fuel lm ctx timeout tr = (Done None, tr)
  | Some checks =>
      let b := healthcheckBackoff checks in
      let waitCtx := ctx_WithTimeout ctx timeout in
      let id := ID (machine lm) in
      let shortest := shortestInterval checks in
      Jitter b = true ∧ Factor b = 2 ∧ Min b = Z.quot shortest 2
      ∧ Max b = wrap64 (2 * shortest)
      ∧ (- 2 ^ 62 ≤ shortest → Max b = 2 * shortest)
      ∧ shortest ≤ 120 * Second
      ∧ (∀ k c, checks !! k = Some c → shortest ≤ chkInterval c)
      ∧ (shortest = 120 * Second ∨ ∃ k c, checks !! k = Some c ∧ shortest = chkInterval c)
      ∧ ∀ n : nat,
          (n < fuel)%nat →
          (∀ i, (i < n)%nat →
             ∃ m, flaps_Get world (polled waitCtx id b 0 i tr) waitCtx id = inr m
                  ∧ AllPassing (Machine_HealthCheckStatus m) = false) →
          let tr_n := polled waitCtx id b 0 n tr in
          match flaps_Get world tr_n waitCtx id with
          | inl e =>
              WaitForHealthchecksToPass world fuel lm ctx timeout tr =
                (Done (Some
                   (if errors_Is e context_Canceled then e
                    else if errors_Is e context_DeadlineExceeded then
                      Errorf_w ("timeout reached waiting for healthchecks to pass for machine "
                                +:+ id +:+ " ") e
                    else Errorf_w ("error getting machine " +:+ id +:+ " from api: ") e)),
                 tr_n ++ [Ev_Call (Call_Get waitCtx id)])
          | inr m =>
              AllPassing (Machine_HealthCheckStatus m) = true →
              WaitForHealthchecksToPass world fuel lm ctx timeout tr =
                (Done None, tr_n ++ [Ev_Call (Call_Get waitCtx id)])
          end
  end.
Proof.
  unfold WaitForHealthchecksToPass.
  destruct (Checks (Config (machine lm))) as [checks|]; [|done].
  cbv zeta.
  destruct (shortestInterval_spec checks) as (Hle & Hall & Hex).
  split; [done|]. split; [done|]. split; [done|]. split; [done|]. split.
  { intros Hlow. simpl. apply wrap64_small. unfold Second in Hle. lia. }
  split; [done|]. split; [done|]. split; [done|].
  intros n Hn Hpoll.
  rewrite (WaitForHealthchecksToPass_loop_run world lm _ _ n fuel 0 tr Hn Hpoll).
  cbv zeta. destruct (flaps_Get _ _ _ _) as [e|m]; [done|].
  by intros ->.
Qed.

(** In [slow_start] two fetches find the check failing and the third finds
    it passing. *)
Lemma WaitForHealthchecksToPass_polls_witness :
  WaitForHealthchecksToPass slow_start 5 (leased "m1") ctx_caller (120 * Second) []
    = (Done None,
       polled (ctx_WithTimeout ctx_caller (120 * Second)) "m1"
         (healthcheckBackoff {[ "alive" := {| chkType := "tcp"; chkInterval := 10 * Second |} ]})
         0 2 []
       ++ [Ev_Call (Call_Get (ctx_WithTimeout ctx_caller (120 * Second)) "m1")]).
Proof.
  pose proof (WaitForHealthchecksToPass_polls slow_start 5 (leased "m1") ctx_caller
                (120 * Second) []) as H.
  simpl in H. destruct H as (_ & _ & _ & _ & _ & _ & _ & _ & H).
  specialize (H 2%nat). simpl in H. apply H.
  - lia.
  - intros i Hi. destruct i as [|[|i]]; [| |lia]; eexists; split; reflexivity.
  - reflexivity.
Defined.

(** ** The resolved configuration *)

Section ResolveFacts.

Variable K : ApiConstants.

Lemma isFlyAppsPlatformMetadata_default (md : machineDeployment) (pg : string) :
  map_Forall (fun k _ => isFlyAppsPlatformMetadata K k = true) (defaultMachineMetadata K md pg).
Proof.
  assert (Hkey : ∀ k,
    k = MachineConfigMetadataKeyFlyPlatformVersion K
    ∨ k = MachineConfigMetadataKeyFlyReleaseId K
    ∨ k = MachineConfigMetadataKeyFlyReleaseVersion K
    ∨ k = MachineConfigMetadataKeyProcessGroup K
    ∨ k = MachineConfigMetadataKeyFlyManagedPostgres K →
    isFlyAppsPlatformMetadata K k = true).
  { intros k Hk. unfold isFlyAppsPlatformMetadata.
    repeat case_bool_decide; simpl; try reflexivity. tauto. }
  unfold defaultMachineMetadata. destruct (IsPostgresApp (app md)).
  - apply map_Forall_insert_2; [apply Hkey; tauto|].
    apply map_Forall_insert_2; [apply Hkey; tauto|].
    apply map_Forall_insert_2; [apply Hkey; tauto|].
    apply map_Forall_insert_2; [apply Hkey; tauto|].
    apply map_Forall_insert_2; [apply Hkey; tauto|].
    apply map_Forall_empty.
  - apply map_Forall_insert_2; [apply Hkey; tauto|].
    apply map_Forall_insert_2; [apply Hkey; tauto|].
    apply map_Forall_insert_2; [apply Hkey; tauto|].
    apply map_Forall_insert_2; [apply Hkey; tauto|].
    apply map_Forall_empty.
Qed.

(** Copying the user metadata of the default metadata adds nothing. *)
Lemma copyUserMetadata_default (md : machineDeployment) (pg : string) :
  copyUserMetadata K (defaultMachineMetadata K md pg) (defaultMachineMetadata K md pg)
  = defaultMachineMetadata K md pg.
Proof.
  unfold copyUserMetadata. rewrite map_empty_filter_2; [by rewrite (left_id_L ∅ (∪))|].
  intros k v Hk. simpl. rewrite (isFlyAppsPlatformMetadata_default md pg k v Hk). done.
Qed.

End ResolveFacts.

(** C9: in restart-only mode [resolveUpdatedMachineConfig] returns, for
    every machine, a launch input whose configuration is the machine's own
    with the metadata replaced by the default metadata: image, init command,
    checks, services, metrics, environment, mounts, guest and restart policy
    are the original's.  It writes nothing and leaves the deployment as it
    was. *)
Theorem resolveUpdatedMachineConfig_restartOnly (K : ApiConstants) (md : machineDeployment)
    (processGroup : string) (orig : Machine) (tr : Trace) :
  restartOnly md = true →
  ∃ r : resolved,
    resolveUpdatedMachineConfig K md processGroup (Some orig) tr = (Done r, tr)
    ∧ liConfig (launchInput r)
      = set_Metadata (Some (defaultMachineMetadata K md processGroup)) (Config orig)
    ∧ Image (liConfig (launchInput r)) = Image (Config orig)
    ∧ Init_Cmd (liConfig (launchInput r)) = Init_Cmd (Config orig)
    ∧ Checks (liConfig (launchInput r)) = Checks (Config orig)
    ∧ Services (liConfig (launchInput r)) = Services (Config orig)
    ∧ Metrics (liConfig (launchInput r)) = Metrics (Config orig)
    ∧ Env (liConfig (launchInput r)) = Env (Config orig)
    ∧ Mounts (liConfig (launchInput r)) = Mounts (Config orig)
    ∧ Guest (liConfig (launchInput r)) = Guest (Config orig)
    ∧ Restart (liConfig (launchInput r)) = Restart (Config orig)
    ∧ res_md r = md.
Proof.
  intros Hro. unfold resolveUpdatedMachineConfig. rewrite Hro. simpl.
  rewrite copyUserMetadata_default.
  eexists. split; [reflexivity|]. simpl. repeat split.
Qed.

(** The overrides of the release command, on an input whose environment is
    not nil: the command is the release command split at its spaces, services
    and checks are nil, the restart policy is no restart, the environment
    has the key RELEASE_COMMAND (set to "1" unless it was there), and the
    region is the primary region when there is one. *)
Lemma configureLaunchInputForReleaseCommand_overrides (r : resolved)
    (e : gmap string string) (tr : Trace) :
  Env (liConfig (launchInput r)) = Some e →
  ∃ r', configureLaunchInputForReleaseCommand r tr = (Done r', tr)
        ∧ Init_Cmd (liConfig (launchInput r'))
          = Some (strings_Split_space (releaseCommand (res_md r)))
        ∧ Services (liConfig (launchInput r')) = None
        ∧ Checks (liConfig (launchInput r')) = None
        ∧ Restart (liConfig (launchInput r')) = MachineRestartPolicyNo
        ∧ Env (liConfig (launchInput r'))
          = Some (match e !! "RELEASE_COMMAND" with
                  | Some _ => e
                  | None => <["RELEASE_COMMAND" := "1"]> e
                  end)
        ∧ liRegion (launchInput r')
          = (if bool_decide (PrimaryRegion (appConfig (res_md r)) ≠ "")
             then PrimaryRegion (appConfig (res_md r))
             else liRegion (launchInput r))
        ∧ Image (liConfig (launchInput r')) = Image (liConfig (launchInput r)).
Proof.
  intros He. unfold configureLaunchInputForReleaseCommand. cbv zeta. simpl.
  rewrite He. simpl. unfold bind.
  destruct (e !! "RELEASE_COMMAND") as [v|]; simpl;
    (eexists; split; [reflexivity|]); simpl; by repeat split.
Qed.

(** ** What a run may ask of the control plane *)

Section Issues.

Variable Q : Call → Prop.

Lemma issues_ret {A} (R : A → Prop) (a : A) : R a → issues Q R (ret a).
Proof.
  intros HR tr. exists []. simpl. rewrite app_nil_r.
  split; [done|]. split; [constructor|]. by intros a' [= <-].
Qed.

Lemma issues_panic {A} (R : A → Prop) (msg : string) : issues Q R (panic msg).
Proof. intros tr. exists []. simpl. rewrite app_nil_r. by repeat split. Qed.

Lemma issues_out_of_fuel {A} (R : A → Prop) : issues Q R out_of_fuel.
Proof. intros tr. exists []. simpl. rewrite app_nil_r. by repeat split. Qed.

Lemma issues_bind {A B} (R1 : A → Prop) (R : B → Prop) (m : M A) (k : A → M B) :
  issues Q R1 m → (∀ a, R1 a → issues Q R (k a)) → issues Q R (bind m k).
Proof.
  intros Hm Hk tr. destruct (Hm tr) as (new1 & Htr & Hok & Hr).
  unfold bind. destruct (m tr) as [[a| |] tr1]; simpl in *; subst tr1.
  - destruct (Hk a (Hr a eq_refl) (tr ++ new1)) as (new2 & Htr2 & Hok2 & Hr2).
    exists (new1 ++ new2). rewrite Htr2, app_assoc. split; [done|].
    split; [by apply Forall_app|]. done.
  - exists new1. by repeat split.
  - exists new1. by repeat split.
Qed.

Lemma issues_weaken {A} (R R' : A → Prop) (m : M A) :
  (∀ a, R a → R' a) → issues Q R m → issues Q R' m.
Proof.
  intros HR Hm tr. destruct (Hm tr) as (new & ? & ? & Hr).
  exists new. split; [done|]. split; [done|]. intros a Ha. apply HR, Hr, Ha.
Qed.

Lemma issues_emit (e : Event) : call_ok Q e → issues Q (fun _ => True) (emit e).
Proof. intros He tr. exists [e]. simpl. split; [done|]. split; [by constructor|done]. Qed.

Lemma issues_log (level : LogLevel) (format : string) (err : option error) :
  issues Q (fun _ => True) (log level format err).
Proof. by apply issues_emit. Qed.

Lemma issues_sleep (b : Backoff) (attempt : nat) : issues Q (fun _ => True) (sleep b attempt).
Proof. by apply issues_emit. Qed.

Variable world : World.

Lemma issues_now : issues Q (fun _ => True) (now world).
Proof. intros tr. eexists [_]. simpl. split; [done|]. split; [by constructor|done]. Qed.

Lemma issues_Err_of (ctx : Ctx) : issues Q (fun _ => True) (Err_of world ctx).
Proof. intros tr. eexists [_]. simpl. split; [done|]. split; [by constructor|done]. Qed.

Lemma issues_pick (n : nat) : issues Q (fun _ => True) (pick world n).
Proof. intros tr. exists []. simpl. rewrite app_nil_r. by repeat split. Qed.

Lemma issues_HasLease (lm : leasableMachine) : issues Q (fun _ => True) (HasLease world lm).
Proof.
  unfold HasLease. case_bool_decide.
  - eapply issues_bind; [apply issues_now|]. intros t _. by apply issues_ret.
  - by apply issues_ret.
Qed.

Lemma issues_Update_call ctx input nonce :
  Q (Call_Update ctx input nonce) → issues Q (fun _ => True) (Update_call world ctx input nonce).
Proof. intros H tr. eexists [_]. simpl. split; [done|]. split; [by constructor|done]. Qed.

Lemma issues_Get_call ctx id :
  Q (Call_Get ctx id) → issues Q (fun _ => True) (Get_call world ctx id).
Proof. intros H tr. eexists [_]. simpl. split; [done|]. split; [by constructor|done]. Qed.

Lemma issues_Wait_call ctx m state timeout :
  Q (Call_Wait ctx m state timeout) →
  issues Q (fun _ => True) (Wait_call world ctx m state timeout).
Proof. intros H tr. eexists [_]. simpl. split; [done|]. split; [by constructor|done]. Qed.

Lemma issues_AcquireLease_call ctx id seconds :
  Q (Call_AcquireLease ctx id seconds) →
  issues Q (fun _ => True) (AcquireLease_call world ctx id seconds).
Proof. intros H tr. eexists [_]. simpl. split; [done|]. split; [by constructor|done]. Qed.

Lemma issues_ReleaseLease_call ctx id nonce :
  Q (Call_ReleaseLease ctx id nonce) →
  issues Q (fun _ => True) (ReleaseLease_call world ctx id nonce).
Proof. intros H tr. eexists [_]. simpl. split; [done|]. split; [by constructor|done]. Qed.

(** The methods of a machine.  Each leaves the identifier of the machine's
    snapshot alone, [Update] apart. *)
Hypothesis Q_Get : ∀ ctx id, Q (Call_Get ctx id).
Hypothesis Q_Wait : ∀ ctx m state timeout, Q (Call_Wait ctx m state timeout).
Hypothesis Q_ReleaseLease : ∀ ctx id nonce, Q (Call_ReleaseLease ctx id nonce).

Lemma issues_ReleaseLease (lm : leasableMachine) (ctx : Ctx) :
  issues Q (fun r => machine r.2 = machine lm) (ReleaseLease world lm ctx).
Proof.
  unfold ReleaseLease.
  eapply issues_bind; [apply issues_HasLease|]. intros has _.
  destruct has; simpl; [|by apply issues_ret].
  eapply issues_bind; [apply issues_now|]. intros t _.
  case_bool_decide; [by apply issues_ret|].
  eapply issues_bind; [by apply issues_ReleaseLease_call|]. intros [e|] _.
  - eapply issues_bind; [apply issues_log|]. intros _ _. by apply issues_ret.
  - by apply issues_ret.
Qed.

Lemma issues_AcquireLease (lm : leasableMachine) (ctx : Ctx) (d : Duration) :
  (∀ seconds, Q (Call_AcquireLease ctx (ID (machine lm)) seconds)) →
  issues Q (fun r => machine r.2 = machine lm) (AcquireLease world lm ctx d).
Proof.
  intros HQ. unfold AcquireLease.
  eapply issues_bind; [apply issues_HasLease|]. intros has _.
  destruct has; [by apply issues_ret|].
  eapply issues_bind; [by apply issues_AcquireLease_call|]. intros [e|l] _.
  - by apply issues_ret.
  - case_bool_decide; [by apply issues_ret|]. destruct (lsData l); by apply issues_ret.
Qed.

Lemma issues_Update (lm : leasableMachine) (ctx : Ctx) (input : LaunchMachineInput) :
  Q (Call_Update ctx input (leaseNonce lm)) →
  issues Q (fun _ => True) (Update world lm ctx input).
Proof.
  intros HQ. unfold Update.
  eapply issues_bind; [apply issues_HasLease|]. intros has _.
  destruct has; simpl; [|by apply issues_ret].
  eapply issues_bind; [by apply issues_Update_call|]. intros [e|m] _; by apply issues_ret.
Qed.

Lemma issues_WaitForState (fuel : nat) (lm : leasableMachine) (ctx : Ctx) (state : string)
    (timeout : Duration) :
  issues Q (fun _ => True) (WaitForState world fuel lm ctx state timeout).
Proof.
  unfold WaitForState. generalize 0%nat as attempt.
  induction fuel as [|fuel IH]; intros attempt; simpl; [apply issues_out_of_fuel|].
  eapply issues_bind; [by apply issues_Wait_call|]. intros [e|] _; [|by apply issues_ret].
  destruct (errors_Is e context_Canceled); [by apply issues_ret|].
  destruct (errors_Is e context_DeadlineExceeded); [by apply issues_ret|].
  eapply issues_bind; [apply issues_sleep|]. intros _ _. apply IH.
Qed.

Lemma issues_WaitForEventTypeAfterType (fuel : nat) (lm : leasableMachine) (ctx : Ctx)
    (t1 t2 : string) (timeout : Duration) :
  issues Q (fun _ => True) (WaitForEventTypeAfterType world fuel lm ctx t1 t2 timeout).
Proof.
  unfold WaitForEventTypeAfterType. generalize 0%nat as attempt.
  induction fuel as [|fuel IH]; intros attempt; simpl; [apply issues_out_of_fuel|].
  eapply issues_bind; [by apply issues_Get_call|]. intros [e|m] _.
  - destruct (errors_Is e context_Canceled); [by apply issues_ret|].
    destruct (errors_Is e context_DeadlineExceeded); by apply issues_ret.
  - destruct (GetLatestEventOfTypeAfterType _ _ _); [by apply issues_ret|].
    eapply issues_bind; [apply issues_sleep|]. intros _ _. apply IH.
Qed.

(** The fan-out: when the method keeps a property [I] of the members, the
    set keeps it. *)
Lemma issues_fanout (I : leasableMachine → Prop)
    (f : leasableMachine → M (option error * leasableMachine)) :
  (∀ m, I m → issues Q (fun r => I r.2) (f m)) →
  ∀ n pending ms results,
    Forall I ms →
    issues Q (fun r => Forall I r.2) (fanout world f n pending ms results).
Proof.
  intros Hf. induction n as [|n IH]; intros pending ms results HI; simpl.
  - by apply issues_ret.
  - eapply issues_bind; [apply issues_pick|]. intros k _.
    destruct (pending !! k) as [i|]; [|by apply issues_ret].
    destruct (ms !! i) as [m|] eqn:Hm; [|by apply issues_ret].
    eapply issues_bind.
    + apply Hf. eapply Forall_lookup_1; eauto.
    + intros r Hr. apply IH. by apply Forall_insert.
Qed.

Lemma issues_acquireResults (results : list (option error)) :
  ∀ had, issues Q (fun _ => True) (acquireResults results had).
Proof.
  induction results as [|[e|] rest IH]; intros had; simpl.
  - by apply issues_ret.
  - eapply issues_bind; [apply issues_log|]. intros _ _. apply IH.
  - apply IH.
Qed.

Lemma issues_releaseResults (was : bool) (results : list (option error)) :
  ∀ had, issues Q (fun _ => True) (releaseResults was results had).
Proof.
  induction results as [|err rest IH]; intros had; simpl.
  - by apply issues_ret.
  - destruct (_ && _); [|apply IH].
    eapply issues_bind; [apply issues_log|]. intros _ _. apply IH.
Qed.

Lemma issues_ReleaseLeases (I : leasableMachine → Prop) (ms : machineSet) (ctx : Ctx) :
  (∀ m m', I m → machine m' = machine m → I m') →
  Forall I (machines ms) →
  issues Q (fun r => Forall I (machines r.2)) (ReleaseLeases world ms ctx).
Proof.
  intros HI Hms. unfold ReleaseLeases.
  eapply issues_bind; [apply issues_Err_of|]. intros cerr _.
  eapply issues_bind with (R1 := fun _ => True).
  { destruct (errors_Is_opt cerr context_Canceled); [|by apply issues_ret].
    eapply issues_bind; [apply issues_log|]. intros _ _. by apply issues_ret. }
  intros ctx' _.
  eapply issues_bind.
  { apply (issues_fanout I); [|done]. intros m Hm.
    eapply issues_weaken; [|apply issues_ReleaseLease]. intros r Hr. by eapply HI. }
  intros r Hr. eapply issues_bind; [apply issues_releaseResults|]. intros had _.
  destruct had; by apply issues_ret.
Qed.

Lemma issues_AcquireLeases (I : leasableMachine → Prop) (ms : machineSet) (ctx : Ctx)
    (d : Duration) :
  (∀ m m', I m → machine m' = machine m → I m') →
  (∀ m seconds, I m → Q (Call_AcquireLease ctx (ID (machine m)) seconds)) →
  Forall I (machines ms) →
  issues Q (fun r => Forall I (machines r.2)) (AcquireLeases world ms ctx d).
Proof.
  intros HI HQ Hms. unfold AcquireLeases.
  eapply issues_bind.
  { apply (issues_fanout I); [|done]. intros m Hm.
    eapply issues_weaken; [|apply issues_AcquireLease; eauto]. intros r Hr. by eapply HI. }
  intros r Hr. eapply issues_bind; [apply issues_acquireResults|]. intros had _.
  destruct had; [|by apply issues_ret].
  eapply issues_bind; [by apply (issues_ReleaseLeases I)|]. intros rel Hrel.
  eapply issues_bind with (R1 := fun _ => True).
  { destruct rel.1; [apply issues_log|by apply issues_ret]. }
  intros _ _. by apply issues_ret.
Qed.

End Issues.

(** ** The release command *)

Section ReleaseFacts.

Variable world : World.
Variable K : ApiConstants.
Variable Q : Call → Prop.

(** [resolveUpdatedMachineConfig] asks nothing of the control plane; the
    input it builds and the machine it leaves carry the identifier of the
    machine it was given, and the deployment keeps its machine sets and its
    settings. *)
Lemma issues_resolve (md : machineDeployment) (pg : string) (orig : Machine) :
  issues Q (fun r => ID (res_orig r) = ID orig ∧ liID (launchInput r) = ID orig
                     ∧ machineSet_ (res_md r) = machineSet_ md
                     ∧ releaseCommandMachine (res_md r) = releaseCommandMachine md
                     ∧ strategy (res_md r) = strategy md
                     ∧ skipHealthChecks (res_md r) = skipHealthChecks md
                     ∧ waitTimeout (res_md r) = waitTimeout md
                     ∧ leaseTimeout (res_md r) = leaseTimeout md)
         (resolveUpdatedMachineConfig K md pg (Some orig)).
Proof.
  unfold resolveUpdatedMachineConfig.
  destruct (restartOnly md); [by apply issues_ret|]. cbv zeta.
  eapply issues_bind with (R1 := fun _ => True).
  { destruct (match Mounts _ with Some [currentMount] => _ | _ => false end);
      [apply issues_log | by apply issues_ret]. }
  intros _ _. apply issues_ret. simpl.
  destruct (bool_decide (cfgEnv (appConfig md) ≠ None)); by repeat split.
Qed.

Lemma issues_configure (r : resolved) :
  issues Q (fun r' => ID (res_orig r') = ID (res_orig r)
                      ∧ liID (launchInput r') = liID (launchInput r)
                      ∧ machineSet_ (res_md r') = machineSet_ (res_md r)
                      ∧ releaseCommandMachine (res_md r') = releaseCommandMachine (res_md r)
                      ∧ strategy (res_md r') = strategy (res_md r)
                      ∧ skipHealthChecks (res_md r') = skipHealthChecks (res_md r)
                      ∧ waitTimeout (res_md r') = waitTimeout (res_md r)
                      ∧ leaseTimeout (res_md r') = leaseTimeout (res_md r))
         (configureLaunchInputForReleaseCommand r).
Proof.
  unfold configureLaunchInputForReleaseCommand. cbv zeta.
  eapply issues_bind with (R1 := fun _ => True).
  { destruct (default ∅ _ !! "RELEASE_COMMAND"); [by apply issues_ret|].
    destruct (Env _); [by apply issues_ret | apply issues_panic]. }
  intros e _. apply issues_ret. simpl.
  destruct (env_is_app r), (config_is_orig r); by repeat split.
Qed.

End ReleaseFacts.

Section ReleasePhase.

Variable world : World.
Variable K : ApiConstants.

Lemma release_phase_call_Get id0 ids ctx id : release_phase_call id0 ids (Call_Get ctx id).
Proof. done. Qed.
Lemma release_phase_call_Wait id0 ids ctx m s t : release_phase_call id0 ids (Call_Wait ctx m s t).
Proof. done. Qed.
Lemma release_phase_call_ReleaseLease id0 ids ctx id n :
  release_phase_call id0 ids (Call_ReleaseLease ctx id n).
Proof. done. Qed.

Lemma issues_updateReleaseCommandMachine (fuel : nat) (md : machineDeployment) (ctx : Ctx)
    (m0 : leasableMachine) (others : list leasableMachine) :
  machines (releaseCommandMachine md) = m0 :: others →
  issues (release_phase_call (ID (machine m0)) (machine_ids (releaseCommandMachine md)))
         (fun r => machineSet_ r.2 = machineSet_ md)
         (updateReleaseCommandMachine world K fuel md ctx).
Proof.
  intros Hms.
  set (id0 := ID (machine m0)). set (ids := machine_ids (releaseCommandMachine md)).
  set (Q := release_phase_call id0 ids).
  set (I := fun m : leasableMachine => ID (machine m) ∈ ids).
  assert (HI : ∀ m m', I m → machine m' = machine m → I m').
  { unfold I. intros m m' Hm ->. done. }
  assert (Hall : Forall I (m0 :: others)).
  { apply Forall_forall. intros m Hm. unfold I, ids, machine_ids. rewrite Hms.
    apply list_elem_of_fmap. by exists m. }
  unfold updateReleaseCommandMachine.
  case_bool_decide; [by apply issues_ret|].
  destruct (IsEmpty _); [by apply issues_ret|].
  unfold GetMachines. rewrite Hms.
  eapply issues_bind; [apply issues_log|]. intros _ _.
  eapply issues_bind; [by apply issues_WaitForState|]. intros [e|] _; [by apply issues_ret|].
  eapply issues_bind; [apply issues_resolve|].
  intros r0 (Hid0 & Hli0 & Hset0 & _).
  eapply issues_bind; [apply issues_configure|].
  intros r (Hid & Hli & Hset & _). cbv zeta.
  eapply issues_bind.
  { apply (issues_AcquireLeases Q world (release_phase_call_ReleaseLease id0 ids) I); [done| |].
    - intros m seconds Hm. exact Hm.
    - simpl. apply Forall_cons in Hall as [H0 Ho]. constructor; [|done].
      unfold I in *. simpl. by rewrite Hid, Hid0. }
  intros a Ha.
  eapply issues_bind with
    (R1 := fun body : option error * machineDeployment => machineSet_ body.2 = machineSet_ md).
  { destruct a.1; [apply issues_ret; simpl; congruence|].
    unfold GetMachines. simpl.
    destruct (machines a.2) as [|m1 others1]; [apply issues_panic|].
    eapply issues_bind.
    - apply (issues_Update Q world). simpl. unfold id0. congruence.
    - intros u _. destruct u.1; apply issues_ret; simpl; congruence. }
  intros body Hbody.
  eapply issues_bind.
  { apply (issues_ReleaseLeases Q world (release_phase_call_ReleaseLease id0 ids) (fun _ => True));
      [done|]. apply Forall_true. done. }
  intros rel _. by apply issues_ret.
Qed.

(** The release-command phase launches nothing, updates nothing but the
    release-command machine, takes leases on nothing but the machines of the
    release-command set, and leaves the set of app machines as it was. *)
Lemma issues_runReleaseCommand (fuel : nat) (md : machineDeployment) (ctx : Ctx) :
  issues (release_phase_call (hd "" (machine_ids (releaseCommandMachine md)))
                             (machine_ids (releaseCommandMachine md)))
         (fun r => machineSet_ r.2 = machineSet_ md)
         (runReleaseCommand world K fuel md ctx).
Proof.
  unfold runReleaseCommand.
  destruct (bool_decide (releaseCommand md = "")); [by apply issues_ret|].
  unfold createOrUpdateReleaseCmdMachine.
  destruct (IsEmpty (releaseCommandMachine md)) eqn:Hempty; [by apply issues_ret|].
  destruct (restartOnly md); [by apply issues_ret|]. simpl.
  destruct (machines (releaseCommandMachine md)) as [|m0 others] eqn:Hms.
  { unfold IsEmpty in Hempty. rewrite Hms in Hempty. done. }
  assert (Hhd : hd "" (machine_ids (releaseCommandMachine md)) = ID (machine m0))
    by (unfold machine_ids; rewrite Hms; done).
  rewrite Hhd.
  eapply issues_bind; [apply issues_log|]. intros _ _.
  eapply issues_bind;
    [apply (issues_updateReleaseCommandMachine fuel md ctx m0 others Hms)|].
  intros r Hr. cbv zeta.
  destruct r.1; [by apply issues_ret|].
  destruct (GetMachines _) as [|rcm ?]; [apply issues_panic|].
  eapply issues_bind; [by apply issues_WaitForState|].
  intros [e|] _; [by apply issues_ret|].
  eapply issues_bind; [by apply issues_WaitForState|].
  intros [e|] _; [by apply issues_ret|].
  eapply issues_bind; [by apply issues_WaitForEventTypeAfterType|].
  intros [e|ev] _; [by apply issues_ret|].
  destruct (GetExitCode ev) as [e|code]; [by apply issues_ret|].
  case_bool_decide; (eapply issues_bind; [apply issues_log|]); intros _ _;
    by apply issues_ret.
Qed.

End ReleasePhase.

(** C1: when the release-command phase ends with the error of a non-zero
    exit status, [DeployMachinesApp] returns that error, wrapped, at the very
    point where the phase ended: nothing is issued after it, the set of app
    machines is the one the deployment started with (no lease taken, no
    snapshot replaced), and nothing the run issued updates or takes a lease
    on a machine of the app set that is not also in the release-command
    set. *)
Theorem release_command_failure_aborts (world : World) (K : ApiConstants) (fuel : nat)
    (md md1 : machineDeployment) (ctx : Ctx) (tr tr1 : Trace) (id : string) (code : Z) :
  code ≠ 0 →
  runReleaseCommand world K fuel md ctx tr = (Done (Some (nonZeroExit id code), md1), tr1) →
  DeployMachinesApp world K fuel md ctx tr
    = (Done (Some (Errorf_w "release command failed - aborting deployment. "
                            (nonZeroExit id code)), md1), tr1)
  ∧ machineSet_ md1 = machineSet_ md
  ∧ ∃ new : Trace,
      tr1 = tr ++ new
      ∧ ∀ m, m ∈ machines (machineSet_ md) →
             ID (machine m) ∉ machine_ids (releaseCommandMachine md) →
             ∀ c, c ∈ calls new → ¬ mutates (ID (machine m)) c.
Proof.
  intros _ Hrun. split; [|split].
  - unfold DeployMachinesApp, bind. by rewrite Hrun.
  - destruct (issues_runReleaseCommand world K fuel md ctx tr) as (new & _ & _ & HR).
    rewrite Hrun in HR. by apply (HR _ eq_refl).
  - destruct (issues_runReleaseCommand world K fuel md ctx tr) as (new & Htr & Hok & _).
    rewrite Hrun in Htr. simpl in Htr. exists new. split; [done|].
    intros m Hm Hnot c Hc Hmut.
    unfold calls in Hc. apply list_elem_of_omap in Hc as (e & He & Hec).
    destruct e as [c'| | | |]; try done. injection Hec as ->.
    eapply Forall_forall in Hok; [|exact He]. simpl in Hok.
    destruct c as [? input ?|? ?|? ?|? ? ? ?|? id' ?|? ? ?]; simpl in *; try done.
    + apply Hnot. rewrite <- Hmut, Hok.
      destruct (machine_ids (releaseCommandMachine md)) as [|i l] eqn:Hids; simpl.
      * exfalso. clear -Hrun Hids.
        unfold runReleaseCommand in Hrun.
        assert (IsEmpty (releaseCommandMachine md) = true) as Hem.
        { unfold IsEmpty, machine_ids in *. destruct (machines _); [done|done]. }
        rewrite Hem, orb_true_r in Hrun. simpl in Hrun. done.
      * left.
    + apply Hnot. by rewrite <- Hmut.
Qed.

(** When the release-command machine is prepared, starts, stops and shows an
    exit event with a non-zero status, [runReleaseCommand] returns the error
    of that status. *)
Lemma runReleaseCommand_exit_status (world : World) (K : ApiConstants) (fuel : nat)
    (md md1 : machineDeployment) (ctx : Ctx) (tr tr_a tr_b tr_c tr_d : Trace)
    (rcm : leasableMachine) (others : list leasableMachine) (ev : MachineEvent) (code : Z) :
  releaseCommand md ≠ "" →
  IsEmpty (releaseCommandMachine md) = false →
  restartOnly md = false →
  createOrUpdateReleaseCmdMachine world K fuel md ctx
    (tr ++ [Ev_Log Stderr "Running %s release_command: %s" None]) = (Done (None, md1), tr_a) →
  machines (releaseCommandMachine md1) = rcm :: others →
  WaitForState world fuel rcm ctx MachineStateStarted (waitTimeout md1) tr_a
    = (Done None, tr_b) →
  WaitForState world fuel rcm ctx MachineStateStopped (waitTimeout md1) tr_b
    = (Done None, tr_c) →
  WaitForEventTypeAfterType world fuel rcm ctx "exit" "start" (waitTimeout md1) tr_c
    = (Done (inr ev), tr_d) →
  evExitCode ev = Some code →
  code ≠ 0 →
  ∃ tr1, runReleaseCommand world K fuel md ctx tr
         = (Done (Some (nonZeroExit (ID (machine rcm)) code), md1), tr1).
Proof.
  intros Hcmd Hempty Hro Hprep Hms Hstart Hstop Hev Hcode Hnz.
  unfold runReleaseCommand.
  rewrite (bool_decide_eq_false_2 _ Hcmd), Hempty, Hro. simpl.
  unfold bind at 1, log, emit. unfold bind at 1. rewrite Hprep. simpl.
  unfold GetMachines. rewrite Hms.
  unfold bind at 1. rewrite Hstart. unfold bind at 1. rewrite Hstop.
  unfold bind at 1. rewrite Hev. unfold GetExitCode. rewrite Hcode.
  rewrite (bool_decide_eq_true_2 _ Hnz). unfold bind. simpl. eauto.
Qed.

(** ** The rollout *)

Section RolloutFacts.

Variable world : World.
Variable K : ApiConstants.

(** Given a machine, [resolveUpdatedMachineConfig] returns. *)
Lemma resolve_returns (md : machineDeployment) (pg : string) (orig : Machine) (tr : Trace) :
  ∃ r tr', resolveUpdatedMachineConfig K md pg (Some orig) tr = (Done r, tr')
           ∧ strategy (res_md r) = strategy md.
Proof.
  destruct (issues_resolve K (fun _ => True) md pg orig tr) as (new & Htr & _ & HR).
  unfold resolveUpdatedMachineConfig in *.
  destruct (restartOnly md).
  - eexists _, _. split; [reflexivity|]. done.
  - cbv zeta in *. unfold bind in *.
    destruct (match Mounts _ with Some [currentMount] => _ | _ => false end);
      simpl in *; (eexists _, _; split; [reflexivity|]);
      destruct (HR _ eq_refl) as (_ & _ & _ & _ & Hs & _); exact Hs.
Qed.

Lemma Update_returns (lm : leasableMachine) (ctx : Ctx) (input : LaunchMachineInput)
    (tr : Trace) :
  ∃ err lm' tr', Update world lm ctx input tr = (Done (err, lm'), tr').
Proof.
  unfold Update, bind. rewrite HasLease_run.
  case_bool_decide; simpl; [|eauto].
  destruct (time_After _ _); simpl; [|eauto].
  unfold Update_call. destruct (flaps_Update _ _ _ _ _); simpl; eauto.
Qed.

(** Under the immediate strategy nothing is waited for. *)
Lemma waitForMachine_immediate (fuel : nat) (md : machineDeployment) (ctx : Ctx)
    (m : leasableMachine) (tr : Trace) :
  strategy md = "immediate" → waitForMachine world fuel md ctx m tr = (Done None, tr).
Proof.
  intros Hs. unfold waitForMachine, bind.
  rewrite (bool_decide_eq_false_2 (strategy md ≠ "immediate")) by (intros H; by apply H).
  done.
Qed.

(** Under the immediate strategy the update of a machine never ends the
    loop. *)
Lemma updateMachine_immediate (fuel : nat) (md : machineDeployment) (ctx : Ctx)
    (m : leasableMachine) (tr : Trace) :
  strategy md = "immediate" →
  ∃ md' m' tr', updateMachine world K fuel md ctx m tr = (Done (None, md', m'), tr')
                ∧ strategy md' = strategy md.
Proof.
  intros Hs. unfold updateMachine. unfold bind at 1.
  destruct (resolve_returns md MachineProcessGroupApp (machine m) tr) as (r & tr1 & -> & Hsr).
  cbv zeta. unfold bind at 1, log, emit. unfold bind at 1.
  destruct (Update_returns (set_machine (res_orig r) m) ctx (launchInput r)
              (tr1 ++ [Ev_Log Stderr "  Updating %s" None])) as (err & m' & tr2 & ->).
  simpl. destruct err as [e|].
  - rewrite (bool_decide_eq_false_2 (strategy (res_md r) ≠ "immediate"))
      by (intros H; apply H; congruence).
    unfold bind, log, emit. simpl.
    rewrite waitForMachine_immediate by congruence. simpl. eauto.
  - unfold bind. rewrite waitForMachine_immediate by congruence. simpl. eauto.
Qed.

Lemma updateMachines_immediate (fuel : nat) (ctx : Ctx) (todo : list leasableMachine) :
  ∀ (md : machineDeployment) (tr : Trace),
    strategy md = "immediate" →
    ∃ md' todo' tr',
      updateMachines world K fuel md ctx todo tr = (Done (None, md', todo'), tr')
      ∧ length todo' = length todo.
Proof.
  induction todo as [|m rest IH]; intros md tr Hs; simpl.
  - eexists _, _, _. split; reflexivity.
  - unfold bind at 1.
    destruct (updateMachine_immediate fuel md ctx m tr Hs) as (md1 & m1 & tr1 & -> & Hs1).
    simpl. unfold bind.
    destruct (IH md1 tr1) as (md2 & rest' & tr2 & -> & Hlen); [congruence|].
    simpl. eexists _, _, _. split; [reflexivity|]. simpl. by rewrite Hlen.
Qed.

(** One iteration keeps the strategy of the deployment. *)
Lemma issues_updateMachine_strategy (fuel : nat) (md : machineDeployment) (ctx : Ctx)
    (m : leasableMachine) (tr : Trace) :
  ∀ r, (updateMachine world K fuel md ctx m tr).1 = Done r → strategy r.1.2 = strategy md.
Proof.
  intros r. unfold updateMachine. unfold bind at 1.
  destruct (resolve_returns md MachineProcessGroupApp (machine m) tr) as (r0 & tr1 & -> & Hsr).
  cbv zeta. unfold bind at 1, log, emit. unfold bind at 1.
  destruct (Update_returns (set_machine (res_orig r0) m) ctx (launchInput r0)
              (tr1 ++ [Ev_Log Stderr "  Updating %s" None])) as (err & m' & tr2 & ->).
  simpl. destruct err as [e|].
  - case_bool_decide; simpl; [by intros [= <-]|].
    unfold bind, log, emit. simpl.
    destruct (waitForMachine _ _ _ _ _ _) as [[?| |] ?]; simpl; try done. by intros [= <-].
  - unfold bind.
    destruct (waitForMachine _ _ _ _ _ _) as [[?| |] ?]; simpl; try done. by intros [= <-].
Qed.

(** The machines a loop has gone through without error, then the others. *)
Lemma updateMachines_app (fuel : nat) (ctx : Ctx) (pre post : list leasableMachine) :
  ∀ (md md_p : machineDeployment) (pre' : list leasableMachine) (tr tr_p : Trace),
    updateMachines world K fuel md ctx pre tr = (Done (None, md_p, pre'), tr_p) →
    updateMachines world K fuel md ctx (pre ++ post) tr =
      match updateMachines world K fuel md_p ctx post tr_p with
      | (Done r, tr') => (Done (r.1.1, r.1.2, pre' ++ r.2), tr')
      | (Panicked msg, tr') => (Panicked msg, tr')
      | (Unfinished, tr') => (Unfinished, tr')
      end
    ∧ strategy md_p = strategy md.
Proof.
  induction pre as [|m pre IH]; intros md md_p pre' tr tr_p Hpre; simpl in *.
  - injection Hpre as <- <- <-. split; [|done].
    by destruct (updateMachines _ _ _ _ _ _ _) as [[[[? ?] ?]| |] ?].
  - unfold bind at 1 in Hpre. unfold bind at 1.
    pose proof (issues_updateMachine_strategy fuel md ctx m tr) as HR.
    destruct (updateMachine world K fuel md ctx m tr) as [[[[err md1] m1]| |] tr1];
      simpl in *; try done.
    destruct err; [done|]. unfold bind in Hpre. unfold bind.
    destruct (updateMachines world K fuel md1 ctx pre tr1)
      as [[[[err2 md2] pre2]| |] tr2] eqn:Hrest; simpl in *; try done.
    injection Hpre as ? ? ? ?; subst.
    destruct (IH _ _ _ _ _ Hrest) as [-> Hs].
    split; [|rewrite Hs; by apply (HR (None, md1, m1))].
    by destruct (updateMachines world K fuel _ ctx post _) as [[[[? ?] ?]| |] ?].
Qed.

End RolloutFacts.

(** C4: let the loop have gone through the machines [pre] without error and
    let the [Update] of the next machine [m] return the error [e].  Under
    the immediate strategy the error is written out, the loop goes on with
    the machines after [m], and the whole loop ends without error; under
    any other strategy the loop ends there with [e]: the run stops at the
    end of that [Update] and the machines after [m] are returned as they
    were. *)
Theorem update_error_by_strategy (world : World) (K : ApiConstants) (fuel : nat)
    (md md_p : machineDeployment) (ctx : Ctx) (pre pre' rest : list leasableMachine)
    (m m1 : leasableMachine) (tr tr_p tr_r tr_u : Trace) (r : resolved) (e : error) :
  updateMachines world K fuel md ctx pre tr = (Done (None, md_p, pre'), tr_p) →
  resolveUpdatedMachineConfig K md_p MachineProcessGroupApp (Some (machine m)) tr_p
    = (Done r, tr_r) →
  Update world (set_machine (res_orig r) m) ctx (launchInput r)
         (tr_r ++ [Ev_Log Stderr "  Updating %s" None])
    = (Done (Some e, m1), tr_u) →
  (strategy md = "immediate" →
     ∃ (md' : machineDeployment) (rest' : list leasableMachine) (tr' : Trace),
       updateMachines world K fuel (res_md r) ctx rest
         (tr_u ++ [Ev_Log Stdout "Continuing after error: %s" (Some e)])
         = (Done (None, md', rest'), tr')
       ∧ updateMachines world K fuel md ctx (pre ++ m :: rest) tr
         = (Done (None, md', pre' ++ m1 :: rest'), tr')
       ∧ length rest' = length rest)
  ∧ (strategy md ≠ "immediate" →
     updateMachines world K fuel md ctx (pre ++ m :: rest) tr
       = (Done (Some e, res_md r, pre' ++ m1 :: rest), tr_u)).
Proof.
  intros Hpre Hres Hupd.
  destruct (updateMachines_app world K fuel ctx pre (m :: rest) md md_p pre' tr tr_p Hpre)
    as [-> Hsp].
  destruct (resolve_returns K md_p MachineProcessGroupApp (machine m) tr_p)
    as (r' & tr_r' & Hres' & Hsr).
  rewrite Hres in Hres'. injection Hres' as <- <-.
  assert (Hone : updateMachine world K fuel md_p ctx m tr_p =
    if bool_decide (strategy md = "immediate") then
      (Done (None, res_md r, m1),
       tr_u ++ [Ev_Log Stdout "Continuing after error: %s" (Some e)])
    else (Done (Some e, res_md r, m1), tr_u)).
  { unfold updateMachine. unfold bind at 1. rewrite Hres. cbv zeta.
    unfold bind at 1, log, emit. unfold bind at 1. rewrite Hupd. simpl.
    destruct (decide (strategy md = "immediate")) as [Hs|Hs];
      [rewrite (bool_decide_eq_true_2 _ Hs) | rewrite (bool_decide_eq_false_2 _ Hs)].
    - rewrite (bool_decide_eq_false_2 (strategy (res_md r) ≠ "immediate"))
        by (intros H; apply H; congruence).
      unfold bind. simpl. rewrite waitForMachine_immediate by congruence. done.
    - rewrite (bool_decide_eq_true_2 (strategy (res_md r) ≠ "immediate")) by congruence.
      done. }
  simpl updateMachines. split; intros Hs.
  - rewrite (bool_decide_eq_true_2 _ Hs) in Hone.
    destruct (updateMachines_immediate world K fuel ctx rest (res_md r)
                (tr_u ++ [Ev_Log Stdout "Continuing after error: %s" (Some e)]))
      as (md' & rest' & tr' & Hrest & Hlen); [congruence|].
    exists md', rest', tr'. split; [done|]. split; [|done].
    unfold bind at 1. rewrite Hone. simpl. unfold bind. by rewrite Hrest.
  - rewrite (bool_decide_eq_false_2 _ Hs) in Hone.
    unfold bind at 1. rewrite Hone. done.
Qed.

(** Three leased machines, the update of the second refused: under the
    rolling strategy the loop ends with the machines ["m1"] and ["m2"]
    asked for and ["m3"] not; under the immediate strategy all three are. *)
Lemma update_error_by_strategy_witness :
  (∃ md' ms' tr',
     updateMachines update_m2_fails sample_keys 5 (sample_deployment "rolling") ctx_caller
       ([leased "m1"] ++ leased "m2" :: [leased "m3"]) []
       = (Done (Some (FlapsError false "422 invalid config"), md', ms'), tr')
     ∧ updated_ids tr' = ["m1"; "m2"]
     ∧ ms' !! 2%nat = Some (leased "m3"))
  ∧ (∃ md' ms' tr',
     updateMachines update_m2_fails sample_keys 5 (sample_deployment "immediate") ctx_caller
       ([leased "m1"] ++ leased "m2" :: [leased "m3"]) []
       = (Done (None, md', ms'), tr')
     ∧ updated_ids tr' = ["m1"; "m2"; "m3"]).
Proof.
  split.
  - pose (run1 := updateMachines update_m2_fails sample_keys 5 (sample_deployment "rolling")
                    ctx_caller [leased "m1"] []).
    pose (val1 := returned (None, sample_deployment "rolling", []) run1).
    pose (run2 := resolveUpdatedMachineConfig sample_keys val1.1.2 MachineProcessGroupApp
                    (Some (machine (leased "m2"))) run1.2).
    pose (r := returned {| launchInput := sample_input "m2"; config_is_orig := false;
                           env_is_app := false; res_md := sample_deployment "rolling";
                           res_orig := sample_machine "m2" |} run2).
    pose (run3 := Update update_m2_fails (set_machine (res_orig r) (leased "m2")) ctx_caller
                    (launchInput r) (run2.2 ++ [Ev_Log Stderr "  Updating %s" None])).
    pose (m1 := (returned (None, leased "m2") run3).2).
    destruct (update_error_by_strategy update_m2_fails sample_keys 5
                (sample_deployment "rolling") val1.1.2 ctx_caller
                [leased "m1"] val1.2 [leased "m3"] (leased "m2") m1
                [] run1.2 run2.2 run3.2 r (FlapsError false "422 invalid config"))
      as [_ H]; [vm_compute; reflexivity ..|].
    eexists _, _, _. split; [apply H; vm_compute; discriminate|].
    split; vm_compute; reflexivity.
  - pose (run1 := updateMachines update_m2_fails sample_keys 5 (sample_deployment "immediate")
                    ctx_caller [leased "m1"] []).
    pose (val1 := returned (None, sample_deployment "immediate", []) run1).
    pose (run2 := resolveUpdatedMachineConfig sample_keys val1.1.2 MachineProcessGroupApp
                    (Some (machine (leased "m2"))) run1.2).
    pose (r := returned {| launchInput := sample_input "m2"; config_is_orig := false;
                           env_is_app := false; res_md := sample_deployment "immediate";
                           res_orig := sample_machine "m2" |} run2).
    pose (run3 := Update update_m2_fails (set_machine (res_orig r) (leased "m2")) ctx_caller
                    (launchInput r) (run2.2 ++ [Ev_Log Stderr "  Updating %s" None])).
    pose (m1 := (returned (None, leased "m2") run3).2).
    destruct (update_error_by_strategy update_m2_fails sample_keys 5
                (sample_deployment "immediate") val1.1.2 ctx_caller
                [leased "m1"] val1.2 [leased "m3"] (leased "m2") m1
                [] run1.2 run2.2 run3.2 r (FlapsError false "422 invalid config"))
      as [H _]; [vm_compute; reflexivity ..|].
    destruct H as (md' & rest' & tr' & Hrest & Hall & _); [reflexivity|].
    eexists _, _, _. split; [exact Hall|].
    replace tr' with
      (updateMachines update_m2_fails sample_keys 5 (res_md r) ctx_caller [leased "m3"]
         (run3.2 ++ [Ev_Log Stdout "Continuing after error: %s"
                            (Some (FlapsError false "422 invalid config"))])).2
      by (by rewrite Hrest).
    vm_compute. reflexivity.
Defined.

(** The same three machines through [DeployMachinesApp]: under the rolling
    strategy the deployment fails after asking ["m1"] and ["m2"], under the
    immediate strategy it succeeds after asking all three; either way the
    deferred release leaves no lease behind. *)
Example DeployMachinesApp_rolling_stops_at_m2 :
  match DeployMachinesApp update_m2_fails sample_keys 5 (plain_deployment "rolling")
          ctx_caller [] with
  | (Done (err, md'), tr') =>
      err = Some (FlapsError false "422 invalid config")
      ∧ updated_ids tr' = ["m1"; "m2"]
      ∧ leaseNonce <$> machines (machineSet_ md') = [""; ""; ""]
  | _ => False
  end.
Proof. vm_compute. repeat split. Qed.

Example DeployMachinesApp_immediate_goes_on :
  match DeployMachinesApp update_m2_fails sample_keys 5 (plain_deployment "immediate")
          ctx_caller [] with
  | (Done (err, md'), tr') =>
      err = None
      ∧ updated_ids tr' = ["m1"; "m2"; "m3"]
      ∧ leaseNonce <$> machines (machineSet_ md') = [""; ""; ""]
  | _ => False
  end.
Proof. vm_compute. repeat split. Qed.


(** The exit status 7 of the spec's example: the deployment ends with the
    wrapped error, the three app machines are as they were, and the only
    update request of the run is the one of the release-command machine. *)
Lemma release_command_failure_aborts_witness :
  ∃ md1 tr1,
    DeployMachinesApp release_exits_7 sample_keys 5 (sample_deployment "rolling") ctx_caller []
      = (Done (Some (Errorf_w "release command failed - aborting deployment. "
                              (nonZeroExit "rc" 7)), md1), tr1)
    ∧ machineSet_ md1 = machineSet_ (sample_deployment "rolling")
    ∧ updated_ids tr1 = ["rc"].
Proof.
  pose (run := runReleaseCommand release_exits_7 sample_keys 5 (sample_deployment "rolling")
                 ctx_caller []).
  destruct (release_command_failure_aborts release_exits_7 sample_keys 5
              (sample_deployment "rolling")
              (returned (None, sample_deployment "rolling") run).2
              ctx_caller [] run.2 "rc" 7) as (H1 & H2 & _);
    [lia | vm_compute; reflexivity |].
  eexists _, _. split; [exact H1|]. split; [exact H2|]. vm_compute. reflexivity.
Defined.

(** A restart of machine ["m1"]: its image and its checks stay. *)
Lemma resolveUpdatedMachineConfig_restartOnly_witness :
  ∃ r, resolveUpdatedMachineConfig sample_keys restart_deployment MachineProcessGroupApp
         (Some (sample_machine "m1")) [] = (Done r, [])
       ∧ Image (liConfig (launchInput r)) = "registry.fly.io/sample:1"
       ∧ Checks (liConfig (launchInput r)) = Checks sample_config.
Proof.
  destruct (resolveUpdatedMachineConfig_restartOnly sample_keys restart_deployment
              MachineProcessGroupApp (sample_machine "m1") [])
    as (r & Hrun & _ & Himg & _ & Hchk & _); [reflexivity|].
  exists r. split; [exact Hrun|]. split; [exact Himg | exact Hchk].
Defined.

(** C5 fails on the code: with a release command configured, restart-only
    mode off and no release-command machine yet, [runReleaseCommand] returns
    success at its first test: it writes nothing, asks nothing of the control
    plane and leaves the deployment without a release-command machine.  The
    function that would create the machine is never reached, and would
    dereference a nil machine if it were. *)
Theorem runReleaseCommand_skips_creation (world : World) (K : ApiConstants) (fuel : nat)
    (md : machineDeployment) (ctx : Ctx) (tr : Trace) :
  releaseCommand md ≠ "" →
  restartOnly md = false →
  IsEmpty (releaseCommandMachine md) = true →
  runReleaseCommand world K fuel md ctx tr = (Done (None, md), tr)
  ∧ createReleaseCommandMachine world K md ctx tr
    = (Panicked "invalid memory address or nil pointer dereference", tr).
Proof.
  intros Hcmd Hro Hempty. split.
  - unfold runReleaseCommand. by rewrite Hempty, orb_true_r.
  - unfold createReleaseCommandMachine. rewrite Hempty.
    by rewrite (bool_decide_eq_false_2 _ Hcmd).
Qed.

Lemma runReleaseCommand_skips_creation_witness :
  runReleaseCommand calm sample_keys 5 first_deployment ctx_caller []
    = (Done (None, first_deployment), [])
  ∧ IsEmpty (releaseCommandMachine first_deployment) = true.
Proof.
  split; [|reflexivity].
  apply (runReleaseCommand_skips_creation calm sample_keys 5 first_deployment ctx_caller []).
  - vm_compute. discriminate.
  - reflexivity.
  - reflexivity.
Defined.

(** C6 fails on the code: for every deployment whose set of app machines is
    empty after the release-command phase, [DeployMachinesApp] panics inside
    [createOneMachine], which resolves the configuration of a nil machine,
    and for the process group of the release command, not ["app"]; no
    machine is launched. *)
Theorem createOneMachine_nil_dereference (world : World) (K : ApiConstants) (fuel : nat)
    (md md1 : machineDeployment) (ctx : Ctx) (tr tr1 : Trace) :
  runReleaseCommand world K fuel md ctx tr = (Done (None, md1), tr1) →
  IsEmpty (machineSet_ md1) = true →
  DeployMachinesApp world K fuel md ctx tr
    = (Panicked "invalid memory address or nil pointer dereference",
       tr1 ++ [Ev_Log Stdout "No machines in %s app, launching one new machine" None])
  ∧ calls (tr1 ++ [Ev_Log Stdout "No machines in %s app, launching one new machine" None])
    = calls tr1
  ∧ MachineProcessGroupReleaseCommand ≠ MachineProcessGroupApp.
Proof.
  intros Hrun Hempty. split; [|split].
  - unfold DeployMachinesApp. unfold bind at 1. rewrite Hrun. simpl. by rewrite Hempty.
  - rewrite calls_app. simpl. by rewrite app_nil_r.
  - done.
Qed.

Lemma createOneMachine_nil_dereference_witness :
  DeployMachinesApp calm sample_keys 5 bare_deployment ctx_caller []
    = (Panicked "invalid memory address or nil pointer dereference",
       [Ev_Log Stdout "No machines in %s app, launching one new machine" None]).
Proof.
  apply (createOneMachine_nil_dereference calm sample_keys 5 bare_deployment bare_deployment
           ctx_caller [] []); reflexivity.
Defined.


(** * Further properties *)

(** ** The seconds of a duration *)

Section FloatFacts.

(** A quotient whose scaled value is an integer of 53 bits is not rounded. *)
Lemma round_pos_exact (u i j : Z) :
  0 < u → 0 ≤ i → 0 ≤ j → 2 ^ 52 ≤ u * 2 ^ i < 2 ^ 53 →
  round_pos u (2 ^ j) = {| significand := u * 2 ^ i; exponent := - (i + j) |}.
Proof.
  intros Hu Hi Hj [Hlo Hhi].
  assert (Hi52 : i ≤ 52).
  { destruct (decide (i ≤ 52)) as [|Hn]; [done|].
    assert (2 ^ 53 ≤ 2 ^ i) by (apply Z.pow_le_mono_r; lia). nia. }
  assert (Hlog : Z.log2 u = 52 - i).
  { apply Z.log2_unique; [lia|]. split.
    - apply (Z.mul_le_mono_pos_r _ _ (2 ^ i)); [lia|].
      rewrite <- Z.pow_add_r by lia. replace (52 - i + i) with 52 by lia. done.
    - apply (Z.mul_lt_mono_pos_r (2 ^ i)); [lia|].
      rewrite <- Z.pow_add_r by lia. replace (Z.succ (52 - i) + i) with 53 by lia. done. }
  assert (Hu_lo : 2 ^ (52 - i) ≤ u).
  { rewrite <- Hlog. apply Z.log2_spec. lia. }
  unfold round_pos. rewrite Hlog, Z.log2_pow2 by lia.
  set (k := 52 - i - j).
  assert (Habove :
    (if bool_decide (0 ≤ k) then bool_decide (2 ^ j * 2 ^ k ≤ u)
     else bool_decide (2 ^ j ≤ u * 2 ^ (- k))) = true).
  { case_bool_decide as Hk; apply bool_decide_eq_true.
    - rewrite <- Z.pow_add_r by lia. replace (j + k) with (52 - i) by lia. done.
    - replace j with ((52 - i) + (- k)) at 1 by lia. rewrite Z.pow_add_r by lia.
      apply Z.mul_le_mono_nonneg_r; lia. }
  cbv zeta. rewrite Habove.
  replace (k - 52) with (- (i + j)) by lia.
  destruct (decide (i + j = 0)) as [H0|H0].
  - assert (i = 0) by lia. assert (j = 0) by lia. subst i j. simpl.
    rewrite Z.mul_1_r, Z.div_1_r, Z.mod_1_r. simpl. by rewrite Z.mul_1_r.
  - rewrite (bool_decide_eq_false_2 (0 ≤ - (i + j))) by lia.
    rewrite Z.opp_involutive, Z.pow_add_r, Z.mul_assoc by lia.
    rewrite Z.div_mul, Z.mod_mul by lia.
    rewrite (bool_decide_eq_true_2 (2 * 0 < 2 ^ j)) by lia. done.
Qed.

Lemma round_float64_exact (u i j : Z) :
  u ≠ 0 → 0 ≤ i → 0 ≤ j → 2 ^ 52 ≤ Z.abs u * 2 ^ i < 2 ^ 53 →
  round_float64 u (2 ^ j) = {| significand := u * 2 ^ i; exponent := - (i + j) |}.
Proof.
  intros Hu Hi Hj Hm. unfold round_float64.
  rewrite (bool_decide_eq_false_2 (u = 0)) by done.
  case_bool_decide as Hpos.
  - rewrite Z.abs_eq in Hm by lia. by apply round_pos_exact.
  - rewrite Z.abs_neq in Hm by lia.
    rewrite (round_pos_exact (- u) i j) by (done || lia).
    unfold float64_neg. simpl. f_equal. lia.
Qed.

(** The bits of an integer below 2^53 fit the significand. *)
Lemma significand_fits (k : Z) :
  k ≠ 0 → Z.abs k < 2 ^ 53 →
  0 ≤ 52 - Z.log2 (Z.abs k)
  ∧ 2 ^ 52 ≤ Z.abs k * 2 ^ (52 - Z.log2 (Z.abs k)) < 2 ^ 53.
Proof.
  intros Hk Hlt. set (a := Z.abs k). assert (Ha : 0 < a) by (subst a; lia).
  pose proof (Z.log2_spec a Ha) as [Hlo Hhi]. pose proof (Z.log2_nonneg a) as Hl0.
  assert (Hl : Z.log2 a ≤ 52).
  { destruct (decide (Z.log2 a ≤ 52)) as [|Hn]; [done|].
    assert (2 ^ 53 ≤ 2 ^ Z.log2 a) by (apply Z.pow_le_mono_r; lia). lia. }
  split; [lia|]. split.
  - replace 52 with (Z.log2 a + (52 - Z.log2 a)) at 1 by lia.
    rewrite Z.pow_add_r by lia. apply Z.mul_le_mono_nonneg_r; lia.
  - replace 53 with (Z.succ (Z.log2 a) + (52 - Z.log2 a)) by lia.
    rewrite Z.pow_add_r by lia. apply Z.mul_lt_mono_pos_r; lia.
Qed.

(** For a duration of whole seconds no rounding takes place:
    [int(d.Seconds())] is the number of seconds. *)
Lemma Duration_Seconds_whole (k : Z) :
  Z.abs k < 2 ^ 53 → float64_to_int (Duration_Seconds (k * Second)) = k.
Proof.
  intros Hlt. destruct (decide (k = 0)) as [->|Hk]; [vm_compute; reflexivity|].
  destruct (significand_fits k Hk Hlt) as [Hi Hm].
  set (i := 52 - Z.log2 (Z.abs k)) in *.
  unfold Duration_Seconds. rewrite Z.quot_mul, Z.rem_mul by done. cbv zeta.
  assert (Hzero : float64_div (float64_of_int 0) (float64_of_int 1000000000) = float64_zero)
    by (vm_compute; reflexivity).
  rewrite Hzero.
  assert (Hof : float64_of_int k = {| significand := k * 2 ^ i; exponent := - i |}).
  { unfold float64_of_int. change 1 with (2 ^ 0) at 1.
    rewrite (round_float64_exact k i 0) by (done || lia). f_equal. lia. }
  rewrite Hof.
  assert (Habs : Z.abs (k * 2 ^ i) = Z.abs k * 2 ^ i).
  { rewrite Z.abs_mul. f_equal. apply Z.abs_eq. lia. }
  assert (Hne : k * 2 ^ i ≠ 0) by lia.
  assert (Hadd : float64_add {| significand := k * 2 ^ i; exponent := - i |} float64_zero
                 = {| significand := k * 2 ^ i; exponent := - i |}).
  { unfold float64_add, float64_num, float64_den. simpl.
    rewrite !Z.mul_1_r, Z.add_0_r.
    destruct (decide (i = 0)) as [Hi0|Hi0].
    - rewrite Hi0. simpl. rewrite !Z.mul_1_r.
      rewrite Hi0 in Hm. rewrite Z.mul_1_r in Hm.
      change 1 with (2 ^ 0) at 1.
      rewrite (round_float64_exact k 0 0); [simpl; f_equal; lia|done|lia|lia|].
      by rewrite Z.mul_1_r.
    - rewrite (bool_decide_eq_false_2 (0 ≤ - i)) by lia.
      rewrite Z.opp_involutive.
      rewrite (round_float64_exact (k * 2 ^ i) 0 i); [f_equal; lia|done|lia|lia|].
      by rewrite Z.mul_1_r, Habs. }
  rewrite Hadd. unfold float64_to_int, float64_num, float64_den. simpl.
  destruct (decide (i = 0)) as [Hi0|Hi0].
  - rewrite Hi0. simpl. rewrite !Z.mul_1_r. apply Z.quot_1_r.
  - rewrite (bool_decide_eq_false_2 (0 ≤ - i)) by lia.
    rewrite Z.opp_involutive. apply Z.quot_mul. lia.
Qed.

(** From 2^24 seconds on, a duration just short of a whole second is
    rounded up to it. *)
Lemma Duration_Seconds_rounds_up :
  float64_to_int (Duration_Seconds (16777216 * Second + 999999999)) = 16777217
  ∧ Z.quot (16777216 * Second + 999999999) Second = 16777216.
Proof. split; vm_compute; reflexivity. Qed.

End FloatFacts.



(** ** Leases *)

(** X1: [AcquireLease] never changes the snapshot of the machine and makes at
    most one request.  Either [HasLease] answered true at entry, and then it
    returns success at once, with no request and the lease as it was; or
    [HasLease] answered false, and then it makes exactly one request, the
    lease request for the machine with [int(duration.Seconds())] seconds.
    When it returns an error it made that request and the lease it records
    is the one it had.  For a duration of whole seconds the seconds asked
    for are that number. *)
Theorem AcquireLease_records_only_on_success (world : World) (lm lm' : leasableMachine)
    (ctx : Ctx) (duration : Duration) (tr tr' : Trace) (r : option error) :
  AcquireLease world lm ctx duration tr = (Done (r, lm'), tr') →
  let request :=
    Call_AcquireLease ctx (ID (machine lm)) (float64_to_int (Duration_Seconds duration)) in
  machine lm' = machine lm
  ∧ (HasLease world lm tr = (Done true, tr') ∧ r = None ∧ lm' = lm ∧ calls tr' = calls tr
     ∨ ∃ tr0, HasLease world lm tr = (Done false, tr0)
              ∧ tr' = tr0 ++ [Ev_Call request]
              ∧ calls tr' = calls tr ++ [request])
  ∧ (∀ e, r = Some e → lm' = lm ∧ calls tr' = calls tr ++ [request])
  ∧ (∀ k, duration = k * Second → Z.abs k < 2 ^ 53 →
       request = Call_AcquireLease ctx (ID (machine lm)) k).
Proof.
  intros Hrun request. unfold AcquireLease, bind in Hrun.
  pose proof (HasLease_calls world lm tr) as Hc.
  destruct (HasLease world lm tr) as [[has| |] tr1] eqn:Hhas; simpl in *; try done.
  assert (Hwhole : ∀ k, duration = k * Second → Z.abs k < 2 ^ 53 →
            request = Call_AcquireLease ctx (ID (machine lm)) k).
  { intros k -> Hk. unfold request. by rewrite Duration_Seconds_whole. }
  destruct has.
  - injection Hrun as <- <- <-. split; [done|]. split; [by left|]. split; [by intros e [=]|].
    exact Hwhole.
  - unfold AcquireLease_call in Hrun. simpl in Hrun.
    assert (Hreq : calls (tr1 ++ [Ev_Call request]) = calls tr ++ [request])
      by (rewrite calls_app, Hc; done).
    destruct (flaps_AcquireLease _ _ _ _ _) as [e|lease]; simpl in Hrun.
    { injection Hrun as <- <- <-. split; [done|]. split; [right; by exists tr1|].
      split; [by intros ? _|]. exact Hwhole. }
    case_bool_decide; simpl in Hrun.
    { injection Hrun as <- <- <-. split; [done|]. split; [right; by exists tr1|].
      split; [by intros ? _|]. exact Hwhole. }
    destruct (lsData lease); simpl in Hrun; injection Hrun as <- <- <-.
    + split; [done|]. split; [right; by exists tr1|]. split; [by intros e [=]|].
      exact Hwhole.
    + split; [done|]. split; [right; by exists tr1|]. split; [by intros ? _|].
      exact Hwhole.
Qed.

(** A lease of 16777216.999999999 seconds on a machine whose lease someone
    else holds: the request asks for 16777217 seconds. *)
Lemma AcquireLease_records_only_on_success_witness :
  ∃ e tr',
    AcquireLease lease_m2_taken (NewLeasableMachine (sample_machine "m2")) ctx_caller
      (16777216 * Second + 999999999) []
      = (Done (Some e, NewLeasableMachine (sample_machine "m2")), tr')
    ∧ calls tr' = [Call_AcquireLease ctx_caller "m2" 16777217].
Proof.
  pose (run := AcquireLease lease_m2_taken (NewLeasableMachine (sample_machine "m2"))
                 ctx_caller (16777216 * Second + 999999999) []).
  pose (e := Errorf "did not acquire lease for machine m2 status: error code: lease_held message: held by another").
  destruct (AcquireLease_records_only_on_success lease_m2_taken
              (NewLeasableMachine (sample_machine "m2"))
              (returned (None, NewLeasableMachine (sample_machine "m2")) run).2
              ctx_caller (16777216 * Second + 999999999) [] run.2 (Some e)) as (_ & _ & H & _);
    [vm_compute; reflexivity|].
  destruct (H e eq_refl) as [Hlm Hcalls].
  exists e, run.2. split; [vm_compute; reflexivity|].
  rewrite Hcalls. clear. vm_compute. reflexivity.
Defined.

(** ** Waiting for a state *)

Section WaitFacts.

Variable world : World.

(** Every run of the loop that returns has this shape: a number of answers
    that were errors, none of them a cancellation or a deadline, each
    followed by a sleep, and one last answer. *)
Lemma WaitForState_loop_returns (lm : leasableMachine) (waitCtx : Ctx) (state : string)
    (timeout : Duration) (b : Backoff) (fuel : nat) :
  ∀ (attempt : nat) (tr tr' : Trace) (r : option error),
    WaitForState_loop world fuel lm waitCtx state timeout b attempt tr = (Done r, tr') →
    ∃ n : nat,
      (n < fuel)%nat
      ∧ tr' = waited waitCtx (machine lm) state timeout b attempt n tr
              ++ [Ev_Call (Call_Wait waitCtx (machine lm) state timeout)]
      ∧ (∀ i, (i < n)%nat →
           ∃ e, flaps_Wait world (waited waitCtx (machine lm) state timeout b attempt i tr)
                  waitCtx (machine lm) state timeout = Some e
                ∧ errors_Is e context_Canceled = false
                ∧ errors_Is e context_DeadlineExceeded = false)
      ∧ match r with
        | None =>
            flaps_Wait world (waited waitCtx (machine lm) state timeout b attempt n tr)
              waitCtx (machine lm) state timeout = None
        | Some e =>
            ∃ e0,
              flaps_Wait world (waited waitCtx (machine lm) state timeout b attempt n tr)
                waitCtx (machine lm) state timeout = Some e0
              ∧ (errors_Is e0 context_Canceled = true
                 ∨ errors_Is e0 context_DeadlineExceeded = true)
              ∧ e = (if errors_Is e0 context_Canceled then e0
                     else Errorf_w ("timeout reached waiting for machine to "
                                    +:+ state +:+ " ") e0)
        end.
Proof.
  induction fuel as [|fuel IH]; intros attempt tr tr' r; simpl; [done|].
  unfold bind at 1, Wait_call.
  destruct (flaps_Wait world tr waitCtx (machine lm) state timeout) as [e0|] eqn:Hw; simpl.
  - destruct (errors_Is e0 context_Canceled) eqn:Hc; simpl.
    { intros [= <- <-]. exists 0%nat. simpl. split; [lia|]. split; [done|].
      split; [intros i Hi; lia|]. exists e0. rewrite Hc. split; [done|]. split; [by left|done]. }
    destruct (errors_Is e0 context_DeadlineExceeded) eqn:Hd; simpl.
    { intros [= <- <-]. exists 0%nat. simpl. split; [lia|]. split; [done|].
      split; [intros i Hi; lia|]. exists e0. rewrite Hc. split; [done|]. split; [by right|done]. }
    unfold bind, sleep, emit. simpl. rewrite <- app_assoc. simpl. intros Hrun.
    destruct (IH _ _ _ _ Hrun) as (n & Hn & Htr & Hfail & Hlast).
    exists (S n). simpl. split; [lia|]. split; [done|]. split; [|done].
    intros [|i] Hi; simpl.
    + exists e0. by repeat split.
    + apply Hfail. lia.
  - intros [= <- <-]. exists 0%nat. simpl. split; [lia|]. split; [done|].
    split; [intros i Hi; lia|done].
Qed.

Lemma WaitForState_loop_run (lm : leasableMachine) (waitCtx : Ctx) (state : string)
    (timeout : Duration) (b : Backoff) (n : nat) :
  ∀ (fuel attempt : nat) (tr : Trace),
    (n < fuel)%nat →
    (∀ i, (i < n)%nat →
       ∃ e, flaps_Wait world (waited waitCtx (machine lm) state timeout b attempt i tr)
              waitCtx (machine lm) state timeout = Some e
            ∧ errors_Is e context_Canceled = false
            ∧ errors_Is e context_DeadlineExceeded = false) →
    let tr_n := waited waitCtx (machine lm) state timeout b attempt n tr in
    let call := Ev_Call (Call_Wait waitCtx (machine lm) state timeout) in
    match flaps_Wait world tr_n waitCtx (machine lm) state timeout with
    | None =>
        WaitForState_loop world fuel lm waitCtx state timeout b attempt tr
          = (Done None, tr_n ++ [call])
    | Some e =>
        errors_Is e context_Canceled = true ∨ errors_Is e context_DeadlineExceeded = true →
        WaitForState_loop world fuel lm waitCtx state timeout b attempt tr
          = (Done (Some (if errors_Is e context_Canceled then e
                         else Errorf_w ("timeout reached waiting for machine to "
                                        +:+ state +:+ " ") e)),
             tr_n ++ [call])
    end.
Proof.
  induction n as [|n IH]; intros fuel attempt tr Hfuel Hfail; cbv zeta.
  - destruct fuel as [|fuel]; [lia|]. simpl. unfold bind, Wait_call.
    destruct (flaps_Wait _ _ _ _ _ _) as [e|]; simpl; [|done].
    intros [Hc|Hd].
    + by rewrite Hc.
    + destruct (errors_Is e context_Canceled); [done|]. by rewrite Hd.
  - destruct fuel as [|fuel]; [lia|].
    destruct (Hfail 0%nat) as (e0 & He0 & Hc0 & Hd0); [lia|]. simpl in He0.
    assert (Hstep :
      WaitForState_loop world (S fuel) lm waitCtx state timeout b attempt tr
      = WaitForState_loop world fuel lm waitCtx state timeout b (S attempt)
          (tr ++ [Ev_Call (Call_Wait waitCtx (machine lm) state timeout);
                  Ev_Sleep b attempt])).
    { simpl. unfold bind at 1, Wait_call. rewrite He0. simpl. rewrite Hc0, Hd0.
      unfold bind at 1, sleep, emit. by rewrite <- app_assoc. }
    rewrite Hstep. simpl waited.
    apply (IH fuel (S attempt)); [lia|].
    intros i Hi. apply (Hfail (S i)). lia.
Qed.

End WaitFacts.

(** X2: whenever [WaitForState] returns, its run was this: some number of
    answers of the wait primitive that were errors other than a cancellation
    or a deadline, each slept on and followed by another wait, and then one
    last answer.  It returns success only when that last answer is success,
    and an error only when the last answer is a cancellation, returned as it
    is, or a deadline, returned wrapped: no other error is ever returned,
    and every other error is retried. *)
Theorem WaitForState_fails_only_on_context (world : World) (fuel : nat)
    (lm : leasableMachine) (ctx : Ctx) (desiredState : string) (timeout : Duration)
    (tr tr' : Trace) (r : option error) :
  WaitForState world fuel lm ctx desiredState timeout tr = (Done r, tr') →
  let waitCtx := ctx_WithTimeout ctx timeout in
  let tr_at := fun i => waited waitCtx (machine lm) desiredState timeout stateBackoff 0 i tr in
  ∃ n : nat,
    (n < fuel)%nat
    ∧ tr' = tr_at n ++ [Ev_Call (Call_Wait waitCtx (machine lm) desiredState timeout)]
    ∧ (∀ i, (i < n)%nat →
         ∃ e, flaps_Wait world (tr_at i) waitCtx (machine lm) desiredState timeout = Some e
              ∧ errors_Is e context_Canceled = false
              ∧ errors_Is e context_DeadlineExceeded = false)
    ∧ match r with
      | None => flaps_Wait world (tr_at n) waitCtx (machine lm) desiredState timeout = None
      | Some e =>
          (errors_Is e context_Canceled = true ∨ errors_Is e context_DeadlineExceeded = true)
          ∧ ∃ e0,
              flaps_Wait world (tr_at n) waitCtx (machine lm) desiredState timeout = Some e0
              ∧ (errors_Is e0 context_Canceled = true
                 ∨ errors_Is e0 context_DeadlineExceeded = true)
              ∧ e = (if errors_Is e0 context_Canceled then e0
                     else Errorf_w ("timeout reached waiting for machine to "
                                    +:+ desiredState +:+ " ") e0)
      end.
Proof.
  intros Hrun waitCtx tr_at. unfold WaitForState in Hrun.
  destruct (WaitForState_loop_returns world lm _ _ _ _ _ _ _ _ _ Hrun)
    as (n & Hn & Htr & Hfail & Hlast).
  exists n. split; [done|]. split; [done|]. split; [done|].
  destruct r as [e|]; [|done].
  destruct Hlast as (e0 & Hw & Hctx & ->). split; [|by exists e0].
  destruct (errors_Is e0 context_Canceled) eqn:Hc; [by left|].
  destruct Hctx as [?|Hd]; [done|]. right. simpl. exact Hd.
Qed.

Lemma WaitForState_fails_only_on_context_witness :
  ∃ e tr',
    WaitForState deadline 3 (leased "m1") ctx_caller MachineStateStarted (120 * Second) []
      = (Done (Some e), tr')
    ∧ errors_Is e context_DeadlineExceeded = true
    ∧ calls tr' = [Call_Wait (ctx_WithTimeout ctx_caller (120 * Second))
                     (sample_machine "m1") MachineStateStarted (120 * Second)].
Proof.
  pose (run := WaitForState deadline 3 (leased "m1") ctx_caller MachineStateStarted
                 (120 * Second) []).
  pose (e := Errorf_w "timeout reached waiting for machine to started "
               context_DeadlineExceeded).
  destruct (WaitForState_fails_only_on_context deadline 3 (leased "m1") ctx_caller
              MachineStateStarted (120 * Second) [] run.2 (Some e))
    as (n & Hn & Htr & Hfail & [H|H] & _);
    [vm_compute; reflexivity | discriminate H |].
  exists e, run.2. split; [vm_compute; reflexivity|]. split; [exact H|].
  clear. vm_compute. reflexivity.
Defined.

(** X3: [WaitForState] retries: after [n] failures of the wait primitive that are
    neither a cancellation nor a deadline, each followed by a sleep of the
    backoff (500 ms to 2 s, doubling, jittered), the next answer decides:
    success, the cancellation as it is, or the deadline wrapped. *)
Theorem WaitForState_retries (world : World) (fuel n : nat) (lm : leasableMachine)
    (ctx : Ctx) (desiredState : string) (timeout : Duration) (tr : Trace) :
  let waitCtx := ctx_WithTimeout ctx timeout in
  let tr_at := fun i => waited waitCtx (machine lm) desiredState timeout stateBackoff 0 i tr in
  let call := Ev_Call (Call_Wait waitCtx (machine lm) desiredState timeout) in
  (n < fuel)%nat →
  (∀ i, (i < n)%nat →
     ∃ e, flaps_Wait world (tr_at i) waitCtx (machine lm) desiredState timeout = Some e
          ∧ errors_Is e context_Canceled = false
          ∧ errors_Is e context_DeadlineExceeded = false) →
  match flaps_Wait world (tr_at n) waitCtx (machine lm) desiredState timeout with
  | None =>
      WaitForState world fuel lm ctx desiredState timeout tr = (Done None, tr_at n ++ [call])
  | Some e =>
      errors_Is e context_Canceled = true ∨ errors_Is e context_DeadlineExceeded = true →
      WaitForState world fuel lm ctx desiredState timeout tr
        = (Done (Some (if errors_Is e context_Canceled then e
                       else Errorf_w ("timeout reached waiting for machine to "
                                      +:+ desiredState +:+ " ") e)),
           tr_at n ++ [call])
  end.
Proof.
  intros waitCtx tr_at call Hfuel Hfail.
  apply (WaitForState_loop_run world lm waitCtx desiredState timeout stateBackoff n fuel 0 tr
           Hfuel Hfail).
Qed.

Lemma WaitForState_retries_witness :
  WaitForState wait_fails_twice 5 (leased "m1") ctx_caller MachineStateStarted (120 * Second) []
    = (Done None,
       waited (ctx_WithTimeout ctx_caller (120 * Second)) (machine (leased "m1"))
         MachineStateStarted (120 * Second) stateBackoff 0 2 []
       ++ [Ev_Call (Call_Wait (ctx_WithTimeout ctx_caller (120 * Second))
                      (machine (leased "m1")) MachineStateStarted (120 * Second))]).
Proof.
  pose proof (WaitForState_retries wait_fails_twice 5 2 (leased "m1") ctx_caller
                MachineStateStarted (120 * Second) []) as H.
  cbv beta zeta in H.
  assert (Hlast : flaps_Wait wait_fails_twice
            (waited (ctx_WithTimeout ctx_caller (120 * Second)) (machine (leased "m1"))
               MachineStateStarted (120 * Second) stateBackoff 0 2 [])
            (ctx_WithTimeout ctx_caller (120 * Second)) (machine (leased "m1"))
            MachineStateStarted (120 * Second) = None) by (vm_compute; reflexivity).
  rewrite Hlast in H. apply H.
  - lia.
  - intros i Hi. destruct i as [|[|i]]; [| |lia];
      (exists (FlapsError true "408 timeout"); split; [vm_compute; reflexivity|]; split; reflexivity).
Defined.


(** X4: [WaitForEventTypeAfterType] does not retry a failed [Get] either: the
    first failure ends the wait after that one request, with the
    cancellation as it is and any other error wrapped. *)
Theorem WaitForEventTypeAfterType_no_retry (world : World) (fuel : nat)
    (lm : leasableMachine) (ctx : Ctx) (eventType1 eventType2 : string)
    (timeout : Duration) (tr : Trace) (e : error) :
  let waitCtx := ctx_WithTimeout ctx timeout in
  (0 < fuel)%nat →
  flaps_Get world tr waitCtx (ID (machine lm)) = inl e →
  ∃ e',
    WaitForEventTypeAfterType world fuel lm ctx eventType1 eventType2 timeout tr
      = (Done (inl e'), tr ++ [Ev_Call (Call_Get waitCtx (ID (machine lm)))])
    ∧ (errors_Is e context_Canceled = true → e' = e)
    ∧ (errors_Is e context_Canceled = false → ∃ msg, e' = Errorf_w msg e).
Proof.
  intros waitCtx Hfuel Hget. destruct fuel as [|fuel]; [lia|].
  unfold WaitForEventTypeAfterType. simpl. unfold bind, Get_call. fold waitCtx.
  rewrite Hget. simpl.
  destruct (errors_Is e context_Canceled) eqn:Hc; simpl.
  { exists e. by repeat split. }
  destruct (errors_Is e context_DeadlineExceeded); simpl;
    (eexists; split; [reflexivity|]; split; [done|]; intros _; by eexists).
Qed.

Lemma WaitForEventTypeAfterType_no_retry_witness :
  ∃ e',
    WaitForEventTypeAfterType first_get_fails 5 (leased "m1") ctx_caller "exit" "start"
      (120 * Second) []
      = (Done (inl e'),
         [Ev_Call (Call_Get (ctx_WithTimeout ctx_caller (120 * Second)) "m1")])
    ∧ ∃ msg e, e' = Errorf_w msg e.
Proof.
  pose (e := FlapsError true "503 Service Unavailable").
  destruct (WaitForEventTypeAfterType_no_retry first_get_fails 5 (leased "m1") ctx_caller
              "exit" "start" (120 * Second) [] e) as (e' & Hrun & _ & Hwrap);
    [lia | vm_compute; reflexivity |].
  exists e'. split; [exact Hrun|].
  destruct Hwrap as [msg Hmsg]; [vm_compute; reflexivity|]. by exists msg, e.
Defined.

(** ** The waits only poll *)

Section Polls.

Variable world : World.

Lemma issues_calls_weaken {A} (Q Q' : Call → Prop) (R : A → Prop) (m : M A) :
  (∀ c, Q c → Q' c) → issues Q R m → issues Q' R m.
Proof.
  intros HQ Hm tr. destruct (Hm tr) as (new & Htr & Hok & Hr).
  exists new. split; [done|]. split; [|done].
  eapply Forall_impl; [exact Hok|]. intros [c| | | |]; simpl; auto.
Qed.

Lemma issues_WaitForState_loop (Q : Call → Prop) (lm : leasableMachine) (waitCtx : Ctx)
    (state : string) (timeout : Duration) (b : Backoff) (fuel : nat) :
  Q (Call_Wait waitCtx (machine lm) state timeout) →
  ∀ attempt,
    issues Q (fun _ => True) (WaitForState_loop world fuel lm waitCtx state timeout b attempt).
Proof.
  intros HQ. induction fuel as [|fuel IH]; intros attempt; simpl; [apply issues_out_of_fuel|].
  eapply issues_bind; [by apply issues_Wait_call|]. intros [e|] _; [|by apply issues_ret].
  destruct (errors_Is e context_Canceled); [by apply issues_ret|].
  destruct (errors_Is e context_DeadlineExceeded); [by apply issues_ret|].
  eapply issues_bind; [apply issues_sleep|]. intros _ _. apply IH.
Qed.

Lemma issues_WaitForHealthchecksToPass_loop (Q : Call → Prop) (lm : leasableMachine)
    (waitCtx : Ctx) (b : Backoff) (fuel : nat) :
  Q (Call_Get waitCtx (ID (machine lm))) →
  ∀ attempt,
    issues Q (fun _ => True) (WaitForHealthchecksToPass_loop world fuel lm waitCtx b attempt).
Proof.
  intros HQ. induction fuel as [|fuel IH]; intros attempt; simpl; [apply issues_out_of_fuel|].
  eapply issues_bind; [by apply issues_Get_call|]. intros [e|m] _.
  - destruct (errors_Is e context_Canceled); [by apply issues_ret|].
    destruct (errors_Is e context_DeadlineExceeded); by apply issues_ret.
  - destruct (negb _); [|by apply issues_ret].
    eapply issues_bind; [apply issues_sleep|]. intros _ _. apply IH.
Qed.

Lemma issues_WaitForEventTypeAfterType_loop (Q : Call → Prop) (lm : leasableMachine)
    (waitCtx : Ctx) (t1 t2 : string) (b : Backoff) (fuel : nat) :
  Q (Call_Get waitCtx (ID (machine lm))) →
  ∀ attempt,
    issues Q (fun _ => True)
      (WaitForEventTypeAfterType_loop world fuel lm waitCtx t1 t2 b attempt).
Proof.
  intros HQ. induction fuel as [|fuel IH]; intros attempt; simpl; [apply issues_out_of_fuel|].
  eapply issues_bind; [by apply issues_Get_call|]. intros [e|m] _.
  - destruct (errors_Is e context_Canceled); [by apply issues_ret|].
    destruct (errors_Is e context_DeadlineExceeded); by apply issues_ret.
  - destruct (GetLatestEventOfTypeAfterType _ _ _); [by apply issues_ret|].
    eapply issues_bind; [apply issues_sleep|]. intros _ _. apply IH.
Qed.

End Polls.

(** X5: the three waits only poll: every request of [WaitForState] is the wait
    for the machine's snapshot and the state asked for, every request of
    [WaitForHealthchecksToPass] and of [WaitForEventTypeAfterType] is the
    [Get] of the machine's identifier, each under the context derived from
    the caller's with the timeout; none updates, launches or touches a
    lease. *)
Theorem waits_only_poll (world : World) (fuel : nat) (lm : leasableMachine) (ctx : Ctx)
    (timeout : Duration) :
  let waitCtx := ctx_WithTimeout ctx timeout in
  (∀ state,
     issues (fun c => c = Call_Wait waitCtx (machine lm) state timeout) (fun _ => True)
       (WaitForState world fuel lm ctx state timeout))
  ∧ issues (fun c => c = Call_Get waitCtx (ID (machine lm))) (fun _ => True)
      (WaitForHealthchecksToPass world fuel lm ctx timeout)
  ∧ (∀ eventType1 eventType2,
       issues (fun c => c = Call_Get waitCtx (ID (machine lm))) (fun _ => True)
         (WaitForEventTypeAfterType world fuel lm ctx eventType1 eventType2 timeout)).
Proof.
  intros waitCtx. split; [|split].
  - intros state. unfold WaitForState. by apply issues_WaitForState_loop.
  - unfold WaitForHealthchecksToPass. destruct (Checks _); [|by apply issues_ret].
    by apply issues_WaitForHealthchecksToPass_loop.
  - intros t1 t2. unfold WaitForEventTypeAfterType.
    by apply issues_WaitForEventTypeAfterType_loop.
Qed.


(** ** The fan-out, request by request *)

Section FanoutSpec.

Variable world : World.
Variable f : leasableMachine → M (option error * leasableMachine).
Variable P : leasableMachine → leasableMachine → Prop.
Variable Rr : leasableMachine → option error → Prop.
Variable E : leasableMachine → Event → Prop.

(** The method returns and only appends to the trace; [P] relates the member
    after the call to the member before it, [Rr] holds of the result and [E]
    of every event the call adds. *)
Hypothesis f_spec : ∀ m tr, ∃ r m' new,
  f m tr = (Done (r, m'), tr ++ new) ∧ P m m' ∧ Rr m r ∧ Forall (E m) new.

Lemma fanout_spec (ms0 : list leasableMachine) (n : nat) :
  ∀ (pending : list nat) (ms : list leasableMachine) (results : list (option error))
    (tr : Trace),
    length pending = n → NoDup pending →
    (∀ i, i ∈ pending → (i < length ms0)%nat) →
    (∀ i m0, ms0 !! i = Some m0 →
       ∃ m, ms !! i = Some m ∧ if decide (i ∈ pending) then m = m0 else P m0 m) →
    length ms = length ms0 →
    ∃ results' ms' new,
      fanout world f n pending ms results tr = (Done (results ++ results', ms'), tr ++ new)
      ∧ length ms' = length ms0
      ∧ (∀ i m0, ms0 !! i = Some m0 → ∃ m, ms' !! i = Some m ∧ P m0 m)
      ∧ Forall (fun r => ∃ m, m ∈ ms0 ∧ Rr m r) results'
      ∧ Forall (fun e => ∃ m, m ∈ ms0 ∧ E m e) new.
Proof.
  induction n as [|n IH]; intros pending ms results tr Hlen Hnd Hlt Hinv Hl.
  - apply nil_length_inv in Hlen. subst pending. simpl.
    exists [], ms, []. rewrite !app_nil_r. split; [reflexivity|]. split; [done|].
    split; [|by split]. 
    intros i m0 Hi. destruct (Hinv i m0 Hi) as (m & Hm & HP).
    exists m. split; [done|]. case_decide as Hin; [by apply elem_of_nil in Hin | done].
  - simpl. unfold bind, pick. rewrite Hlen.
    set (k := (sched world tr (S n) mod S n)%nat).
    assert (Hk : (k < length pending)%nat) by (rewrite Hlen; apply Nat.mod_upper_bound; lia).
    destruct (lookup_lt_is_Some_2 pending k Hk) as [i Hi]. rewrite Hi.
    assert (Hin : i ∈ pending) by (eapply list_elem_of_lookup_2; eauto).
    destruct (lookup_lt_is_Some_2 ms0 i (Hlt i Hin)) as [m0 Hm0].
    destruct (Hinv i m0 Hm0) as (m & Hm & Hmeq). rewrite decide_True in Hmeq by done.
    subst m. rewrite Hm.
    destruct (f_spec m0 tr) as (r & m' & new1 & Hf & HP & HR & HE). rewrite Hf. simpl.
    assert (Hm0in : m0 ∈ ms0) by (eapply list_elem_of_lookup_2; eauto).
    destruct (IH (delete k pending) (<[i:=m']> ms) (results ++ [r]) (tr ++ new1))
      as (results' & ms' & new2 & Hrun & Hl' & Hall & Hres & Hnew).
    + rewrite length_delete by eauto. lia.
    + eapply sublist_NoDup; [exact Hnd | apply sublist_delete].
    + intros j Hj. apply Hlt. eapply (elem_of_delete_NoDup k i j pending); eauto.
    + intros j mj Hj. destruct (decide (j = i)) as [->|Hne].
      * exists m'. split.
        -- apply list_lookup_insert_eq. rewrite Hl. eapply lookup_lt_Some; eauto.
        -- rewrite decide_False.
           ++ congruence.
           ++ rewrite (elem_of_delete_NoDup k i i pending) by done. tauto.
      * destruct (Hinv j mj Hj) as (m & Hm' & Hc). exists m. split.
        -- by rewrite list_lookup_insert_ne.
        -- destruct (decide (j ∈ pending)) as [Hjp|Hjp].
           ++ rewrite decide_True; [done|].
              by rewrite (elem_of_delete_NoDup k i j pending).
           ++ rewrite decide_False; [done|].
              rewrite (elem_of_delete_NoDup k i j pending) by done. tauto.
    + by rewrite length_insert.
    + exists (r :: results'), ms', (new1 ++ new2).
      rewrite Hrun, <- !app_assoc. simpl. split; [done|]. split; [done|]. split; [done|].
      split.
      * constructor; [by exists m0|done].
      * apply Forall_app. split; [|done].
        eapply Forall_impl; [exact HE|]. intros e He. by exists m0.
Qed.

Lemma fanout_all_spec (ms : list leasableMachine) (tr : Trace) :
  ∃ results ms' new,
    fanout_all world f ms tr = (Done (results, ms'), tr ++ new)
    ∧ Forall2 P ms ms'
    ∧ Forall (fun r => ∃ m, m ∈ ms ∧ Rr m r) results
    ∧ Forall (fun e => ∃ m, m ∈ ms ∧ E m e) new.
Proof.
  destruct (fanout_spec ms (length ms) (seq 0 (length ms)) ms [] tr)
    as (results & ms' & new & Hrun & Hl & Hall & Hres & Hnew).
  - apply length_seq.
  - apply NoDup_seq.
  - intros i Hi. apply elem_of_seq in Hi. lia.
  - intros i m0 Hi. exists m0. split; [done|]. rewrite decide_True; [done|].
    apply elem_of_seq. apply lookup_lt_Some in Hi. lia.
  - done.
  - exists results, ms', new. split; [done|]. split; [|done].
    apply Forall2_same_length_lookup. split; [done|].
    intros i m0 m Hi Hm. destruct (Hall i m0 Hi) as (m1 & Hm1 & HP). congruence.
Qed.

End FanoutSpec.

(** Each goroutine of the fan-out runs exactly once: for every member there
    is a moment of the run at which the method was called on the member as
    it was given, what it returned is among the results, what it left is the
    member of the set returned, and what it did is part of what the fan-out
    did. *)
Section FanoutEach.

Variable world : World.
Variable f : leasableMachine → M (option error * leasableMachine).

Hypothesis f_returns : ∀ m tr, ∃ r m' new, f m tr = (Done (r, m'), tr ++ new).

Lemma fanout_each_from (ms0 : list leasableMachine) (n : nat) :
  ∀ (pending : list nat) (ms : list leasableMachine) (results : list (option error))
    (tr : Trace),
    length pending = n → NoDup pending →
    (∀ i, i ∈ pending → (i < length ms0)%nat) →
    length ms = length ms0 →
    (∀ i, i ∈ pending → ms !! i = ms0 !! i) →
    ∃ results' ms' total,
      fanout world f n pending ms results tr = (Done (results ++ results', ms'), tr ++ total)
      ∧ length ms' = length ms0
      ∧ (∀ i, i ∉ pending → ms' !! i = ms !! i)
      ∧ (∀ i m0, ms0 !! i = Some m0 → i ∈ pending →
           ∃ r m' t new,
             ms' !! i = Some m' ∧ r ∈ results'
             ∧ f m0 t = (Done (r, m'), t ++ new)
             ∧ ∀ ev, ev ∈ new → ev ∈ total).
Proof.
  induction n as [|n IH]; intros pending ms results tr Hlen Hnd Hlt Hl Hsame.
  - apply nil_length_inv in Hlen. subst pending. simpl.
    exists [], ms, []. rewrite !app_nil_r. split; [reflexivity|]. split; [done|].
    split; [done|]. intros i m0 _ Hin. by apply elem_of_nil in Hin.
  - simpl. unfold bind, pick. rewrite Hlen.
    set (k := (sched world tr (S n) mod S n)%nat).
    assert (Hk : (k < length pending)%nat) by (rewrite Hlen; apply Nat.mod_upper_bound; lia).
    destruct (lookup_lt_is_Some_2 pending k Hk) as [i Hi]. rewrite Hi.
    assert (Hin : i ∈ pending) by (eapply list_elem_of_lookup_2; eauto).
    destruct (lookup_lt_is_Some_2 ms0 i (Hlt i Hin)) as [m0 Hm0].
    rewrite (Hsame i Hin), Hm0.
    destruct (f_returns m0 tr) as (r & m' & new1 & Hf). rewrite Hf. simpl.
    destruct (IH (delete k pending) (<[i:=m']> ms) (results ++ [r]) (tr ++ new1))
      as (results' & ms' & total & Hrun & Hl' & Hout & Heach).
    + rewrite length_delete by eauto. lia.
    + eapply sublist_NoDup; [exact Hnd | apply sublist_delete].
    + intros j Hj. apply Hlt. eapply (elem_of_delete_NoDup k i j pending); eauto.
    + by rewrite length_insert.
    + intros j Hj. apply (elem_of_delete_NoDup k i j pending Hnd Hi) in Hj as [Hj Hne].
      rewrite list_lookup_insert_ne by done. by apply Hsame.
    + assert (Hi_out : i ∉ delete k pending).
      { rewrite (elem_of_delete_NoDup k i i pending Hnd Hi). tauto. }
      exists (r :: results'), ms', (new1 ++ total).
      rewrite Hrun, <- !app_assoc. simpl. split; [done|]. split; [done|]. split.
      * intros j Hj. rewrite Hout.
        -- apply list_lookup_insert_ne. intros ->. by apply Hj.
        -- rewrite (elem_of_delete_NoDup k i j pending Hnd Hi). tauto.
      * intros j mj Hmj Hj. destruct (decide (j = i)) as [->|Hne].
        -- assert (mj = m0) by congruence. subst mj.
           exists r, m', tr, new1. split.
           { rewrite (Hout i Hi_out). apply list_lookup_insert_eq.
             rewrite Hl. eapply lookup_lt_Some; eauto. }
           split; [apply list_elem_of_here|]. split; [done|].
           intros ev Hev. apply elem_of_app. by left.
        -- destruct (Heach j mj Hmj) as (r' & mj' & t & new & Hmj' & Hr' & Hfj & Hsub).
           { rewrite (elem_of_delete_NoDup k i j pending Hnd Hi). done. }
           exists r', mj', t, new. split; [done|]. split; [by apply list_elem_of_further|].
           split; [done|]. intros ev Hev. apply elem_of_app. right. by apply Hsub.
Qed.

Lemma fanout_each (ms : list leasableMachine) (tr : Trace) :
  ∃ results ms' total,
    fanout_all world f ms tr = (Done (results, ms'), tr ++ total)
    ∧ length ms' = length ms
    ∧ ∀ i m0, ms !! i = Some m0 →
        ∃ r m' t new,
          ms' !! i = Some m' ∧ r ∈ results
          ∧ f m0 t = (Done (r, m'), t ++ new)
          ∧ ∀ ev, ev ∈ new → ev ∈ total.
Proof.
  destruct (fanout_each_from ms (length ms) (seq 0 (length ms)) ms [] tr)
    as (results & ms' & total & Hrun & Hl & _ & Heach).
  - apply length_seq.
  - apply NoDup_seq.
  - intros i Hi. apply elem_of_seq in Hi. lia.
  - done.
  - done.
  - exists results, ms', total. split; [done|]. split; [done|].
    intros i m0 Hi. apply (Heach i m0 Hi).
    apply elem_of_seq. apply lookup_lt_Some in Hi. lia.
Qed.

End FanoutEach.

Section SetSpec.

Variable world : World.

(** One release: the member is reset, the result is success or the answer
    of the control plane, and the only request is the release of the
    member's lease under the context given. *)
Lemma ReleaseLease_spec (ctx : Ctx) (m : leasableMachine) (tr : Trace) :
  ∃ r m' new,
    ReleaseLease world m ctx tr = (Done (r, m'), tr ++ new)
    ∧ m' = resetLease m
    ∧ (r = None ∨ ∃ t, r = flaps_ReleaseLease world t ctx (ID (machine m)) (leaseNonce m))
    ∧ Forall (call_ok (fun c => c = Call_ReleaseLease ctx (ID (machine m)) (leaseNonce m))) new.
Proof.
  unfold ReleaseLease, bind. rewrite HasLease_run.
  case_bool_decide; simpl.
  - destruct (time_After _ _); simpl.
    + case_bool_decide; simpl.
      * eexists None, _, [_; _]. rewrite <- app_assoc. simpl.
        split; [reflexivity|]. split; [done|]. split; [by left|]. by repeat constructor.
      *         destruct (flaps_ReleaseLease _ _ _ _ _) as [e|] eqn:Hrel; simpl.
        -- unfold log, emit. simpl.
           eexists (Some e), _, [_; _; _; _]. rewrite <- !app_assoc. simpl.
           split; [reflexivity|]. split; [done|].
           split; [right; eexists; by rewrite Hrel|]. by repeat constructor.
        -- eexists None, _, [_; _; _]. rewrite <- !app_assoc. simpl.
           split; [reflexivity|]. split; [done|]. split; [by left|]. by repeat constructor.
    + eexists None, _, [_].
      split; [reflexivity|]. split; [done|]. split; [by left|]. by repeat constructor.
  - exists None, (resetLease m), []. rewrite app_nil_r.
    split; [reflexivity|]. split; [done|]. split; [by left|]. constructor.
Qed.

(** The collecting loop of [ReleaseLeases] reports no error when it counts
    none of the results. *)
Lemma releaseResults_none (was : bool) (results : list (option error)) :
  Forall (fun err =>
            err = None
            ∨ was = true ∧ (errors_Is_opt err context_DeadlineExceeded = true
                            ∨ errors_Is_opt err context_Canceled = true)) results →
  ∀ tr, releaseResults was results false tr = (Done false, tr).
Proof.
  induction 1 as [|err rest Herr _ IH]; intros tr; simpl; [done|].
  destruct Herr as [->|[-> Hctx]].
  - simpl. apply IH.
  - replace (errors_Is_opt err context_DeadlineExceeded || errors_Is_opt err context_Canceled)
      with true by (destruct Hctx as [-> | ->]; by rewrite ?orb_true_r).
    simpl. rewrite andb_false_r. apply IH.
Qed.

Lemma releaseResults_logs (was : bool) (results : list (option error)) :
  ∀ had tr, ∃ b new,
    releaseResults was results had tr = (Done b, tr ++ new)
    ∧ Forall (fun e => ∀ c, e ≠ Ev_Call c) new.
Proof.
  induction results as [|err rest IH]; intros had tr; simpl.
  - exists had, []. rewrite app_nil_r. by split.
  - destruct (_ && _).
    + unfold bind, log, emit. simpl.
      destruct (IH true (tr ++ [Ev_Log Warn "failed to release lease: %v" err]))
        as (b & new & -> & Hnew).
      eexists b, (_ :: new). rewrite <- app_assoc. split; [done|]. by constructor.
    + apply IH.
Qed.

Lemma acquireResults_logs (results : list (option error)) :
  ∀ had tr, ∃ b new,
    acquireResults results had tr = (Done b, tr ++ new)
    ∧ Forall (fun e => ∀ c, e ≠ Ev_Call c) new
    ∧ (b = true ↔ had = true ∨ ∃ e, Some e ∈ results).
Proof.
  induction results as [|[e|] rest IH]; intros had tr; simpl.
  - exists had, []. rewrite app_nil_r. split; [done|]. split; [done|]. split; [tauto|].
    intros [?|[e He]]; [done|]. by apply elem_of_nil in He.
  - unfold bind, log, emit. simpl.
    destruct (IH true (tr ++ [Ev_Log Warn "failed to acquire lease: %v" (Some e)]))
      as (b & new & -> & Hnew & Hb).
    eexists b, (_ :: new). rewrite <- app_assoc. split; [done|]. split; [by constructor|].
    split.
    + intros _. right. exists e. left.
    + intros _. apply Hb. by left.
  - destruct (IH had tr) as (b & new & -> & Hnew & Hb). exists b, new.
    split; [done|]. split; [done|].
    rewrite Hb. split; (intros [?|[e He]]; [by left|right; exists e]).
    + by right.
    + by apply elem_of_cons in He as [|].
Qed.

Lemma no_call_ok (Q : Call → Prop) (new : Trace) :
  Forall (fun e => ∀ c, e ≠ Ev_Call c) new → Forall (call_ok Q) new.
Proof.
  intros H. eapply Forall_impl; [exact H|].
  intros [c| | | |] Hc; simpl; [|done..]. by destruct (Hc c).
Qed.

Lemma Forall2_resetLease (ms ms' : list leasableMachine) :
  Forall2 (fun m m' => m' = resetLease m) ms ms' → ms' = resetLease <$> ms.
Proof. induction 1 as [|m m' ms ms' -> _ IH]; simpl; [done|]. by rewrite IH. Qed.

(** The body of [ReleaseLeases] once the context for the releases is
    chosen. *)
Lemma ReleaseLeases_body (ms : machineSet) (ctx' : Ctx) (was : bool) (tr : Trace) :
  ∃ r new,
    (r0 <- fanout_all world (fun m => ReleaseLease world m ctx') (machines ms) ;;
     hadError <- releaseResults was r0.1 false ;;
     if hadError then
       ret (Some (Errorf "error releasing leases on machines"), {| machines := r0.2 |})
     else ret (None, {| machines := r0.2 |})) tr
    = (Done (r, {| machines := resetLease <$> machines ms |}), tr ++ new)
    ∧ Forall (call_ok (fun c => ∃ m, m ∈ machines ms
                 ∧ c = Call_ReleaseLease ctx' (ID (machine m)) (leaseNonce m))) new
    ∧ ((∀ t id nonce,
          match flaps_ReleaseLease world t ctx' id nonce with
          | None => True
          | Some e => was = true ∧ (errors_Is e context_DeadlineExceeded = true
                                    ∨ errors_Is e context_Canceled = true)
          end) → r = None).
Proof.
  unfold bind.
  destruct (fanout_all_spec world (fun m => ReleaseLease world m ctx')
              (fun m m' => m' = resetLease m)
              (fun m r => r = None
                          ∨ ∃ t, r = flaps_ReleaseLease world t ctx' (ID (machine m)) (leaseNonce m))
              (fun m => call_ok (fun c => c = Call_ReleaseLease ctx' (ID (machine m)) (leaseNonce m)))
              (ReleaseLease_spec ctx') (machines ms) tr)
    as (results & ms' & new1 & -> & Hall & Hres & Hnew).
  simpl. apply Forall2_resetLease in Hall. subst ms'.
  assert (Hcalls : Forall (call_ok (fun c => ∃ m, m ∈ machines ms
                     ∧ c = Call_ReleaseLease ctx' (ID (machine m)) (leaseNonce m))) new1).
  { eapply Forall_impl; [exact Hnew|]. intros [c| | | |] (m & Hm & Hc); simpl in *; eauto. }
  destruct (releaseResults_logs was results false (tr ++ new1)) as (b & new2 & Hrel & Hlog).
  rewrite Hrel.
  eexists (if b then Some _ else None), (new1 ++ new2). rewrite app_assoc.
  split; [by destruct b|]. split.
  - apply Forall_app. split; [done|]. by apply no_call_ok.
  - intros Hworld. destruct b; [|done].
    rewrite releaseResults_none in Hrel; [by injection Hrel|].
    eapply Forall_impl; [exact Hres|]. intros r (m & _ & [->|[t ->]]); [by left|].
    specialize (Hworld t (ID (machine m)) (leaseNonce m)).
    destruct (flaps_ReleaseLease _ _ _ _ _); [|by left]. right. exact Hworld.
Qed.

Lemma ReleaseLeases_unfold (ms : machineSet) (ctx : Ctx) (tr : Trace) :
  ReleaseLeases world ms ctx tr
  = let was := errors_Is_opt (ctx_Err world tr ctx) context_Canceled in
    let ctx' := if was then ctx_WithTimeout ctx_TODO (500 * Millisecond) else ctx in
    let tr1 := tr ++ Ev_CtxErr ctx (ctx_Err world tr ctx)
                     :: (if was
                         then [Ev_Log Info "detected canceled context and allowing %s to release machine leases" None]
                         else []) in
    (r0 <- fanout_all world (fun m => ReleaseLease world m ctx') (machines ms) ;;
     hadError <- releaseResults was r0.1 false ;;
     if hadError then
       ret (Some (Errorf "error releasing leases on machines"), {| machines := r0.2 |})
     else ret (None, {| machines := r0.2 |})) tr1.
Proof.
  unfold ReleaseLeases. unfold bind at 1. unfold Err_of. cbv zeta.
  destruct (errors_Is_opt (ctx_Err world tr ctx) context_Canceled).
  - unfold bind at 1, log, emit, ret. unfold bind at 1. cbv beta iota.
    by rewrite <- app_assoc.
  - unfold bind at 1, ret. cbv beta iota. reflexivity.
Qed.

(** What one run of [ReleaseLeases] gives. *)
Lemma ReleaseLeases_spec (ms : machineSet) (ctx : Ctx) (tr : Trace) :
  let was := errors_Is_opt (ctx_Err world tr ctx) context_Canceled in
  let ctx' := if was then ctx_WithTimeout ctx_TODO (500 * Millisecond) else ctx in
  ∃ r new,
    ReleaseLeases world ms ctx tr
      = (Done (r, {| machines := resetLease <$> machines ms |}), tr ++ new)
    ∧ Forall (call_ok (fun c => ∃ m, m ∈ machines ms
                 ∧ c = Call_ReleaseLease ctx' (ID (machine m)) (leaseNonce m))) new
    ∧ ((∀ t id nonce,
          match flaps_ReleaseLease world t ctx' id nonce with
          | None => True
          | Some e => was = true ∧ (errors_Is e context_DeadlineExceeded = true
                                    ∨ errors_Is e context_Canceled = true)
          end) → r = None).
Proof.
  intros was ctx'. rewrite ReleaseLeases_unfold. cbv zeta. fold was. fold ctx'.
  destruct (ReleaseLeases_body ms ctx' was
              (tr ++ Ev_CtxErr ctx (ctx_Err world tr ctx)
                  :: (if was
                      then [Ev_Log Info "detected canceled context and allowing %s to release machine leases" None]
                      else [])))
    as (r & new & Hrun & Hnew & Hnone).
  eexists r, (_ :: _ ++ new). rewrite Hrun. split; [|split; [|exact Hnone]].
  - by rewrite <- app_assoc.
  - constructor; [done|]. apply Forall_app. split; [|done]. destruct was; by repeat constructor.
Qed.

End SetSpec.

(** X6: [ReleaseLeases] always returns, and the set it leaves is the set it was
    given with every lease reset.  Every request it issues is the release of
    one member's lease with the nonce that member held, and all of them
    carry the same context: the caller's, or, when the caller's context is
    already canceled at entry, a fresh one of 500 ms. *)
Theorem ReleaseLeases_releases_every_member (world : World) (ms : machineSet) (ctx : Ctx)
    (tr : Trace) :
  let ctx' := if errors_Is_opt (ctx_Err world tr ctx) context_Canceled
              then ctx_WithTimeout ctx_TODO (500 * Millisecond) else ctx in
  ∃ r new,
    ReleaseLeases world ms ctx tr
      = (Done (r, {| machines := resetLease <$> machines ms |}), tr ++ new)
    ∧ Forall (call_ok (fun c => ∃ m, m ∈ machines ms
                 ∧ c = Call_ReleaseLease ctx' (ID (machine m)) (leaseNonce m))) new.
Proof.
  intros ctx'. destruct (ReleaseLeases_spec world ms ctx tr) as (r & new & Hrun & Hnew & _).
  by exists r, new.
Qed.

(** X7: when the caller's context is already canceled, [ReleaseLeases] forgives
    the releases that fail because a context ended: it returns no error when
    every release under the fresh context succeeds or fails with the
    deadline or a cancellation. *)
Theorem ReleaseLeases_forgives_after_cancel (world : World) (ms : machineSet) (ctx : Ctx)
    (tr : Trace) :
  errors_Is_opt (ctx_Err world tr ctx) context_Canceled = true →
  (∀ t id nonce e,
     flaps_ReleaseLease world t (ctx_WithTimeout ctx_TODO (500 * Millisecond)) id nonce = Some e →
     errors_Is e context_DeadlineExceeded = true ∨ errors_Is e context_Canceled = true) →
  ∃ tr',
    ReleaseLeases world ms ctx tr
      = (Done (None, {| machines := resetLease <$> machines ms |}), tr').
Proof.
  intros Hwas Hworld.
  destruct (ReleaseLeases_spec world ms ctx tr) as (r & new & Hrun & _ & Hnone).
  rewrite Hwas in Hnone. rewrite Hrun, Hnone; [by eexists|].
  intros t id nonce. destruct (flaps_ReleaseLease _ _ _ _ _) as [e|] eqn:He; [|done].
  split; [done|]. eapply Hworld, He.
Qed.

Lemma ReleaseLeases_forgives_after_cancel_witness :
  ∃ tr',
    ReleaseLeases canceled {| machines := [leased "m1"; leased "m2"] |} ctx_caller []
      = (Done (None, {| machines := [NewLeasableMachine (sample_machine "m1");
                                     NewLeasableMachine (sample_machine "m2")] |}), tr')
    ∧ calls tr' = [Call_ReleaseLease (ctx_WithTimeout ctx_TODO (500 * Millisecond))
                     "m1" "nonce-m1";
                   Call_ReleaseLease (ctx_WithTimeout ctx_TODO (500 * Millisecond))
                     "m2" "nonce-m2"].
Proof.
  destruct (ReleaseLeases_forgives_after_cancel canceled
              {| machines := [leased "m1"; leased "m2"] |} ctx_caller []) as [tr' Hrun].
  - reflexivity.
  - intros t id nonce e [= <-]. by left.
  - exists tr'. split; [exact Hrun|].
    assert (Htr : tr' = (ReleaseLeases canceled {| machines := [leased "m1"; leased "m2"] |}
                           ctx_caller []).2) by (by rewrite Hrun).
    rewrite Htr. vm_compute. reflexivity.
Defined.

(** X8: when every release the control plane is asked for succeeds,
    [ReleaseLeases] returns no error, whatever leases the members hold and
    whether or not the context is canceled. *)
Theorem ReleaseLeases_succeeds_when_releases_do (world : World) (ms : machineSet) (ctx : Ctx)
    (tr : Trace) :
  (∀ t c id nonce, flaps_ReleaseLease world t c id nonce = None) →
  ∃ tr',
    ReleaseLeases world ms ctx tr
      = (Done (None, {| machines := resetLease <$> machines ms |}), tr').
Proof.
  intros Hworld.
  destruct (ReleaseLeases_spec world ms ctx tr) as (r & new & Hrun & _ & Hnone).
  rewrite Hrun, Hnone; [by eexists|]. intros t id nonce. by rewrite Hworld.
Qed.

Lemma ReleaseLeases_succeeds_when_releases_do_witness :
  ∃ tr',
    ReleaseLeases calm {| machines := [leased "m1"; stale "m2"] |} ctx_caller []
      = (Done (None, {| machines := [NewLeasableMachine (sample_machine "m1");
                                     NewLeasableMachine (sample_machine "m2")] |}), tr').
Proof.
  destruct (ReleaseLeases_succeeds_when_releases_do calm
              {| machines := [leased "m1"; stale "m2"] |} ctx_caller []) as [tr' Hrun].
  - reflexivity.
  - exists tr'. exact Hrun.
Defined.


Section AcquireSpec.

Variable world : World.

(** One acquisition: the snapshot is kept, the lease is the one the member
    had or the one the control plane granted, and the only request is the
    lease request for the member. *)
Lemma AcquireLease_spec (ctx : Ctx) (d : Duration) (m : leasableMachine) (tr : Trace) :
  ∃ r m' new,
    AcquireLease world m ctx d tr = (Done (r, m'), tr ++ new)
    ∧ (m' = m
       ∨ ∃ t lease data,
           flaps_AcquireLease world t ctx (ID (machine m)) (float64_to_int (Duration_Seconds d)) = inr lease
           ∧ lsStatus lease = "success" ∧ lsData lease = Some data
           ∧ m' = {| machine := machine m; leaseNonce := Nonce data;
                     leaseExpiration := time_Unix (ExpiresAt data) |})
    ∧ True
    ∧ Forall (call_ok (fun c => c = Call_AcquireLease ctx (ID (machine m))
                                      (float64_to_int (Duration_Seconds d)))) new.
Proof.
  assert (Hreq : ∀ tr1, ∃ r m' new,
    (r0 <- AcquireLease_call world ctx (ID (machine m)) (float64_to_int (Duration_Seconds d)) ;;
     match r0 with
     | inl err => ret (Some err, m)
     | inr lease =>
         if bool_decide (lsStatus lease ≠ "success") then
           ret (Some (Errorf ("did not acquire lease for machine " +:+ ID (machine m)
                              +:+ " status: " +:+ lsStatus lease
                              +:+ " code: " +:+ lsCode lease
                              +:+ " message: " +:+ lsMessage lease)), m)
         else
           match lsData lease with
           | None =>
               ret (Some (Errorf ("missing data from lease response for machine "
                                  +:+ ID (machine m)
                                  +:+ ", assuming not successful")), m)
           | Some data =>
               ret (None, {| machine := machine m;
                             leaseNonce := Nonce data;
                             leaseExpiration := time_Unix (ExpiresAt data) |})
           end
     end) tr1 = (Done (r, m'), tr1 ++ new)
    ∧ (m' = m
       ∨ ∃ t lease data,
           flaps_AcquireLease world t ctx (ID (machine m)) (float64_to_int (Duration_Seconds d)) = inr lease
           ∧ lsStatus lease = "success" ∧ lsData lease = Some data
           ∧ m' = {| machine := machine m; leaseNonce := Nonce data;
                     leaseExpiration := time_Unix (ExpiresAt data) |})
    ∧ new = [Ev_Call (Call_AcquireLease ctx (ID (machine m)) (float64_to_int (Duration_Seconds d)))]).
  { intros tr1. unfold bind, AcquireLease_call.
    destruct (flaps_AcquireLease _ _ _ _ _) as [e|lease] eqn:Hl; simpl.
    { eexists _, _, _. split; [reflexivity|]. split; [by left|done]. }
    case_bool_decide as Hs; simpl.
    { eexists _, _, _. split; [reflexivity|]. split; [by left|done]. }
    destruct (lsData lease) as [data|] eqn:Hd; simpl.
    - eexists _, _, _. split; [reflexivity|]. split; [|done].
      right. exists tr1, lease, data. split; [done|]. split; [|done].
      destruct (decide (lsStatus lease = "success")); [done|]. by destruct Hs.
    - eexists _, _, _. split; [reflexivity|]. split; [by left|done]. }
  unfold AcquireLease. unfold bind at 1. rewrite HasLease_run.
  case_bool_decide; simpl.
  - destruct (time_After _ _); simpl.
    + eexists None, m, [_]. split; [reflexivity|]. split; [by left|].
      split; [done|]. by repeat constructor.
    + destruct (Hreq (tr ++ [Ev_Now (time_Now world tr)])) as (r & m' & new & Hrun & Hm & ->).
      exists r, m'. eexists [_; _]. rewrite Hrun, <- app_assoc.
      split; [done|]. split; [done|]. split; [done|]. by repeat constructor.
  - destruct (Hreq tr) as (r & m' & new & Hrun & Hm & ->).
    exists r, m'. eexists [_]. rewrite Hrun.
    split; [done|]. split; [done|]. split; [done|]. by repeat constructor.
Qed.

(** A successful acquisition: the member held a lease and is left as it
    was, or the control plane granted one and it is recorded. *)
Lemma AcquireLease_success (ctx : Ctx) (d : Duration) (m m' : leasableMachine)
    (t t' : Trace) :
  AcquireLease world m ctx d t = (Done (None, m'), t') →
  (m' = m ∧ HasLease world m t = (Done true, t'))
  ∨ ∃ t0 lease data,
      HasLease world m t = (Done false, t0)
      ∧ flaps_AcquireLease world t0 ctx (ID (machine m))
          (float64_to_int (Duration_Seconds d)) = inr lease
      ∧ lsStatus lease = "success" ∧ lsData lease = Some data
      ∧ m' = {| machine := machine m; leaseNonce := Nonce data;
                leaseExpiration := time_Unix (ExpiresAt data) |}.
Proof.
  unfold AcquireLease, bind.
  destruct (HasLease world m t) as [[has| |] t0] eqn:Hhas; simpl; try done.
  destruct has; simpl.
  - intros [= <- <-]. by left.
  - unfold AcquireLease_call. simpl.
    destruct (flaps_AcquireLease _ _ _ _ _) as [e|lease] eqn:Hl; simpl; [done|].
    case_bool_decide as Hs; simpl; [done|].
    destruct (lsData lease) as [data|] eqn:Hd; simpl; [|done].
    intros [= <- <-]. right. exists t0, lease, data. split; [done|]. split; [done|].
    split; [|done]. destruct (decide (lsStatus lease = "success")); [done|]. by destruct Hs.
Qed.

End AcquireSpec.

Lemma AcquireLease_appends (world : World) (ctx : Ctx) (duration : Duration)
    (m : leasableMachine) (tr : Trace) :
  ∃ r m' new, AcquireLease world m ctx duration tr = (Done (r, m'), tr ++ new).
Proof.
  destruct (AcquireLease_spec world ctx duration m tr) as (r & m' & new & Hrun & _). eauto.
Qed.

(** X9: when [AcquireLeases] returns no error it has released nothing: every
    request it made is the lease request for one member, for
    [int(duration.Seconds())] seconds.  In the set it returns every member
    is in its place, and either it is as it was given and [HasLease]
    answered true for it at its turn, or it records the nonce and the
    expiration of a lease that the control plane granted for its machine. *)
Theorem AcquireLeases_success_keeps_leases (world : World) (ms ms' : machineSet) (ctx : Ctx)
    (duration : Duration) (tr tr' : Trace) :
  AcquireLeases world ms ctx duration tr = (Done (None, ms'), tr') →
  let seconds := float64_to_int (Duration_Seconds duration) in
  ∃ new,
    tr' = tr ++ new
    ∧ Forall (call_ok (fun c => ∃ m, m ∈ machines ms
                 ∧ c = Call_AcquireLease ctx (ID (machine m)) seconds)) new
    ∧ Forall2 (fun m m' =>
                 (m' = m ∧ ∃ t t', HasLease world m t = (Done true, t'))
                 ∨ ∃ t lease data,
                     flaps_AcquireLease world t ctx (ID (machine m)) seconds = inr lease
                     ∧ lsStatus lease = "success" ∧ lsData lease = Some data
                     ∧ m' = {| machine := machine m; leaseNonce := Nonce data;
                               leaseExpiration := time_Unix (ExpiresAt data) |})
        (machines ms) (machines ms').
Proof.
  intros Hrun seconds. revert Hrun.
  unfold AcquireLeases. unfold bind at 1.
  destruct (fanout_all_spec world (fun m => AcquireLease world m ctx duration) _
              (fun _ _ => True) _ (fun m tr => AcquireLease_spec world ctx duration m tr)
              (machines ms) tr)
    as (results & ms1 & new1 & Hfan & _ & _ & Hnew).
  destruct (fanout_each world (fun m => AcquireLease world m ctx duration)
              (AcquireLease_appends world ctx duration)
              (machines ms) tr)
    as (results' & ms1' & total & Hfan' & Hlen & Heach).
  rewrite Hfan in Hfan'. injection Hfan' as <- <- _.
  rewrite Hfan. unfold bind at 1. simpl.
  destruct (acquireResults_logs results false (tr ++ new1))
    as (b & new2 & -> & Hlog & Hb).
  destruct b.
  - unfold bind at 1.
    destruct (ReleaseLeases_spec world {| machines := ms1 |} ctx ((tr ++ new1) ++ new2))
      as (r & new3 & -> & _).
    unfold bind. destruct r; simpl; discriminate.
  - intros [= <- <-]. exists (new1 ++ new2). rewrite app_assoc. split; [done|].
    split.
    { apply Forall_app. split; [|by apply no_call_ok].
      eapply Forall_impl; [exact Hnew|].
      intros [c| | | |] (m & Hm & Hc); simpl in *; eauto. }
    assert (Hnone : ∀ r, r ∈ results → r = None).
    { intros [e|] Hr; [|done]. assert (false = true); [|done].
      apply Hb. right. by exists e. }
    simpl. apply Forall2_same_length_lookup. split; [done|].
    intros i m m' Hi Hi'.
    destruct (Heach i m Hi) as (r & m1 & t & new & Hm1 & Hr & Hf & _).
    assert (m1 = m') by congruence. subst m1.
    rewrite (Hnone r Hr) in Hf.
    destruct (AcquireLease_success world ctx duration m m' t _ Hf)
      as [[-> Hheld]|(t0 & lease & data & _ & Hl & Hs & Hd & ->)].
    + left. split; [done|]. by eexists _, _.
    + right. by exists t0, lease, data.
Qed.

(** In [calm] a member that holds a lease is left alone and a member
    without one is granted a lease: one request. *)
Lemma AcquireLeases_success_keeps_leases_witness :
  ∃ ms' tr',
    AcquireLeases calm {| machines := [leased "m1";
                                       NewLeasableMachine (sample_machine "m2")] |}
      ctx_caller (30 * Minute) [] = (Done (None, ms'), tr')
    ∧ calls tr' = [Call_AcquireLease ctx_caller "m2" 1800]
    ∧ leaseNonce <$> machines ms' = ["nonce-m1"; "nonce-m2"].
Proof.
  pose (ms := {| machines := [leased "m1"; NewLeasableMachine (sample_machine "m2")] |}).
  pose (run := AcquireLeases calm ms ctx_caller (30 * Minute) []).
  destruct (AcquireLeases_success_keeps_leases calm ms (returned (None, ms) run).2
              ctx_caller (30 * Minute) [] run.2) as (new & Hnew & _);
    [vm_compute; reflexivity|].
  exists (returned (None, ms) run).2, run.2.
  clear Hnew. repeat split; vm_compute; reflexivity.
Defined.


(** ** All or nothing *)

Section AllOrNothing.

Variable world : World.

Lemma ReleaseLease_appends (ctx : Ctx) (m : leasableMachine) (tr : Trace) :
  ∃ r m' new, ReleaseLease world m ctx tr = (Done (r, m'), tr ++ new).
Proof.
  destruct (ReleaseLease_spec world ctx m tr) as (r & m' & new & Hrun & _). eauto.
Qed.

(** A release of a lease that is recorded and does not run out while the
    call lasts goes to the control plane. *)
Lemma ReleaseLease_requests (ctx : Ctx) (m m' : leasableMachine) (t new : Trace)
    (r : option error) :
  leaseNonce m ≠ "" →
  (∀ t, time_Now world t < leaseExpiration m) →
  ReleaseLease world m ctx t = (Done (r, m'), t ++ new) →
  Ev_Call (Call_ReleaseLease ctx (ID (machine m)) (leaseNonce m)) ∈ new.
Proof.
  intros Hnonce Hlive. unfold ReleaseLease, bind. rewrite HasLease_run.
  rewrite (bool_decide_eq_true_2 _ Hnonce). simpl.
  unfold time_After. rewrite (bool_decide_eq_true_2 _ (Hlive t)). simpl.
  rewrite bool_decide_eq_false_2.
  2:{ rewrite time_Sub_gt_5s.
      pose proof (Hlive (t ++ [Ev_Now (time_Now world t)])). unfold Second. lia. }
  unfold ReleaseLease_call, log, emit. simpl.
  destruct (flaps_ReleaseLease _ _ _ _ _); simpl; rewrite <- !app_assoc; simpl;
    intros [= _ _ Hnew]; apply app_inv_head in Hnew; subst new;
    apply list_elem_of_further, list_elem_of_further, list_elem_of_here.
Qed.

(** [ReleaseLeases] sends a release request for every member whose lease is
    recorded and does not run out meanwhile. *)
Lemma ReleaseLeases_requests_live (ms ms2 : machineSet) (ctx : Ctx) (tr tr3 : Trace)
    (rerr : option error) (m : leasableMachine) :
  ReleaseLeases world ms ctx tr = (Done (rerr, ms2), tr3) →
  m ∈ machines ms → leaseNonce m ≠ "" →
  (∀ t, time_Now world t < leaseExpiration m) →
  Call_ReleaseLease
    (if errors_Is_opt (ctx_Err world tr ctx) context_Canceled
     then ctx_WithTimeout ctx_TODO (500 * Millisecond) else ctx)
    (ID (machine m)) (leaseNonce m) ∈ calls (drop (length tr) tr3).
Proof.
  intros Hrun Hm Hnonce Hlive. rewrite ReleaseLeases_unfold in Hrun. cbv zeta in Hrun.
  revert Hrun. set (was := errors_Is_opt _ _). set (ctx' := if was then _ else ctx).
  set (pre := Ev_CtxErr ctx (ctx_Err world tr ctx) :: _).
  unfold bind at 1.
  destruct (fanout_each world (fun m => ReleaseLease world m ctx')
              (ReleaseLease_appends ctx') (machines ms) (tr ++ pre))
    as (results & ms' & total & -> & _ & Heach).
  unfold bind at 1. simpl.
  destruct (releaseResults_logs was results false ((tr ++ pre) ++ total))
    as (b & new2 & -> & _).
  apply list_elem_of_lookup in Hm as [i Hi].
  destruct (Heach i m Hi) as (r & m' & t & new & _ & _ & Hf & Hsub).
  pose proof (ReleaseLease_requests ctx' m m' t new r Hnonce Hlive Hf) as Hcall.
  apply Hsub in Hcall.
  assert (Hin : Call_ReleaseLease ctx' (ID (machine m)) (leaseNonce m)
                ∈ calls (drop (length tr) (((tr ++ pre) ++ total) ++ new2))).
  { rewrite <- !app_assoc, drop_app_length, !calls_app.
    apply elem_of_app. right. apply elem_of_app. left.
    unfold calls. apply list_elem_of_omap.
    exists (Ev_Call (Call_ReleaseLease ctx' (ID (machine m)) (leaseNonce m))). by split. }
  destruct b; simpl; intros [= _ _ <-]; exact Hin.
Qed.

End AllOrNothing.

(** C2: when the results of the fan-out of [AcquireLease] over the members
    hold an error, [AcquireLeases] writes the warnings, runs [ReleaseLeases]
    on the whole set as the fan-out left it, members that obtained a lease
    included, and returns an error: its run is the fan-out, the warnings,
    the run of [ReleaseLeases] from there, and the warning about a failed
    release when there is one.  Every member of the set whose lease is
    recorded and does not run out meanwhile is sent a release request.  The
    set it leaves is that set with every lease reset: the same machines in
    the same places, and no member holds a lease: the nonce is empty, the
    expiration is the zero time, and [HasLease] answers false in every world
    at every moment. *)
Theorem AcquireLeases_all_or_nothing (world : World) (ms : machineSet) (ctx : Ctx)
    (duration : Duration) (tr tr1 : Trace) (results : list (option error))
    (ms1 : list leasableMachine) :
  fanout_all world (fun m => AcquireLease world m ctx duration) (machines ms) tr
    = (Done (results, ms1), tr1) →
  (∃ e, Some e ∈ results) →
  ∃ (tr2 tr3 : Trace) (rerr : option error) (ms2 : machineSet),
    acquireResults results false tr1 = (Done true, tr2)
    ∧ ReleaseLeases world {| machines := ms1 |} ctx tr2 = (Done (rerr, ms2), tr3)
    ∧ AcquireLeases world ms ctx duration tr
      = (Done (Some (Errorf "error acquiring leases on all machines"), ms2),
         tr3 ++ match rerr with
                | Some e => [Ev_Log Warn "error releasing machine leases: %v" (Some e)]
                | None => []
                end)
    ∧ machine <$> ms1 = machine <$> machines ms
    ∧ machines ms2 = resetLease <$> ms1
    ∧ (∀ m, m ∈ ms1 → leaseNonce m ≠ "" →
         (∀ t, time_Now world t < leaseExpiration m) →
         Call_ReleaseLease
           (if errors_Is_opt (ctx_Err world tr2 ctx) context_Canceled
            then ctx_WithTimeout ctx_TODO (500 * Millisecond) else ctx)
           (ID (machine m)) (leaseNonce m) ∈ calls (drop (length tr2) tr3))
    ∧ machine <$> machines ms2 = machine <$> machines ms
    ∧ Forall (fun m => leaseNonce m = "" ∧ leaseExpiration m = time_zero
                       ∧ ∀ (w : World) (t : Trace), HasLease w m t = (Done false, t))
             (machines ms2).
Proof.
  intros Hfan Hfail.
  destruct (acquireResults_run results false tr1) as (b & tr2 & Hacq & Hb).
  assert (b = true) as -> by (apply Hb; by right).
  destruct (ReleaseLeases_spec world {| machines := ms1 |} ctx tr2)
    as (rerr & new & Hrel & _). simpl in Hrel.
  destruct (fanout_all_run world (fun m => AcquireLease world m ctx duration)
              (fun m m' => machine m' = machine m) (AcquireLease_returns world ctx duration)
              (machines ms) tr) as (results' & ms1' & tr1' & Hfan' & Hsame & _).
  rewrite Hfan in Hfan'. injection Hfan' as <- <- <-.
  assert (Hmachines : machine <$> ms1 = machine <$> machines ms).
  { clear -Hsame. induction Hsame as [|m m1 l l1 Hm _ IH]; [done|].
    rewrite !fmap_cons. by f_equal. }
  exists tr2, (tr2 ++ new), rerr, {| machines := resetLease <$> ms1 |}.
  split; [done|]. split; [done|]. split.
  { unfold AcquireLeases, bind. rewrite Hfan. simpl. rewrite Hacq, Hrel. simpl.
    destruct rerr; unfold log, emit, ret; simpl; [done|]. by rewrite app_nil_r. }
  split; [done|]. split; [done|]. split.
  { intros m Hm Hnonce Hlive.
    apply (ReleaseLeases_requests_live world {| machines := ms1 |} _ ctx tr2 _ rerr m Hrel);
      done. }
  split.
  { simpl. rewrite <- list_fmap_compose. exact Hmachines. }
  simpl. apply Forall_fmap, Forall_true. intros m. done.
Qed.

(** Three machines, the lease on the second held by someone else; the
    scheduler runs the last goroutine first.  The three lease requests are
    followed by the release of the two leases that were granted. *)
Lemma AcquireLeases_all_or_nothing_witness :
  ∃ ms2 tr4,
    AcquireLeases lease_m2_taken (machineSet_ (sample_deployment "rolling")) ctx_caller
      (30 * Minute) []
      = (Done (Some (Errorf "error acquiring leases on all machines"), ms2), tr4)
    ∧ calls tr4 = [Call_AcquireLease ctx_caller "m3" 1800;
                   Call_AcquireLease ctx_caller "m2" 1800;
                   Call_AcquireLease ctx_caller "m1" 1800;
                   Call_ReleaseLease ctx_caller "m3" "nonce-m3";
                   Call_ReleaseLease ctx_caller "m1" "nonce-m1"]
    ∧ Forall (fun m => leaseNonce m = "") (machines ms2)
    ∧ length (machines ms2) = 3%nat.
Proof.
  pose (run := fanout_all lease_m2_taken
                 (fun m => AcquireLease lease_m2_taken m ctx_caller (30 * Minute))
                 (machines (machineSet_ (sample_deployment "rolling"))) []).
  destruct (AcquireLeases_all_or_nothing lease_m2_taken
              (machineSet_ (sample_deployment "rolling")) ctx_caller (30 * Minute) []
              run.2 (returned ([], []) run).1 (returned ([], []) run).2)
    as (tr2 & tr3 & rerr & ms2 & _ & _ & Hrun & _ & _ & _ & Hm & Hall).
  - vm_compute. reflexivity.
  - exists (Errorf "did not acquire lease for machine m2 status: error code: lease_held message: held by another").
    vm_compute. apply list_elem_of_further, list_elem_of_here.
  - eexists ms2, _. split; [exact Hrun|]. split.
    + assert (Htr : tr3 ++ match rerr with
                            | Some e => [Ev_Log Warn "error releasing machine leases: %v" (Some e)]
                            | None => []
                            end
                    = (AcquireLeases lease_m2_taken (machineSet_ (sample_deployment "rolling"))
                         ctx_caller (30 * Minute) []).2) by (by rewrite Hrun).
      rewrite Htr. clear. vm_compute. reflexivity.
    + split.
      * eapply Forall_impl; [exact Hall|]. by intros m (? & _).
      * apply (f_equal length) in Hm. by rewrite !length_fmap in Hm.
Defined.


(** ** Volumes *)

Lemma validateMachineVolume_None (md : machineDeployment) (m : leasableMachine) :
  validateMachineVolume md m = None ↔ volume_ok md m.
Proof.
  unfold validateMachineVolume, volume_ok. cbv zeta.
  destruct (default [] (Mounts (Config (machine m)))) as [|mount [|mount' rest]]; simpl.
  - case_bool_decide as Hv; by split.
  - destruct (decide (volumeName md = "")) as [Hv|Hv].
    + rewrite (bool_decide_eq_true_2 _ Hv). split; [done|]. by intros [? _].
    + rewrite (bool_decide_eq_false_2 _ Hv).
      destruct (decide (volumeName md = mntName mount)) as [Hn|Hn].
      * rewrite (bool_decide_eq_false_2 (volumeName md ≠ mntName mount))
          by (intros H; by apply H).
        split; [done|]. intros _. by split.
      * rewrite (bool_decide_eq_true_2 _ Hn). split; [done|]. intros [_ Heq]. by destruct Hn.
  - done.
Qed.

(** X10: [validateVolumeConfig] accepts a deployment exactly when every machine
    of its set has the mounts fly.toml asks for: none when no volume is
    named, else one mount and of a volume with the name given. *)
Theorem validateVolumeConfig_accepts_iff (md : machineDeployment) :
  validateVolumeConfig md = None ↔ Forall (volume_ok md) (machines (machineSet_ md)).
Proof.
  unfold validateVolumeConfig, IsEmpty, GetMachines.
  case_bool_decide as Hlen.
  { apply nil_length_inv in Hlen. rewrite Hlen. split; [constructor|done]. }
  clear Hlen. induction (machines (machineSet_ md)) as [|m rest IH]; simpl.
  - split; [constructor|done].
  - rewrite Forall_cons, <- IH, <- validateMachineVolume_None.
    destruct (validateMachineVolume md m); split; try done; [by intros [? _]|by intros [_ ?]].
Qed.

(** X11: [validateVolumeConfig] reports the first machine, in the order of the
    set, that does not have the mounts fly.toml asks for: the machines
    before it are in order, and the error is that machine's. *)
Theorem validateVolumeConfig_first_offender (md : machineDeployment) (e : error) :
  validateVolumeConfig md = Some e →
  ∃ before m after,
    machines (machineSet_ md) = before ++ m :: after
    ∧ Forall (volume_ok md) before
    ∧ ¬ volume_ok md m
    ∧ validateMachineVolume md m = Some e.
Proof.
  unfold validateVolumeConfig, IsEmpty, GetMachines.
  case_bool_decide as Hlen; [done|]. clear Hlen.
  induction (machines (machineSet_ md)) as [|m rest IH]; simpl; [done|].
  destruct (validateMachineVolume md m) as [e0|] eqn:Hm.
  - intros [= ->]. exists [], m, rest. split; [done|]. split; [constructor|].
    split; [|done]. rewrite <- validateMachineVolume_None. by rewrite Hm.
  - intros Hrest. destruct (IH Hrest) as (before & m' & after & -> & Hb & Hm' & He).
    exists (m :: before), m', after. split; [done|]. split; [|done].
    constructor; [|done]. by apply validateMachineVolume_None.
Qed.

Lemma validateVolumeConfig_first_offender_witness :
  ∃ before after,
    machines (machineSet_ (with_machineSet volume_deployment
                (NewMachineSet [mounted_machine "m1" "vol_1" "data" "/data";
                                mounted_machine "m2" "vol_2" "cache" "/data";
                                sample_machine "m3"])))
      = before ++ NewLeasableMachine (mounted_machine "m2" "vol_2" "cache" "/data") :: after.
Proof.
  pose (md := with_machineSet volume_deployment
                (NewMachineSet [mounted_machine "m1" "vol_1" "data" "/data";
                                mounted_machine "m2" "vol_2" "cache" "/data";
                                sample_machine "m3"])).
  destruct (validateVolumeConfig_first_offender md
              (Errorf "error machine m2 has volume with name cache and fly.toml has [mounts] source set to data; update the source to cache or use the machines API to attach a volume with name data to this machine"))
    as (before & m & after & Hms & Hb & _ & He); [vm_compute; reflexivity|].
  exists before, after. fold md. rewrite Hms. do 2 f_equal.
  destruct before as [|m1 [|m2 before]].
  - simpl in Hms. injection Hms as <- _.  vm_compute in He. discriminate He.
  - simpl in Hms. by injection Hms as _ <- _.
  - simpl in Hms. injection Hms as _ <- _.
    apply Forall_cons in Hb as [_ Hb]. apply Forall_cons in Hb as [Hbad _].
    apply validateMachineVolume_None in Hbad. vm_compute in Hbad. discriminate Hbad.
Defined.


(** ** The configuration of a full deployment *)

Section ResolveSpec.

Variable K : ApiConstants.

Lemma defaultMachineMetadata_platform (md : machineDeployment) (pg k : string) :
  isFlyAppsPlatformMetadata K k = false → defaultMachineMetadata K md pg !! k = None.
Proof.
  intros Hk. destruct (defaultMachineMetadata K md pg !! k) as [v|] eqn:Hv; [|done].
  pose proof (isFlyAppsPlatformMetadata_default K md pg k v Hv) as Hp. simpl in Hp.
  congruence.
Qed.

Lemma copyUserMetadata_lookup (src dst : gmap string string) (k : string) :
  copyUserMetadata K src dst !! k
  = if isFlyAppsPlatformMetadata K k then dst !! k
    else match src !! k with Some v => Some v | None => dst !! k end.
Proof.
  unfold copyUserMetadata. rewrite lookup_union.
  destruct (isFlyAppsPlatformMetadata K k) eqn:Hk.
  - rewrite (proj2 (map_lookup_filter_None _ src k)).
    + by destruct (dst !! k).
    + right. intros v _. simpl. by rewrite Hk.
  - destruct (src !! k) as [v|] eqn:Hs.
    + rewrite (map_lookup_filter_Some_2 _ src k v Hs) by done. by destruct (dst !! k).
    + rewrite (proj2 (map_lookup_filter_None _ src k)) by (by left). by destruct (dst !! k).
Qed.

(** The run of [resolveUpdatedMachineConfig] outside restart-only mode,
    field by field. *)
Lemma resolve_full_run (md : machineDeployment) (pg : string) (orig : Machine) (tr : Trace) :
  restartOnly md = false →
  let app_env := default ∅ (cfgEnv (appConfig md)) in
  let env :=
    if bool_decide (map_get (Some app_env) "PRIMARY_REGION" = "")
       && bool_decide (map_get (Env (Config orig)) "PRIMARY_REGION" ≠ "")
    then <["PRIMARY_REGION" := map_get (Env (Config orig)) "PRIMARY_REGION"]> app_env
    else app_env in
  let moved :=
    match Mounts (Config orig) with
    | Some [currentMount] => bool_decide (Path currentMount ≠ volumeDestination md)
    | _ => false
    end in
  let mounts :=
    if moved then
      fmap (M := list)
           (fun m => {| Volume := Volume m; Path := volumeDestination md;
                        mntName := mntName m |}) <$> Mounts (Config orig)
    else Mounts (Config orig) in
  ∃ r,
    resolveUpdatedMachineConfig K md pg (Some orig) tr
      = (Done r,
         tr ++ (if moved
                then [Ev_Log Warn "Updating the mount path for volume %s on machine %s from %s to %s due to fly.toml [mounts] destination value" None]
                else []))
    ∧ launchInput r
      = {| liID := ID orig; liAppID := Name (app md);
           liOrgSlug := Organization_ID (app md); liRegion := Region orig;
           liConfig :=
             {| Env := Some env; Init_Cmd := None; Image := Tag (img md);
                Metadata := Some (copyUserMetadata K (default ∅ (Metadata (Config orig)))
                                    (defaultMachineMetadata K md pg));
                Mounts := mounts; Restart := MachineRestartPolicyUnset;
                Services := appServicesForMachines md;
                Checks := appChecksForMachines md;
                Metrics := cfgMetrics (appConfig md);
                Guest := Guest (Config orig) |} |}
    ∧ config_is_orig r = false
    ∧ env_is_app r = bool_decide (cfgEnv (appConfig md) ≠ None)
    ∧ res_md r = (if bool_decide (cfgEnv (appConfig md) ≠ None)
                  then with_appEnv md env else md)
    ∧ res_orig r = set_Config (set_Mounts mounts (Config orig)) orig.
Proof.
  intros Hmode. cbv zeta. unfold resolveUpdatedMachineConfig. rewrite Hmode.
  destruct orig as [id region state conf chk ev].
  destruct conf as [oenv ocmd oimg ometa omounts orestart osvc ochk ometrics oguest].
  destruct omounts as [[|mount [|mount' rest]]|]; destruct oguest as [g|]; simpl;
    try (rewrite app_nil_r; eexists; split; [reflexivity|]; by repeat split).
  all: unfold bind, log, emit, ret;
    destruct (bool_decide (Path mount ≠ volumeDestination md)); simpl;
    rewrite ?app_nil_r; eexists; (split; [reflexivity|]); by repeat split.
Qed.

End ResolveSpec.

(** X12: outside restart-only mode [resolveUpdatedMachineConfig] builds the
    configuration afresh: image, checks, services and metrics are the
    deployment's and the init command is nil; identifier, region, guest and
    mounts are the machine's; the restart policy of the machine is not
    carried over, the input has none.  The only thing that can be seen from
    outside is the warning about a moved mount: no request is made. *)
Theorem resolveUpdatedMachineConfig_fresh (K : ApiConstants) (md : machineDeployment)
    (processGroup : string) (orig : Machine) (tr : Trace) :
  restartOnly md = false →
  ∃ r tr',
    resolveUpdatedMachineConfig K md processGroup (Some orig) tr = (Done r, tr')
    ∧ calls tr' = calls tr
    ∧ liID (launchInput r) = ID orig
    ∧ liRegion (launchInput r) = Region orig
    ∧ Image (liConfig (launchInput r)) = Tag (img md)
    ∧ Init_Cmd (liConfig (launchInput r)) = None
    ∧ Checks (liConfig (launchInput r)) = appChecksForMachines md
    ∧ Services (liConfig (launchInput r)) = appServicesForMachines md
    ∧ Metrics (liConfig (launchInput r)) = cfgMetrics (appConfig md)
    ∧ Guest (liConfig (launchInput r)) = Guest (Config orig)
    ∧ Restart (liConfig (launchInput r)) = MachineRestartPolicyUnset
    ∧ length (default [] (Mounts (liConfig (launchInput r))))
      = length (default [] (Mounts (Config orig))).
Proof.
  intros Hmode.
  destruct (resolve_full_run K md processGroup orig tr Hmode) as (r & Hrun & Hin & _).
  eexists r, _. split; [exact Hrun|]. rewrite Hin. simpl.
  split; [|repeat split].
  - rewrite calls_app.
    match goal with |- calls tr ++ calls (if ?b then _ else _) = _ => destruct b end;
      apply app_nil_r.
  - destruct (match Mounts (Config orig) with Some [_] => _ | _ => false end); [|done].
    destruct (Mounts (Config orig)); simpl; [|done]. by rewrite length_fmap.
Qed.

Lemma resolveUpdatedMachineConfig_fresh_witness :
  ∃ r,
    resolveUpdatedMachineConfig sample_keys (sample_deployment "rolling")
      MachineProcessGroupApp (Some (sample_machine "m1")) [] = (Done r, [])
    ∧ Image (liConfig (launchInput r)) = "registry.fly.io/sample:2"
    ∧ Restart (Config (sample_machine "m1")) = MachineRestartPolicyAlways
    ∧ Restart (liConfig (launchInput r)) = MachineRestartPolicyUnset.
Proof.
  destruct (resolveUpdatedMachineConfig_fresh sample_keys (sample_deployment "rolling")
              MachineProcessGroupApp (sample_machine "m1") [] eq_refl)
    as (r & tr' & Hrun & _ & _ & _ & Himg & _ & _ & _ & _ & _ & Hrestart & _).
  exists r. split; [|by repeat split].
  rewrite Hrun. f_equal.
  assert (Htr : tr' = (resolveUpdatedMachineConfig sample_keys (sample_deployment "rolling")
                         MachineProcessGroupApp (Some (sample_machine "m1")) []).2)
    by (by rewrite Hrun).
  rewrite Htr. vm_compute. reflexivity.
Defined.

(** X13: outside restart-only mode the metadata of the launch input is built key
    by key: a platform key has the value the deployment gives it (and is
    absent when the deployment gives none), whatever the machine recorded;
    every other key is the machine's own. *)
Theorem resolveUpdatedMachineConfig_metadata (K : ApiConstants) (md : machineDeployment)
    (processGroup : string) (orig : Machine) (tr tr' : Trace) (r : resolved) :
  restartOnly md = false →
  resolveUpdatedMachineConfig K md processGroup (Some orig) tr = (Done r, tr') →
  ∃ meta,
    Metadata (liConfig (launchInput r)) = Some meta
    ∧ ∀ k, meta !! k
           = if isFlyAppsPlatformMetadata K k
             then defaultMachineMetadata K md processGroup !! k
             else default ∅ (Metadata (Config orig)) !! k.
Proof.
  intros Hmode Hrun.
  destruct (resolve_full_run K md processGroup orig tr Hmode) as (r0 & Hrun0 & Hin & _).
  rewrite Hrun0 in Hrun. injection Hrun as <- _. rewrite Hin. simpl.
  eexists. split; [reflexivity|]. intros k. rewrite copyUserMetadata_lookup.
  destruct (isFlyAppsPlatformMetadata K k) eqn:Hk; [done|].
  rewrite (defaultMachineMetadata_platform K md processGroup k Hk).
  by destruct (_ !! k).
Qed.

Lemma resolveUpdatedMachineConfig_metadata_witness :
  ∃ meta,
    Metadata (liConfig (launchInput
       (returned {| launchInput := sample_input "m1"; config_is_orig := false;
                    env_is_app := false; res_md := sample_deployment "rolling";
                    res_orig := sample_machine "m1" |}
          (resolveUpdatedMachineConfig sample_keys (sample_deployment "rolling")
             MachineProcessGroupApp (Some (sample_machine "m1")) [])))) = Some meta
    ∧ meta !! "team" = Some "web"
    ∧ meta !! "fly_release_id" = Some "rel-1"
    ∧ meta !! "fly-managed-postgres" = None.
Proof.
  pose (run := resolveUpdatedMachineConfig sample_keys (sample_deployment "rolling")
                 MachineProcessGroupApp (Some (sample_machine "m1")) []).
  pose (d := {| launchInput := sample_input "m1"; config_is_orig := false;
                env_is_app := false; res_md := sample_deployment "rolling";
                res_orig := sample_machine "m1" |}).
  destruct (resolveUpdatedMachineConfig_metadata sample_keys (sample_deployment "rolling")
              MachineProcessGroupApp (sample_machine "m1") [] run.2 (returned d run))
    as (meta & Hmeta & Hkeys); [reflexivity | vm_compute; reflexivity |].
  exists meta. split; [exact Hmeta|].
  rewrite (Hkeys "team"), (Hkeys "fly_release_id"), (Hkeys "fly-managed-postgres").
  clear. vm_compute. repeat split; reflexivity.
Defined.


Lemma validateVolumeConfig_member (md : machineDeployment) (m : leasableMachine) :
  validateVolumeConfig md = None → m ∈ machines (machineSet_ md) → volume_ok md m.
Proof.
  unfold validateVolumeConfig, IsEmpty, GetMachines.
  case_bool_decide as Hlen.
  { apply nil_length_inv in Hlen. rewrite Hlen. intros _ Hin. by apply elem_of_nil in Hin. }
  clear Hlen. induction (machines (machineSet_ md)) as [|m0 rest IH]; simpl.
  - intros _ Hin. by apply elem_of_nil in Hin.
  - destruct (validateMachineVolume md m0) eqn:Hm0; [done|].
    intros Hrest Hin. apply elem_of_cons in Hin as [->|Hin]; [|by apply IH].
    by apply validateMachineVolume_None.
Qed.

(** X14: after [validateVolumeConfig] has accepted the deployment, the launch
    input of each of its machines mounts what fly.toml says: nothing when no
    volume is named, else the machine's one volume, under the name given, at
    the destination given, whatever path the machine had it at.  The
    machine's snapshot shares the mounts with the input and shows the same
    path. *)
Theorem resolveUpdatedMachineConfig_mounts_follow_config (K : ApiConstants)
    (md : machineDeployment) (processGroup : string) (m : leasableMachine)
    (tr tr' : Trace) (r : resolved) :
  restartOnly md = false →
  validateVolumeConfig md = None →
  m ∈ machines (machineSet_ md) →
  resolveUpdatedMachineConfig K md processGroup (Some (machine m)) tr = (Done r, tr') →
  default [] (Mounts (liConfig (launchInput r)))
    = match default [] (Mounts (Config (machine m))) with
      | [] => []
      | mount :: _ => [ {| Volume := Volume mount; Path := volumeDestination md;
                           mntName := volumeName md |} ]
      end
  ∧ Mounts (Config (res_orig r)) = Mounts (liConfig (launchInput r)).
Proof.
  intros Hmode Hvalid Hin Hrun.
  pose proof (validateVolumeConfig_member md m Hvalid Hin) as Hok.
  destruct (resolve_full_run K md processGroup (machine m) tr Hmode)
    as (r0 & Hrun0 & Hinput & _ & _ & _ & Horig).
  rewrite Hrun0 in Hrun. injection Hrun as <- _. rewrite Hinput, Horig. simpl.
  split; [|done]. unfold volume_ok in Hok.
  destruct (Mounts (Config (machine m))) as [[|mount [|mount' rest]]|]; simpl in *; try done.
  destruct Hok as [_ <-].
  case_bool_decide as Hpath; simpl; [done|].
  destruct (decide (Path mount = volumeDestination md)) as [<-|Hne]; [by destruct mount|].
  by destruct Hpath.
Qed.

Lemma resolveUpdatedMachineConfig_mounts_follow_config_witness :
  Mounts (liConfig (launchInput
    (returned {| launchInput := sample_input "m1"; config_is_orig := false;
                 env_is_app := false; res_md := volume_deployment;
                 res_orig := sample_machine "m1" |}
       (resolveUpdatedMachineConfig sample_keys volume_deployment MachineProcessGroupApp
          (Some (mounted_machine "m1" "vol_1" "data" "/old")) []))))
  = Some [ {| Volume := "vol_1"; Path := "/data"; mntName := "data" |} ].
Proof.
  pose (run := resolveUpdatedMachineConfig sample_keys volume_deployment
                 MachineProcessGroupApp (Some (mounted_machine "m1" "vol_1" "data" "/old")) []).
  pose (d := {| launchInput := sample_input "m1"; config_is_orig := false;
                env_is_app := false; res_md := volume_deployment;
                res_orig := sample_machine "m1" |}).
  destruct (resolveUpdatedMachineConfig_mounts_follow_config sample_keys volume_deployment
              MachineProcessGroupApp
              (NewLeasableMachine (mounted_machine "m1" "vol_1" "data" "/old"))
              [] run.2 (returned d run)) as [Hmounts _].
  - reflexivity.
  - vm_compute. reflexivity.
  - apply list_elem_of_here.
  - vm_compute. reflexivity.
  - clear Hmounts. vm_compute. reflexivity.
Defined.

(** ** The environment *)

(** X15: outside restart-only mode the environment of the launch input is the
    map of the app configuration itself, not a copy: after the call the app
    configuration holds the same map as the input.  The call changes at most
    the key PRIMARY_REGION in it, which it takes from the machine when the
    app configuration has none or an empty one. *)
Theorem resolveUpdatedMachineConfig_env_is_app_env (K : ApiConstants)
    (md : machineDeployment) (processGroup : string) (orig : Machine)
    (e : gmap string string) (tr tr' : Trace) (r : resolved) :
  restartOnly md = false →
  cfgEnv (appConfig md) = Some e →
  resolveUpdatedMachineConfig K md processGroup (Some orig) tr = (Done r, tr') →
  ∃ env,
    Env (liConfig (launchInput r)) = Some env
    ∧ cfgEnv (appConfig (res_md r)) = Some env
    ∧ (∀ k, k ≠ "PRIMARY_REGION" → env !! k = e !! k)
    ∧ map_get (Some env) "PRIMARY_REGION"
      = if bool_decide (map_get (Some e) "PRIMARY_REGION" = "")
        then map_get (Env (Config orig)) "PRIMARY_REGION"
        else map_get (Some e) "PRIMARY_REGION".
Proof.
  intros Hmode He Hrun.
  destruct (resolve_full_run K md processGroup orig tr Hmode)
    as (r0 & Hrun0 & Hinput & _ & _ & Hmd & _).
  rewrite Hrun0 in Hrun. injection Hrun as <- _. rewrite Hinput, Hmd, He. simpl.
  rewrite ?(bool_decide_eq_true_2 (Some e ≠ None)) by done.
  eexists. split; [reflexivity|]. split; [reflexivity|].
  destruct (decide (map_get (Some e) "PRIMARY_REGION" = "")) as [Ha|Ha].
  - rewrite (bool_decide_eq_true_2 _ Ha). simpl.
    destruct (decide (map_get (Env (Config orig)) "PRIMARY_REGION" = "")) as [Hm|Hm].
    + rewrite (bool_decide_eq_false_2 (map_get (Env (Config orig)) "PRIMARY_REGION" ≠ ""))
        by (intros H; by apply H).
      split; [done|]. by rewrite Ha, Hm.
    + rewrite (bool_decide_eq_true_2 _ Hm). split.
      * intros k Hk. by rewrite lookup_insert_ne.
      * unfold map_get at 1. simpl. by rewrite lookup_insert_eq.
  - rewrite (bool_decide_eq_false_2 _ Ha). simpl. by split.
Qed.

Lemma resolveUpdatedMachineConfig_env_is_app_env_witness :
  ∃ env,
    cfgEnv (appConfig (res_md
      (returned {| launchInput := sample_input "m1"; config_is_orig := false;
                   env_is_app := false; res_md := volume_deployment;
                   res_orig := sample_machine "m1" |}
         (resolveUpdatedMachineConfig sample_keys volume_deployment MachineProcessGroupApp
            (Some (regional_machine "m1" "ams")) [])))) = Some env
    ∧ env !! "RAILS_ENV" = Some "production"
    ∧ map_get (Some env) "PRIMARY_REGION" = "ams".
Proof.
  pose (run := resolveUpdatedMachineConfig sample_keys volume_deployment
                 MachineProcessGroupApp (Some (regional_machine "m1" "ams")) []).
  pose (d := {| launchInput := sample_input "m1"; config_is_orig := false;
                env_is_app := false; res_md := volume_deployment;
                res_orig := sample_machine "m1" |}).
  destruct (resolveUpdatedMachineConfig_env_is_app_env sample_keys volume_deployment
              MachineProcessGroupApp (regional_machine "m1" "ams")
              {[ "RAILS_ENV" := "production" ]} [] run.2 (returned d run))
    as (env & _ & Hmd & Hkeys & Hregion).
  - reflexivity.
  - reflexivity.
  - vm_compute. reflexivity.
  - exists env. split; [exact Hmd|]. split.
    + rewrite (Hkeys "RAILS_ENV") by done. clear. vm_compute. reflexivity.
    + rewrite Hregion. clear. vm_compute. reflexivity.
Defined.

(** X16: the primary region of the first machine sticks: when the app
    configuration names no primary region in its environment and the first
    machine resolved records one, that region is written into the map of the
    app configuration, and the launch input of every machine resolved after
    it carries it, whatever primary region that machine records itself. *)
Theorem primary_region_of_first_machine_sticks (K : ApiConstants) (md : machineDeployment)
    (pg1 pg2 : string) (m1 m2 : Machine) (e : gmap string string)
    (tr tr1 tr2 : Trace) (r1 r2 : resolved) :
  restartOnly md = false →
  cfgEnv (appConfig md) = Some e →
  map_get (Some e) "PRIMARY_REGION" = "" →
  map_get (Env (Config m1)) "PRIMARY_REGION" ≠ "" →
  resolveUpdatedMachineConfig K md pg1 (Some m1) tr = (Done r1, tr1) →
  resolveUpdatedMachineConfig K (res_md r1) pg2 (Some m2) tr1 = (Done r2, tr2) →
  map_get (Env (liConfig (launchInput r2))) "PRIMARY_REGION"
    = map_get (Env (Config m1)) "PRIMARY_REGION".
Proof.
  intros Hmode He Hnone Hm1 Hrun1 Hrun2.
  destruct (resolve_full_run K md pg1 m1 tr Hmode) as (r & Hrun & _ & _ & _ & Hmd & _).
  rewrite Hrun in Hrun1. injection Hrun1 as <- _.
  rewrite He in Hmd. cbv zeta in Hmd. simpl in Hmd.
  rewrite ?(bool_decide_eq_true_2 (Some e ≠ None)) in Hmd by done.
  rewrite (bool_decide_eq_true_2 _ Hnone), (bool_decide_eq_true_2 _ Hm1) in Hmd.
  simpl in Hmd.
  assert (Hmode' : restartOnly (res_md r) = false) by (by rewrite Hmd).
  destruct (resolve_full_run K (res_md r) pg2 m2 tr1 Hmode') as (r' & Hrun' & Hin & _).
  rewrite Hrun' in Hrun2. injection Hrun2 as <- _. rewrite Hin. simpl.
  rewrite Hmd. simpl.
  assert (Hset : map_get (Some (<["PRIMARY_REGION" := map_get (Env (Config m1)) "PRIMARY_REGION"]> e))
                   "PRIMARY_REGION" = map_get (Env (Config m1)) "PRIMARY_REGION").
  { unfold map_get at 1. simpl. by rewrite lookup_insert_eq. }
  rewrite (bool_decide_eq_false_2 (map_get (Some (<["PRIMARY_REGION" := _]> e)) _ = ""))
    by (by rewrite Hset).
  simpl. exact Hset.
Qed.

Lemma primary_region_of_first_machine_sticks_witness :
  map_get (Env (Config (regional_machine "m2" "syd"))) "PRIMARY_REGION" = "syd"
  ∧ map_get
      (Env (liConfig (launchInput
         (returned {| launchInput := sample_input "m2"; config_is_orig := false;
                      env_is_app := false; res_md := volume_deployment;
                      res_orig := sample_machine "m2" |}
            (resolveUpdatedMachineConfig sample_keys
               (res_md (returned {| launchInput := sample_input "m1";
                                    config_is_orig := false; env_is_app := false;
                                    res_md := volume_deployment;
                                    res_orig := sample_machine "m1" |}
                          (resolveUpdatedMachineConfig sample_keys volume_deployment
                             MachineProcessGroupApp (Some (regional_machine "m1" "ams")) [])))
               MachineProcessGroupApp (Some (regional_machine "m2" "syd")) [])))))
      "PRIMARY_REGION" = "ams".
Proof.
  split; [reflexivity|].
  pose (d1 := {| launchInput := sample_input "m1"; config_is_orig := false;
                 env_is_app := false; res_md := volume_deployment;
                 res_orig := sample_machine "m1" |}).
  pose (d2 := {| launchInput := sample_input "m2"; config_is_orig := false;
                 env_is_app := false; res_md := volume_deployment;
                 res_orig := sample_machine "m2" |}).
  pose (run1 := resolveUpdatedMachineConfig sample_keys volume_deployment
                  MachineProcessGroupApp (Some (regional_machine "m1" "ams")) []).
  pose (run2 := resolveUpdatedMachineConfig sample_keys (res_md (returned d1 run1))
                  MachineProcessGroupApp (Some (regional_machine "m2" "syd")) []).
  apply (primary_region_of_first_machine_sticks sample_keys volume_deployment
           MachineProcessGroupApp MachineProcessGroupApp
           (regional_machine "m1" "ams") (regional_machine "m2" "syd")
           {[ "RAILS_ENV" := "production" ]} [] [] run2.2 (returned d1 run1)
           (returned d2 run2));
    [reflexivity | reflexivity | reflexivity | done
    | vm_compute; reflexivity | vm_compute; reflexivity].
Defined.


(** ** The release command *)

(** X17: after the launch input of the release-command machine has been
    configured, the map of the app configuration holds the key
    RELEASE_COMMAND: [configureLaunchInputForReleaseCommand] writes it into
    the environment of the input, which outside restart-only mode is that
    map.  It never panics there, and the launch input of every machine
    resolved afterwards carries the key too. *)
Theorem release_command_marks_app_env (K : ApiConstants) (md : machineDeployment)
    (pg : string) (rc m : Machine) (e : gmap string string) (tr : Trace) :
  restartOnly md = false →
  cfgEnv (appConfig md) = Some e →
  ∃ r0 tr0 r1,
    resolveUpdatedMachineConfig K md MachineProcessGroupReleaseCommand (Some rc) tr
      = (Done r0, tr0)
    ∧ configureLaunchInputForReleaseCommand r0 tr0 = (Done r1, tr0)
    ∧ map_get (cfgEnv (appConfig (res_md r1))) "RELEASE_COMMAND"
      = default "1" (e !! "RELEASE_COMMAND")
    ∧ ∀ tr1, ∃ r2 tr2,
        resolveUpdatedMachineConfig K (res_md r1) pg (Some m) tr1 = (Done r2, tr2)
        ∧ map_get (Env (liConfig (launchInput r2))) "RELEASE_COMMAND"
          = default "1" (e !! "RELEASE_COMMAND").
Proof.
  intros Hmode He.
  destruct (resolve_full_run K md MachineProcessGroupReleaseCommand rc tr Hmode)
    as (r0 & Hrun0 & Hin0 & Horig0 & Hshared0 & Hmd0 & _).
  rewrite He in Hin0, Hshared0, Hmd0. cbv zeta in Hin0, Hmd0. simpl in Hin0, Hmd0.
  rewrite ?(bool_decide_eq_true_2 (Some e ≠ None)) in Hshared0, Hmd0 by done.
  set (env0 := if _ && _ then _ else e) in Hin0, Hmd0.
  assert (Henv0 : env0 !! "RELEASE_COMMAND" = e !! "RELEASE_COMMAND").
  { subst env0. destruct (_ && _); [|done]. by rewrite lookup_insert_ne. }
  set (env1 := match env0 !! "RELEASE_COMMAND" with
               | Some _ => env0
               | None => <["RELEASE_COMMAND" := "1"]> env0
               end).
  assert (Henv1 : env1 !! "RELEASE_COMMAND" = Some (default "1" (e !! "RELEASE_COMMAND"))).
  { subst env1. rewrite <- Henv0. destruct (env0 !! "RELEASE_COMMAND") eqn:Hk; simpl.
    - exact Hk.
    - by rewrite lookup_insert_eq. }
  assert (Hconf : ∀ tr0, ∃ r1, configureLaunchInputForReleaseCommand r0 tr0 = (Done r1, tr0)
                               ∧ res_md r1 = with_appEnv md env1).
  { intros tr0.
    unfold configureLaunchInputForReleaseCommand, bind. rewrite Hin0, Hshared0, Hmd0. simpl.
    match goal with
    | |- context [match ?x with Some _ => ret (Some env0) | None => _ end] =>
        destruct x as [v|] eqn:Hk
    end.
    - change (env0 !! "RELEASE_COMMAND" = Some v) in Hk.
      eexists. split; [reflexivity|]. simpl. subst env1. reflexivity.
    - change (env0 !! "RELEASE_COMMAND" = None) in Hk.
      eexists. split; [reflexivity|]. simpl. subst env1. reflexivity. }
  match type of Hrun0 with _ = (_, ?t) => destruct (Hconf t) as (r1 & Hrun1 & Hmd1) end.
  eexists r0, _, r1. split; [exact Hrun0|]. split; [exact Hrun1|]. split.
  { rewrite Hmd1. unfold map_get. simpl. by rewrite Henv1. }
  intros tr1.
  assert (Hmode1 : restartOnly (res_md r1) = false) by (by rewrite Hmd1).
  destruct (resolve_full_run K (res_md r1) pg m tr1 Hmode1) as (r2 & Hrun2 & Hin2 & _).
  eexists r2, _. split; [exact Hrun2|]. rewrite Hin2, Hmd1. simpl.
  unfold map_get at 1. simpl.
  match goal with
  | |- default "" ((if ?b then _ else _) !! _) = _ => destruct b
  end; [rewrite lookup_insert_ne by done|]; by rewrite Henv1.
Qed.

Lemma release_command_marks_app_env_witness :
  ∃ r0 tr0 r1,
    resolveUpdatedMachineConfig sample_keys (sample_deployment "rolling")
      MachineProcessGroupReleaseCommand (Some (sample_machine "rc")) [] = (Done r0, tr0)
    ∧ configureLaunchInputForReleaseCommand r0 tr0 = (Done r1, tr0)
    ∧ map_get (cfgEnv (appConfig (sample_deployment "rolling"))) "RELEASE_COMMAND" = ""
    ∧ map_get (cfgEnv (appConfig (res_md r1))) "RELEASE_COMMAND" = "1".
Proof.
  destruct (release_command_marks_app_env sample_keys (sample_deployment "rolling")
              MachineProcessGroupApp (sample_machine "rc") (sample_machine "m1") ∅ []
              eq_refl eq_refl) as (r0 & tr0 & r1 & Hrun0 & Hrun1 & Hmd & _).
  exists r0, tr0, r1. split; [exact Hrun0|]. split; [exact Hrun1|]. split; [reflexivity|].
  exact Hmd.
Defined.

(** ** Splitting the release command *)

Section Split.

Lemma string_app_cons (c : Ascii.ascii) (s t : string) :
  String c s +:+ t = String c (s +:+ t).
Proof. reflexivity. Qed.

Lemma string_app_nil_r (s : string) : s +:+ "" = s.
Proof.
  induction s as [|c s IH]; [done|]. by rewrite string_app_cons, IH.
Qed.

Lemma string_app_assoc (s t u : string) : (s +:+ t) +:+ u = s +:+ (t +:+ u).
Proof.
  induction s as [|c s IH]; [done|]. by rewrite !string_app_cons, IH.
Qed.

Lemma no_space_app (s t : string) : no_space (s +:+ t) = no_space s && no_space t.
Proof.
  induction s as [|c s IH]; [done|].
  rewrite string_app_cons. simpl. by rewrite IH, andb_assoc.
Qed.

Lemma strings_Split_go_nonempty (s cur : string) : strings_Split_go s cur ≠ [].
Proof.
  revert cur. induction s as [|c s IH]; intros cur; simpl; [done|].
  case_bool_decide; [done|apply IH].
Qed.

Lemma strings_Split_go_join (s : string) :
  ∀ cur, strings_Join_space (strings_Split_go s cur) = cur +:+ s.
Proof.
  induction s as [|c s IH]; intros cur; simpl.
  - by rewrite string_app_nil_r.
  - case_bool_decide as Hc.
    + pose proof (strings_Split_go_nonempty s "") as Hne.
      change (strings_Join_space (cur :: strings_Split_go s ""))
        with (match strings_Split_go s "" with
              | [] => cur
              | _ => cur +:+ " " +:+ strings_Join_space (strings_Split_go s "")
              end).
      destruct (strings_Split_go s "") as [|w ws] eqn:Hsplit; [done|].
      rewrite <- Hsplit, IH. injection Hc as ->. reflexivity.
    + rewrite IH, string_app_assoc. reflexivity.
Qed.

Lemma strings_Split_go_no_space (s : string) :
  ∀ cur, no_space cur = true → Forall (fun w => no_space w = true) (strings_Split_go s cur).
Proof.
  induction s as [|c s IH]; intros cur Hcur; simpl.
  - by constructor.
  - case_bool_decide as Hc.
    + constructor; [done|]. by apply IH.
    + apply IH. rewrite no_space_app, Hcur. simpl.
      rewrite (bool_decide_eq_false_2 _ Hc). done.
Qed.

End Split.

(** X18: the command of the release-command machine is the release command cut
    at every single space: no word holds a space, there is at least one
    word (empty words stand for leading, trailing and doubled spaces), and
    joining the words with spaces gives the release command back. *)
Theorem release_command_split_round_trip (r : resolved) (e : gmap string string)
    (tr : Trace) :
  Env (liConfig (launchInput r)) = Some e →
  ∃ r' words,
    configureLaunchInputForReleaseCommand r tr = (Done r', tr)
    ∧ Init_Cmd (liConfig (launchInput r')) = Some words
    ∧ words ≠ []
    ∧ Forall (fun w => no_space w = true) words
    ∧ strings_Join_space words = releaseCommand (res_md r).
Proof.
  intros He.
  destruct (configureLaunchInputForReleaseCommand_overrides r e tr He)
    as (r' & Hrun & Hcmd & _).
  exists r', (strings_Split_space (releaseCommand (res_md r))).
  split; [exact Hrun|]. split; [exact Hcmd|].
  unfold strings_Split_space. split; [apply strings_Split_go_nonempty|].
  split; [by apply strings_Split_go_no_space|].
  by rewrite strings_Split_go_join.
Qed.

Lemma release_command_split_round_trip_witness :
  ∃ r',
    configureLaunchInputForReleaseCommand
      {| launchInput := sample_input "rc"; config_is_orig := false; env_is_app := false;
         res_md := sample_deployment "rolling"; res_orig := sample_machine "rc" |} []
      = (Done r', [])
    ∧ Init_Cmd (liConfig (launchInput r')) = Some ["bin/rails"; "db:migrate"].
Proof.
  destruct (release_command_split_round_trip
              {| launchInput := sample_input "rc"; config_is_orig := false;
                 env_is_app := false; res_md := sample_deployment "rolling";
                 res_orig := sample_machine "rc" |}
              {[ "PRIMARY_REGION" := "ams" ]} [] eq_refl)
    as (r' & words & Hrun & Hcmd & _).
  exists r'. split; [exact Hrun|].
  assert (Hr : r' = returned r' (configureLaunchInputForReleaseCommand
                 {| launchInput := sample_input "rc"; config_is_orig := false;
                    env_is_app := false; res_md := sample_deployment "rolling";
                    res_orig := sample_machine "rc" |} [])) by (by rewrite Hrun).
  rewrite Hr. clear. vm_compute. reflexivity.
Defined.


(** ** Releasing what is not held *)

Section Silent.

Variable world : World.

Lemma ReleaseLease_silent_spec (ctx : Ctx) (m : leasableMachine) (tr : Trace) :
  ∃ r m' new,
    ReleaseLease world m ctx tr = (Done (r, m'), tr ++ new)
    ∧ m' = resetLease m
    ∧ (leaseNonce m = "" → r = None)
    ∧ Forall (fun _ => leaseNonce m ≠ "") new.
Proof.
  destruct (decide (leaseNonce m = "")) as [Hn|Hn].
  - exists None, (resetLease m), []. rewrite app_nil_r.
    split; [|by repeat split].
    unfold ReleaseLease, bind. rewrite HasLease_run.
    rewrite (bool_decide_eq_false_2 (leaseNonce m ≠ "")) by (intros H; by apply H).
    reflexivity.
  - destruct (ReleaseLease_spec world ctx m tr) as (r & m' & new & Hrun & Hm & _ & _).
    exists r, m', new. split; [done|]. split; [done|]. split; [done|].
    by apply Forall_true.
Qed.

Lemma ReleaseLeases_silent (ms : machineSet) (ctx : Ctx) (tr : Trace) :
  Forall (fun m => leaseNonce m = "") (machines ms) →
  ∃ new,
    ReleaseLeases world ms ctx tr
      = (Done (None, {| machines := resetLease <$> machines ms |}), tr ++ new)
    ∧ calls new = []
    ∧ Forall (fun ev => ∀ t, ev ≠ Ev_Now t) new.
Proof.
  intros Hnone. rewrite ReleaseLeases_unfold. cbv zeta.
  set (was := errors_Is_opt _ _). set (ctx' := if was then _ else ctx).
  unfold bind at 1.
  destruct (fanout_all_spec world (fun m => ReleaseLease world m ctx')
              (fun m m' => m' = resetLease m)
              (fun m r => leaseNonce m = "" → r = None)
              (fun m _ => leaseNonce m ≠ "")
              (ReleaseLease_silent_spec ctx') (machines ms)
              (tr ++ Ev_CtxErr ctx (ctx_Err world tr ctx)
                  :: (if was
                      then [Ev_Log Info "detected canceled context and allowing %s to release machine leases" None]
                      else [])))
    as (results & ms' & new1 & -> & Hall & Hres & Hnew).
  apply Forall2_resetLease in Hall. subst ms'.
  assert (Hnil : new1 = []).
  { destruct new1 as [|ev new1]; [done|]. apply Forall_cons in Hnew as [(m & Hm & Hne) _].
    destruct Hne. eapply Forall_forall in Hnone; eauto. }
  subst new1. rewrite app_nil_r. unfold bind at 1. simpl.
  rewrite releaseResults_none.
  - eexists. split; [reflexivity|]. destruct was; simpl; split; by repeat constructor.
  - eapply Forall_impl; [exact Hres|]. intros r (m & Hm & Hr). left. apply Hr.
    eapply Forall_forall in Hnone; eauto.
Qed.

(** The set a failed [AcquireLeases] returns holds no lease. *)
Lemma AcquireLeases_failed_reset (ms ms1 : machineSet) (ctx : Ctx) (d : Duration)
    (tr tr1 : Trace) (e : error) :
  AcquireLeases world ms ctx d tr = (Done (Some e, ms1), tr1) →
  ∃ l, ms1 = {| machines := resetLease <$> l |}.
Proof.
  unfold AcquireLeases. unfold bind at 1.
  destruct (fanout_all_spec world (fun m => AcquireLease world m ctx d) _
              (fun _ _ => True) _ (fun m tr => AcquireLease_spec world ctx d m tr)
              (machines ms) tr)
    as (results & ms0 & new1 & -> & _).
  unfold bind at 1. simpl.
  destruct (acquireResults_logs results false (tr ++ new1)) as (b & new2 & -> & _).
  destruct b; [|done].
  unfold bind at 1.
  destruct (ReleaseLeases_spec world {| machines := ms0 |} ctx ((tr ++ new1) ++ new2))
    as (r & new3 & -> & _).
  unfold bind. destruct r; simpl; intros [= _ <- _]; by exists ms0.
Qed.

End Silent.

(** X19: [ReleaseLeases] on a set none of whose members records a nonce asks
    nothing of the control plane and reads no clock: it returns without
    error, whatever the control plane would have answered. *)
Theorem ReleaseLeases_without_leases_asks_nothing (world : World) (ms : machineSet)
    (ctx : Ctx) (tr : Trace) :
  Forall (fun m => leaseNonce m = "") (machines ms) →
  ∃ new,
    ReleaseLeases world ms ctx tr
      = (Done (None, {| machines := resetLease <$> machines ms |}), tr ++ new)
    ∧ calls new = []
    ∧ Forall (fun ev => ∀ t, ev ≠ Ev_Now t) new.
Proof. apply ReleaseLeases_silent. Qed.

Lemma ReleaseLeases_without_leases_asks_nothing_witness :
  ∃ tr',
    ReleaseLeases release_fails (machineSet_ (sample_deployment "rolling")) ctx_caller []
      = (Done (None, machineSet_ (sample_deployment "rolling")), tr')
    ∧ calls tr' = [].
Proof.
  destruct (ReleaseLeases_without_leases_asks_nothing release_fails
              (machineSet_ (sample_deployment "rolling")) ctx_caller [])
    as (new & Hrun & Hcalls & _).
  - repeat constructor.
  - exists new. split; [exact Hrun|exact Hcalls].
Defined.

(** X20: when the leases on the app machines cannot all be acquired, the
    deployment ends with the error of [AcquireLeases] and asks nothing more
    of the control plane: no machine is updated, and the deferred
    [ReleaseLeases] finds no lease left to release. *)
Theorem DeployMachinesApp_stops_without_leases (world : World) (K : ApiConstants)
    (fuel : nat) (md md1 : machineDeployment) (ms2 : machineSet) (ctx : Ctx)
    (tr tr1 tr2 : Trace) (e : error) :
  runReleaseCommand world K fuel md ctx tr = (Done (None, md1), tr1) →
  IsEmpty (machineSet_ md1) = false →
  AcquireLeases world (machineSet_ md1) ctx (leaseTimeout md1) tr1
    = (Done (Some e, ms2), tr2) →
  ∃ tr',
    DeployMachinesApp world K fuel md ctx tr = (Done (Some e, with_machineSet md1 ms2), tr')
    ∧ calls tr' = calls tr2.
Proof.
  intros Hrel Hempty Hacq.
  destruct (AcquireLeases_failed_reset world _ _ _ _ _ _ _ Hacq) as [l ->].
  unfold DeployMachinesApp. unfold bind at 1. rewrite Hrel. simpl. rewrite Hempty.
  unfold bind at 1. rewrite Hacq. simpl. unfold bind at 1, ret at 1. unfold bind at 1.
  simpl.
  destruct (ReleaseLeases_silent world {| machines := resetLease <$> l |} ctx tr2)
    as (new & -> & Hcalls & _).
  { apply Forall_fmap, Forall_true. done. }
  simpl. unfold bind, ret. exists (tr2 ++ new). split.
  - do 3 f_equal. by rewrite <- list_fmap_compose.
  - by rewrite calls_app, Hcalls, app_nil_r.
Qed.

Lemma DeployMachinesApp_stops_without_leases_witness :
  ∃ md' tr',
    DeployMachinesApp lease_m2_taken sample_keys 5 (plain_deployment "rolling") ctx_caller []
      = (Done (Some (Errorf "error acquiring leases on all machines"), md'), tr')
    ∧ updated_ids tr' = [].
Proof.
  pose (run := AcquireLeases lease_m2_taken (machineSet_ (plain_deployment "rolling"))
                 ctx_caller (30 * Minute) []).
  destruct (DeployMachinesApp_stops_without_leases lease_m2_taken sample_keys 5
              (plain_deployment "rolling") (plain_deployment "rolling")
              (returned (None, machineSet_ (plain_deployment "rolling")) run).2
              ctx_caller [] [] run.2 (Errorf "error acquiring leases on all machines"))
    as (tr' & Hrun & Hcalls).
  - reflexivity.
  - reflexivity.
  - vm_compute. reflexivity.
  - eexists _, tr'. split; [exact Hrun|].
    unfold updated_ids. rewrite Hcalls. clear. vm_compute. reflexivity.
Defined.


(** ** What a deployment asks of the control plane *)

Section RolloutCalls.

Variable world : World.
Variable K : ApiConstants.

Lemma issues_waitForMachine (Q : Call → Prop) (fuel : nat) (md : machineDeployment)
    (ctx : Ctx) (m : leasableMachine) :
  (strategy md ≠ "immediate" → ∀ c lm s t, Q (Call_Wait c lm s t)) →
  (strategy md ≠ "immediate" → skipHealthChecks md = false → ∀ c id, Q (Call_Get c id)) →
  issues Q (fun _ => True) (waitForMachine world fuel md ctx m).
Proof.
  intros HW HG. unfold waitForMachine.
  eapply issues_bind with (R1 := fun _ => True).
  { case_bool_decide as Hs; [|by apply issues_ret].
    unfold WaitForState. apply issues_WaitForState_loop. by apply HW. }
  intros [e|] _; [by apply issues_ret|].
  case_bool_decide as Hs; simpl; [|by apply issues_ret].
  destruct (skipHealthChecks md) eqn:Hskip; simpl; [by apply issues_ret|].
  unfold WaitForHealthchecksToPass. destruct (Checks _); [|by apply issues_ret].
  apply issues_WaitForHealthchecksToPass_loop. by apply HG.
Qed.

Lemma issues_updateMachine (strat : string) (skip : bool) (ids : list string) (fuel : nat)
    (md : machineDeployment) (ctx : Ctx) (m : leasableMachine) :
  strategy md = strat → skipHealthChecks md = skip → ID (machine m) ∈ ids →
  issues (rollout_call strat skip ctx ids)
         (fun r => strategy r.1.2 = strat ∧ skipHealthChecks r.1.2 = skip)
         (updateMachine world K fuel md ctx m).
Proof.
  intros Hs Hk Hid. unfold updateMachine.
  eapply issues_bind; [apply issues_resolve|].
  intros r0 (_ & Hli & _ & _ & Hs0 & Hk0 & _). cbv zeta.
  eapply issues_bind; [apply issues_log|]. intros _ _.
  eapply issues_bind.
  { apply issues_Update. simpl. split; [done|]. by rewrite Hli. }
  intros u _.
  assert (Hwait : ∀ lm, issues (rollout_call strat skip ctx ids) (fun _ => True)
                          (waitForMachine world fuel (res_md r0) ctx lm)).
  { intros lm. apply issues_waitForMachine.
    - intros Hne c lm' s t. simpl. congruence.
    - intros Hne Hskip c id. simpl. split; congruence. }
  destruct u.1 as [e|].
  - case_bool_decide; [apply issues_ret; simpl; split; congruence|].
    eapply issues_bind; [apply issues_log|]. intros _ _.
    eapply issues_bind; [apply Hwait|]. intros err _.
    apply issues_ret; simpl; split; congruence.
  - eapply issues_bind; [apply Hwait|]. intros err _.
    apply issues_ret; simpl; split; congruence.
Qed.

Lemma issues_updateMachines (strat : string) (skip : bool) (ids : list string) (fuel : nat)
    (ctx : Ctx) (todo : list leasableMachine) :
  ∀ md,
    strategy md = strat → skipHealthChecks md = skip →
    Forall (fun m => ID (machine m) ∈ ids) todo →
    issues (rollout_call strat skip ctx ids) (fun r => length r.2 = length todo)
           (updateMachines world K fuel md ctx todo).
Proof.
  induction todo as [|m rest IH]; intros md Hs Hk Hids; simpl.
  - by apply issues_ret.
  - apply Forall_cons in Hids as [Hm Hrest].
    eapply issues_bind; [by apply issues_updateMachine|].
    intros r [Hs1 Hk1]. destruct r.1.1; [by apply issues_ret|].
    eapply issues_bind; [by apply IH|].
    intros r' Hlen. apply issues_ret. simpl. by rewrite Hlen.
Qed.

Lemma issues_ReleaseLeases_reset (Q : Call → Prop) (ms : machineSet) (ctx : Ctx) :
  (∀ c id nonce, Q (Call_ReleaseLease c id nonce)) →
  issues Q (fun r => machines r.2 = resetLease <$> machines ms) (ReleaseLeases world ms ctx).
Proof.
  intros HQ tr. destruct (ReleaseLeases_spec world ms ctx tr) as (r & new & Hrun & Hnew & _).
  exists new. rewrite Hrun. split; [done|]. split.
  - eapply Forall_impl; [exact Hnew|]. intros [c| | | |]; simpl; try done.
    intros (m & _ & ->). apply HQ.
  - by intros a [= <-].
Qed.

(** The run of a deployment: what it asks, and that it leaves the app
    machines without a lease when it found them so. *)
Lemma issues_DeployMachinesApp (fuel : nat) (md : machineDeployment) (ctx : Ctx) :
  issues (deploy_call md)
         (fun r => Forall (fun m => leaseNonce m = "" ∧ leaseExpiration m = time_zero)
                          (machines (machineSet_ md)) →
                   Forall (fun m => leaseNonce m = "" ∧ leaseExpiration m = time_zero)
                          (machines (machineSet_ r.2)))
         (DeployMachinesApp world K fuel md ctx).
Proof.
  set (Q := deploy_call md).
  assert (Q_rel : ∀ c id nonce, Q (Call_ReleaseLease c id nonce)) by done.
  set (I := fun m : leasableMachine => ID (machine m) ∈ machine_ids (machineSet_ md)).
  assert (HI : ∀ m m', I m → machine m' = machine m → I m').
  { unfold I. by intros m m' Hm ->. }
  assert (Hall : Forall I (machines (machineSet_ md))).
  { apply Forall_forall. intros m Hm. unfold I, machine_ids.
    apply list_elem_of_fmap. by exists m. }
  unfold DeployMachinesApp.
  eapply issues_bind with (R1 := fun r => machineSet_ r.2 = machineSet_ md).
  { destruct (machines (releaseCommandMachine md)) as [|m0 others] eqn:Hrc.
    - unfold runReleaseCommand, IsEmpty. rewrite Hrc. simpl.
      rewrite orb_true_r. simpl. by apply issues_ret.
    - assert (Hhd : hd "" (machine_ids (releaseCommandMachine md))
                    ∈ machine_ids (releaseCommandMachine md)).
      { unfold machine_ids. rewrite Hrc. apply list_elem_of_here. }
      eapply issues_calls_weaken; [|apply issues_runReleaseCommand].
      intros [c input n|c input|c id|c lm s t|c id s|c id n];
        unfold Q, deploy_call, release_phase_call; try done.
      + intros ->. apply elem_of_app. by left.
      + intros Hin. apply elem_of_app. by left. }
  intros r Hset. cbv zeta.
  destruct r.1 as [e|]; [apply issues_ret; simpl; by rewrite Hset|].
  destruct (IsEmpty (machineSet_ r.2)).
  { unfold createOneMachine.
    eapply issues_bind; [apply issues_log|]. intros _ _.
    eapply issues_bind with (R1 := fun _ => False); [apply issues_panic|]. by intros ? []. }
  eapply issues_bind.
  { apply (issues_AcquireLeases Q world Q_rel I); [done| |by rewrite Hset].
    intros m seconds Hm. unfold Q, deploy_call. apply elem_of_app. by right. }
  intros a Ha.
  eapply issues_bind with (R1 := fun _ => True).
  { destruct a.1; [by apply issues_ret|].
    eapply issues_bind; [apply issues_log|]. intros _ _.
    eapply issues_bind.
    - eapply issues_calls_weaken;
        [|apply (issues_updateMachines (strategy (with_machineSet r.2 a.2))
                   (skipHealthChecks (with_machineSet r.2 a.2))
                   (machine_ids (machineSet_ md)) fuel ctx); [done|done|exact Ha]].
      intros [c input n|c input|c id|c lm s t|c id s|c id n]; simpl; try done.
      intros [_ Hin]. apply elem_of_app. by right.
    - intros l _. destruct l.1.1; [by apply issues_ret|].
      eapply issues_bind; [apply issues_log|]. intros _ _. by apply issues_ret. }
  intros body _.
  eapply issues_bind; [by apply issues_ReleaseLeases_reset|].
  intros rel Hrel.
  eapply issues_bind with (R1 := fun _ => True).
  { destruct rel.1; [apply issues_log | by apply issues_ret]. }
  intros _ _. apply issues_ret. simpl. intros _. rewrite Hrel.
  apply Forall_fmap, Forall_true. done.
Qed.

End RolloutCalls.

(** X21: the loop over the machines asks for nothing but what the strategy
    allows: it updates only the machines it was given, under the caller's
    context; it waits for a state only when the strategy is not immediate,
    and fetches a machine only when, besides, the health checks are not
    skipped.  It launches nothing and touches no lease, and it returns as
    many machines as it was given. *)
Theorem updateMachines_requests (world : World) (K : ApiConstants) (fuel : nat)
    (md : machineDeployment) (ctx : Ctx) (todo : list leasableMachine) :
  issues (rollout_call (strategy md) (skipHealthChecks md) ctx
            ((fun m => ID (machine m)) <$> todo))
         (fun r => length r.2 = length todo)
         (updateMachines world K fuel md ctx todo).
Proof.
  apply issues_updateMachines; [done|done|].
  apply Forall_forall. intros m Hm. apply list_elem_of_fmap. by exists m.
Qed.

(** X22: a deployment never launches a machine, and the only machines it updates
    or asks a lease for are those of its release-command set and of its set
    of app machines, as they were when it started. *)
Theorem DeployMachinesApp_requests (world : World) (K : ApiConstants) (fuel : nat)
    (md : machineDeployment) (ctx : Ctx) :
  issues (deploy_call md) (fun _ => True) (DeployMachinesApp world K fuel md ctx).
Proof.
  eapply issues_weaken; [|apply issues_DeployMachinesApp]. done.
Qed.

(** X23: whenever a deployment returns, with or without error, no app machine
    is left holding a lease, provided none held one at the start (as is the
    case for a set that [NewMachineSet] built). *)
Theorem DeployMachinesApp_leaves_no_lease (world : World) (K : ApiConstants) (fuel : nat)
    (md md' : machineDeployment) (ctx : Ctx) (tr tr' : Trace) (r : option error) :
  Forall no_lease (machines (machineSet_ md)) →
  DeployMachinesApp world K fuel md ctx tr = (Done (r, md'), tr') →
  Forall no_lease (machines (machineSet_ md')).
Proof.
  intros Hnone Hrun.
  destruct (issues_DeployMachinesApp world K fuel md ctx tr) as (new & _ & _ & Hpost).
  rewrite Hrun in Hpost. by apply (Hpost (r, md') eq_refl).
Qed.

Lemma DeployMachinesApp_leaves_no_lease_witness :
  Forall no_lease
    (machines (machineSet_
       (returned (None, plain_deployment "rolling")
          (DeployMachinesApp update_m2_fails sample_keys 5 (plain_deployment "rolling")
             ctx_caller [])).2)).
Proof.
  pose (run := DeployMachinesApp update_m2_fails sample_keys 5 (plain_deployment "rolling")
                 ctx_caller []).
  apply (DeployMachinesApp_leaves_no_lease update_m2_fails sample_keys 5
           (plain_deployment "rolling")
           (returned (None, plain_deployment "rolling") run).2 ctx_caller [] run.2
           (returned (None, plain_deployment "rolling") run).1).
  - repeat constructor.
  - vm_compute. reflexivity.
Defined.


(** ** The backoff of the health-check poll *)

(** X24: the fields of the backoff that [WaitForHealthchecksToPass]
    configures, when no check has a negative interval: the doubling does not
    overflow, so the [Max] field is twice the shortest interval; the [Min]
    field is not negative and not above the [Max] field; the [Max] field is
    at most 240 seconds and at most twice the interval of any check.  This
    is about the configured fields only: how long the backoff sleeps given
    them, and what it does with a field that is zero, is the library's
    matter and not stated. *)
Theorem healthcheckBackoff_bounds (checks : gmap string MachineCheck) :
  (∀ k c, checks !! k = Some c → 0 ≤ chkInterval c) →
  Max (healthcheckBackoff checks) = 2 * shortestInterval checks
  ∧ 0 ≤ Min (healthcheckBackoff checks) ≤ Max (healthcheckBackoff checks)
  ∧ Max (healthcheckBackoff checks) ≤ 240 * Second
  ∧ (∀ k c, checks !! k = Some c → Max (healthcheckBackoff checks) ≤ 2 * chkInterval c).
Proof.
  intros Hpos. destruct (shortestInterval_spec checks) as (Hle & Hall & Hex).
  assert (H0 : 0 ≤ shortestInterval checks).
  { destruct Hex as [->|(k & c & Hk & ->)]; [unfold Second; lia|by eapply Hpos]. }
  assert (Hq : 0 ≤ Z.quot (shortestInterval checks) 2 ≤ shortestInterval checks).
  { split; [apply Z.quot_pos; lia | apply Z.quot_le_upper_bound; lia]. }
  unfold healthcheckBackoff. simpl.
  rewrite wrap64_small by (unfold Second in *; lia).
  split; [done|]. split; [lia|]. split; [unfold Second in *; lia|].
  intros k c Hk. specialize (Hall k c Hk). lia.
Qed.

Lemma healthcheckBackoff_bounds_witness :
  Min (healthcheckBackoff {[ "alive" := {| chkType := "tcp"; chkInterval := 10 * Second |} ]})
    = 5 * Second
  ∧ Max (healthcheckBackoff {[ "alive" := {| chkType := "tcp"; chkInterval := 10 * Second |} ]})
    = 20 * Second.
Proof.
  destruct (healthcheckBackoff_bounds
              {[ "alive" := {| chkType := "tcp"; chkInterval := 10 * Second |} ]})
    as (Hmax & _).
  - intros k c Hk. apply lookup_singleton_Some in Hk as [_ <-]. simpl. unfold Second. lia.
  - split; [vm_compute; reflexivity|]. rewrite Hmax. vm_compute. reflexivity.
Defined.

(** ** A rollout that succeeds *)

Section Rollout.

Variable world : World.
Variable K : ApiConstants.

Lemma updated_ids_app (tr new : Trace) :
  updated_ids (tr ++ new) = updated_ids tr ++ updated_ids new.
Proof. unfold updated_ids. by rewrite calls_app, omap_app. Qed.

Lemma updated_ids_quiet (new : Trace) :
  Forall (call_ok (fun c => ¬ is_Update c)) new → updated_ids new = [].
Proof.
  induction 1 as [|ev new Hev _ IH]; [done|].
  change (ev :: new) with ([ev] ++ new). rewrite updated_ids_app, IH, app_nil_r.
  destruct ev as [[]| | | |]; simpl in *; done.
Qed.

Lemma issues_quiet {A} (R : A → Prop) (m : M A) (tr tr' : Trace) (a : A) :
  issues (fun c => ¬ is_Update c) R m →
  m tr = (Done a, tr') → updated_ids tr' = updated_ids tr ∧ R a.
Proof.
  intros Hm Hrun. destruct (Hm tr) as (new & Htr & Hok & HR). rewrite Hrun in Htr, HR.
  simpl in *. subst tr'. split; [|by apply HR].
  by rewrite updated_ids_app, (updated_ids_quiet new Hok), app_nil_r.
Qed.

Lemma Update_success (lm lm' : leasableMachine) (ctx : Ctx) (input : LaunchMachineInput)
    (tr tr' : Trace) :
  Update world lm ctx input tr = (Done (None, lm'), tr') →
  updated_ids tr' = updated_ids tr ++ [liID input].
Proof.
  unfold Update, bind. rewrite HasLease_run.
  case_bool_decide; simpl; [|done].
  destruct (time_After _ _); simpl; [|done].
  unfold Update_call. destruct (flaps_Update _ _ _ _ _); simpl; [done|].
  intros [= _ <-]. rewrite !updated_ids_app. simpl. by rewrite app_nil_r.
Qed.

Lemma updateMachine_success (fuel : nat) (md md' : machineDeployment) (ctx : Ctx)
    (m m' : leasableMachine) (tr tr' : Trace) :
  strategy md ≠ "immediate" →
  updateMachine world K fuel md ctx m tr = (Done (None, md', m'), tr') →
  updated_ids tr' = updated_ids tr ++ [ID (machine m)] ∧ strategy md' = strategy md.
Proof.
  intros Hs. unfold updateMachine. unfold bind at 1.
  destruct (resolveUpdatedMachineConfig K md MachineProcessGroupApp (Some (machine m)) tr)
    as [[r0| |] tr0] eqn:Hres; try done.
  destruct (issues_quiet _ _ _ _ _ (issues_resolve K _ md MachineProcessGroupApp (machine m))
              Hres) as (Hids0 & _ & Hli & _ & _ & Hs0 & _).
  cbv zeta. unfold bind at 1, log, emit. unfold bind at 1.
  destruct (Update world _ ctx (launchInput r0) _) as [[[uerr um]| |] tr1] eqn:Hupd;
    try done.
  simpl. destruct uerr as [e|].
  { rewrite (bool_decide_eq_true_2 (strategy (res_md r0) ≠ "immediate")) by congruence.
    done. }
  apply Update_success in Hupd. rewrite updated_ids_app, Hids0 in Hupd. simpl in Hupd.
  rewrite app_nil_r, Hli in Hupd.
  unfold bind.
  destruct (waitForMachine world fuel (res_md r0) ctx um tr1) as [[werr| |] tr2] eqn:Hwait;
    try done.
  intros [= -> <- <- <-].
  assert (Hquiet : issues (fun c => ¬ is_Update c) (fun _ => True)
                     (waitForMachine world fuel (res_md r0) ctx um)).
  { apply issues_waitForMachine; intros; simpl; tauto. }
  destruct (issues_quiet _ _ _ _ _ Hquiet Hwait) as [-> _]. by split.
Qed.

End Rollout.

(** X25: under a strategy other than immediate, a loop over the machines that
    ends without error has sent one update request for every machine it was
    given and no other, in the order of the set. *)
Theorem updateMachines_success_updates_each_once (world : World) (K : ApiConstants)
    (fuel : nat) (md md' : machineDeployment) (ctx : Ctx)
    (todo todo' : list leasableMachine) (tr tr' : Trace) :
  strategy md ≠ "immediate" →
  updateMachines world K fuel md ctx todo tr = (Done (None, md', todo'), tr') →
  updated_ids tr' = updated_ids tr ++ ((fun m => ID (machine m)) <$> todo).
Proof.
  revert md md' todo' tr tr'.
  induction todo as [|m rest IH]; intros md md' todo' tr tr' Hs; simpl.
  - intros [= _ _ <-]. by rewrite app_nil_r.
  - unfold bind at 1.
    destruct (updateMachine world K fuel md ctx m tr) as [[[[err md1] m1]| |] tr1] eqn:Hone;
      try done.
    simpl. destruct err as [e|]; [done|].
    destruct (updateMachine_success world K _ _ _ _ _ _ _ _ Hs Hone) as [Hids1 Hs1].
    unfold bind.
    destruct (updateMachines world K fuel md1 ctx rest tr1)
      as [[[[err2 md2] rest2]| |] tr2] eqn:Hrest; try done.
    simpl. intros [= -> _ _ <-].
    rewrite (IH _ _ _ _ _ (eq_ind_r (fun s => s ≠ "immediate") Hs Hs1) Hrest), Hids1.
    by rewrite <- app_assoc.
Qed.

Lemma updateMachines_success_updates_each_once_witness :
  updated_ids
    (updateMachines calm sample_keys 5 (plain_deployment "rolling") ctx_caller
       [leased "m1"; leased "m2"; leased "m3"] []).2
  = ["m1"; "m2"; "m3"].
Proof.
  pose (run := updateMachines calm sample_keys 5 (plain_deployment "rolling") ctx_caller
                 [leased "m1"; leased "m2"; leased "m3"] []).
  apply (updateMachines_success_updates_each_once calm sample_keys 5
           (plain_deployment "rolling")
           (returned (None, plain_deployment "rolling", []) run).1.2 ctx_caller
           [leased "m1"; leased "m2"; leased "m3"]
           (returned (None, plain_deployment "rolling", []) run).2 [] run.2).
  - done.
  - vm_compute. reflexivity.
Defined.


(** ** The update of the release-command machine *)

Section ReleaseUpdate.

Variable world : World.
Variable K : ApiConstants.

Lemma issues_resolve_fresh (Q : Call → Prop) (md : machineDeployment) (pg : string)
    (orig : Machine) :
  restartOnly md = false →
  issues Q (fun r => (∃ e, Env (liConfig (launchInput r)) = Some e)
                     ∧ Image (liConfig (launchInput r)) = Tag (img md)
                     ∧ releaseCommand (res_md r) = releaseCommand md
                     ∧ releaseCommandMachine (res_md r) = releaseCommandMachine md
                     ∧ leaseTimeout (res_md r) = leaseTimeout md)
         (resolveUpdatedMachineConfig K md pg (Some orig)).
Proof.
  intros Hmode tr.
  destruct (resolve_full_run K md pg orig tr Hmode) as (r & Hrun & Hin & _ & _ & Hmd & _).
  eexists. rewrite Hrun. split; [reflexivity|]. split.
  { match goal with |- Forall _ (if ?b then _ else _) => destruct b end;
      by repeat constructor. }
  intros a [= <-]. rewrite Hin, Hmd. simpl. split; [by eexists|].
  destruct (bool_decide (cfgEnv (appConfig md) ≠ None)); by repeat split.
Qed.

Lemma issues_configure_overrides (Q : Call → Prop) (r : resolved) (e : gmap string string) :
  Env (liConfig (launchInput r)) = Some e →
  issues Q (fun r' => Image (liConfig (launchInput r')) = Image (liConfig (launchInput r))
                      ∧ Init_Cmd (liConfig (launchInput r'))
                        = Some (strings_Split_space (releaseCommand (res_md r)))
                      ∧ Services (liConfig (launchInput r')) = None
                      ∧ Checks (liConfig (launchInput r')) = None
                      ∧ Restart (liConfig (launchInput r')) = MachineRestartPolicyNo
                      ∧ is_Some (default ∅ (Env (liConfig (launchInput r')))
                                 !! "RELEASE_COMMAND")
                      ∧ releaseCommandMachine (res_md r') = releaseCommandMachine (res_md r)
                      ∧ leaseTimeout (res_md r') = leaseTimeout (res_md r))
         (configureLaunchInputForReleaseCommand r).
Proof.
  intros He tr.
  destruct (configureLaunchInputForReleaseCommand_overrides r e tr He)
    as (r' & Hrun & Hcmd & Hsvc & Hchk & Hrestart & Henv & _ & Himg).
  destruct (issues_configure (fun _ => True) r tr) as (_ & _ & _ & Hpost).
  rewrite Hrun in Hpost. destruct (Hpost r' eq_refl) as (_ & _ & _ & Hrc & _ & _ & _ & Hlt).
  exists []. rewrite Hrun, app_nil_r. split; [done|]. split; [constructor|].
  intros a [= <-]. do 5 (split; [done|]). split; [|by split].
  rewrite Henv. simpl. destruct (e !! "RELEASE_COMMAND") eqn:Hk.
  - by rewrite Hk.
  - by rewrite lookup_insert_eq.
Qed.

Lemma issues_updateReleaseCommandMachine_request (fuel : nat) (md : machineDeployment)
    (ctx : Ctx) :
  restartOnly md = false →
  issues (release_update_call md)
         (fun r => Forall no_lease (machines (releaseCommandMachine md)) →
                   Forall no_lease (machines (releaseCommandMachine r.2)))
         (updateReleaseCommandMachine world K fuel md ctx).
Proof.
  intros Hmode. set (Q := release_update_call md).
  assert (Q_rel : ∀ c id nonce, Q (Call_ReleaseLease c id nonce)) by done.
  unfold updateReleaseCommandMachine.
  case_bool_decide; [by apply issues_ret|].
  destruct (IsEmpty _); [by apply issues_ret|].
  unfold GetMachines. destruct (machines (releaseCommandMachine md)) as [|m0 others] eqn:Hms;
    [apply issues_panic|].
  eapply issues_bind; [apply issues_log|]. intros _ _.
  eapply issues_bind with (R1 := fun _ => True).
  { unfold WaitForState. by apply issues_WaitForState_loop. }
  intros [e|] _; [apply issues_ret; simpl; by rewrite Hms|].
  eapply issues_bind; [by apply issues_resolve_fresh|].
  intros r0 ([e He] & Himg0 & Hcmd0 & _).
  eapply issues_bind; [by apply (issues_configure_overrides Q r0 e)|].
  intros r (Himg & Hcmd & Hsvc & Hchk & Hrestart & Henv & _). cbv zeta.
  eapply issues_bind with (R1 := fun _ => True).
  { eapply issues_weaken;
      [|apply (issues_AcquireLeases Q world Q_rel (fun _ => True)); try done].
    - done.
    - by apply Forall_true. }
  intros a _.
  eapply issues_bind with (R1 := fun _ => True).
  { destruct a.1; [by apply issues_ret|].
    unfold GetMachines. simpl.
    destruct (machines a.2) as [|m1 others1]; [apply issues_panic|].
    eapply issues_bind.
    - apply (issues_Update Q world). simpl.
      rewrite Himg, Himg0, Hcmd, Hcmd0. by repeat split.
    - intros u _. destruct u.1; by apply issues_ret. }
  intros body _.
  eapply issues_bind; [by apply issues_ReleaseLeases_reset|].
  intros rel Hrel. apply issues_ret. simpl. intros _. rewrite Hrel.
  apply Forall_fmap, Forall_true. done.
Qed.

Lemma issues_runReleaseCommand_request (fuel : nat) (md : machineDeployment) (ctx : Ctx) :
  issues (release_update_call md)
         (fun r => Forall no_lease (machines (releaseCommandMachine md)) →
                   Forall no_lease (machines (releaseCommandMachine r.2)))
         (runReleaseCommand world K fuel md ctx).
Proof.
  set (Q := release_update_call md).
  unfold runReleaseCommand.
  destruct (bool_decide (releaseCommand md = "")); [by apply issues_ret|].
  unfold createOrUpdateReleaseCmdMachine.
  destruct (IsEmpty (releaseCommandMachine md)) eqn:Hempty; [by apply issues_ret|].
  destruct (restartOnly md) eqn:Hmode; [by apply issues_ret|]. simpl.
  eapply issues_bind; [apply issues_log|]. intros _ _.
  eapply issues_bind; [by apply issues_updateReleaseCommandMachine_request|].
  intros r Hr. cbv zeta.
  destruct r.1; [by apply issues_ret|].
  destruct (GetMachines _) as [|rcm ?]; [apply issues_panic|].
  eapply issues_bind with (R1 := fun _ => True).
  { unfold WaitForState. by apply issues_WaitForState_loop. }
  intros [e|] _; [by apply issues_ret|].
  eapply issues_bind with (R1 := fun _ => True).
  { unfold WaitForState. by apply issues_WaitForState_loop. }
  intros [e|] _; [by apply issues_ret|].
  eapply issues_bind with (R1 := fun _ => True).
  { unfold WaitForEventTypeAfterType. by apply issues_WaitForEventTypeAfterType_loop. }
  intros [e|ev] _; [by apply issues_ret|].
  destruct (GetExitCode ev) as [e|code]; [by apply issues_ret|].
  case_bool_decide; (eapply issues_bind; [apply issues_log|]); intros _ _;
    by apply issues_ret.
Qed.

End ReleaseUpdate.

(** X26: every update request of the release-command phase carries the
    configuration of a release-command machine: the image of the deployment,
    the release command cut at its spaces as the init command, no services,
    no checks, the restart policy that never restarts, and the key
    RELEASE_COMMAND in the environment.  The phase launches nothing. *)
Theorem runReleaseCommand_update_request (world : World) (K : ApiConstants) (fuel : nat)
    (md : machineDeployment) (ctx : Ctx) :
  issues (release_update_call md) (fun _ => True) (runReleaseCommand world K fuel md ctx).
Proof.
  eapply issues_weaken; [|apply issues_runReleaseCommand_request]. done.
Qed.

(** X27: whenever the release-command phase returns, with or without error, the
    release-command machine is left without a lease, provided it held none
    at the start: the lease taken for the update is released on every
    path. *)
Theorem runReleaseCommand_leaves_no_lease (world : World) (K : ApiConstants) (fuel : nat)
    (md md' : machineDeployment) (ctx : Ctx) (tr tr' : Trace) (r : option error) :
  Forall no_lease (machines (releaseCommandMachine md)) →
  runReleaseCommand world K fuel md ctx tr = (Done (r, md'), tr') →
  Forall no_lease (machines (releaseCommandMachine md')).
Proof.
  intros Hnone Hrun.
  destruct (issues_runReleaseCommand_request world K fuel md ctx tr) as (new & _ & _ & Hpost).
  rewrite Hrun in Hpost. by apply (Hpost (r, md') eq_refl).
Qed.

Lemma runReleaseCommand_leaves_no_lease_witness :
  Forall no_lease
    (machines (releaseCommandMachine
       (returned (None, sample_deployment "rolling")
          (runReleaseCommand release_exits_7 sample_keys 5 (sample_deployment "rolling")
             ctx_caller [])).2))
  ∧ updated_ids
      (runReleaseCommand release_exits_7 sample_keys 5 (sample_deployment "rolling")
         ctx_caller []).2 = ["rc"].
Proof.
  pose (run := runReleaseCommand release_exits_7 sample_keys 5 (sample_deployment "rolling")
                 ctx_caller []).
  split; [|vm_compute; reflexivity].
  apply (runReleaseCommand_leaves_no_lease release_exits_7 sample_keys 5
           (sample_deployment "rolling")
           (returned (None, sample_deployment "rolling") run).2 ctx_caller [] run.2
           (returned (None, sample_deployment "rolling") run).1).
  - repeat constructor.
  - vm_compute. reflexivity.
Defined.

